(** * Speculator: the granular sample-playback engine

    A shallow embedding of [Source/SamplePlayer.h], its implementation file
    (the playback-mode variant of [SamplePlayer.cpp]) and [Source/DSPUtils.h],
    followed by the properties of the engine that the specification states,
    by further properties of the engine and of its callers in
    [Source/PluginProcessor.cpp] and [Source/PluginEditor.cpp], and by the
    properties that depend on the rounding of [float].

    Conventions of the embedding.
    - [float] and [double] are carried by the rationals [Q].  The modules
      of the first part compute in exact arithmetic, and a decimal literal
      there stands for the decimal number it spells; their theorems are
      about what the code does up to rounding.  Where rounding decides a
      property (the peak of a loaded file, the number of [process] calls an
      envelope stage takes), the functions are given a second time in
      [Rounded], with the result of every [float] operation and every
      [float] literal passed through a rounding function [rnd], and the
      theorems hold for every rounding to nearest ([round_to_nearest]), of
      which [binary32] is one.  Overflow, underflow and the rounding of
      [double] are not modelled.
    - [int] is [Z] for MIDI note numbers and tap offsets; sample counts and
      array indices, which the source keeps non-negative, are [nat].
    - The transcendental functions of [<cmath>] ([cos], [sin], [tanh],
      [exp], [pow]) are the fields of a record [Libm] that every function
      using them takes; the theorems hold for each such record.
    - Member functions become functions from the object to the updated
      object.  A [Voice&] into the pool is an index into [voices], so that a
      call reaching other voices through the pool acts on the same store. *)

From Stdlib Require Import QArith Qround Qabs Qminmax Qpower ZArith List Lia Lqa.
From stdpp Require Import base list.

Open Scope Q_scope.

(** ** Numbers *)

Definition float := Q.
Definition double := Q.

Definition Qltb (x y : Q) : bool := negb (Qle_bool y x).
Definition Qgeb (x y : Q) : bool := Qle_bool y x.
Definition Qgtb (x y : Q) : bool := negb (Qle_bool x y).

(** [std::floor] followed by the conversion to [int]. *)
Definition floor (x : double) : Z := Qfloor x.

(** Rounding toward zero, as [std::fmod] needs it. *)
Definition trunc (x : Q) : Z := Z.quot (Qnum x) (Zpos (Qden x)).

(** [std::fmod x y]: the remainder of [x / y], with the sign of [x]. *)
Definition fmod (x y : double) : double := x - inject_Z (trunc (x / y)) * y.

(** [std::copysign m s]: the magnitude of [m] with the sign of [s]. *)
Definition copysign (m s : float) : float :=
  if Qltb s 0 then - Qabs m else Qabs m.

(** [M_PI] of [<cmath>] and [juce::MathConstants<float>::pi]. *)
Definition M_PI : double := 3.14159265358979323846.
Definition pi_f : float := 3.14159265358979323846.

(** [std::numeric_limits<float>::max()]. *)
Definition FLT_MAX : float := inject_Z 340282346638528859811704183484516925440.

(** The functions of [<cmath>] that the engine calls. *)
Record Libm := {
  cos : Q -> Q;
  sin : Q -> Q;
  tanh : Q -> Q;
  exp : Q -> Q;
  pow : Q -> Q -> Q
}.

(** A [for (int i = 0; i < n; ++i)] loop threading a state. *)
Definition for_loop {S : Type} (n : nat) (body : nat -> S -> S) (s : S) : S :=
  fold_left (fun acc i => body i acc) (seq 0 n) s.

(** ** [juce::AudioBuffer<float>] *)

Module AudioBuffer.

(** [numSamples] is the size given to [setSize]; [channels] holds one list
    per channel.  Reading past the end of a channel yields [0] and writing
    there does nothing (the source never checks). *)
Record t := mk {
  numSamples : nat;
  channels : list (list float)
}.

Definition empty : t := {| numSamples := 0; channels := [] |}.

Definition getNumSamples (b : t) : nat := numSamples b.
Definition getNumChannels (b : t) : nat := length (channels b).

(** [setSize (c, n)] on a fresh buffer. *)
Definition setSize (c n : nat) : t :=
  {| numSamples := n; channels := replicate c (replicate n 0) |}.

Definition getReadPointer (b : t) (channel : nat) : list float :=
  nth channel (channels b) [].

Definition getSample (b : t) (channel i : nat) : float :=
  nth i (getReadPointer b channel) 0.

Definition mapChannels (f : list float -> list float) (b : t) : t :=
  {| numSamples := numSamples b; channels := map f (channels b) |}.

(** [clear ()]: every sample of every channel becomes zero; the size stays. *)
Definition clear (b : t) : t := mapChannels (map (fun _ => 0)) b.

(** [clear (startSample, numSamples)] on every channel. *)
Definition clearRegion (startSample num : nat) (b : t) : t :=
  mapChannels
    (fun c => for_loop num (fun i c => <[(startSample + i)%nat := 0]> c) c) b.

Definition applyGain (gain : float) (b : t) : t :=
  mapChannels (map (fun x => x * gain)) b.

(** [addSample (channel, i, value)]. *)
Definition addSample (channel i : nat) (value : float) (b : t) : t :=
  {| numSamples := numSamples b;
     channels := alter (alter (fun x => x + value) i) channel (channels b) |}.

(** [data[i] *= g] through [getWritePointer (channel)]. *)
Definition scaleSample (channel i : nat) (g : float) (b : t) : t :=
  {| numSamples := numSamples b;
     channels := alter (alter (fun x => x * g) i) channel (channels b) |}.

Definition setSample (channel i : nat) (value : float) (b : t) : t :=
  {| numSamples := numSamples b;
     channels := alter (fun c => <[i := value]> c) channel (channels b) |}.

End AudioBuffer.

(** ** [DSPUtils.h] *)

Module DSPUtils.

Record array3 := mk3 { at0 : float; at1 : float; at2 : float }.

Module Resampler.
Section WithLibm.
Context (M : Libm).

Definition SINC_POINTS : Z := 8.

Definition sincInterpolate (x : float) : float :=
  if Qeq_bool x 0 then 1
  else let px := pi_f * x in sin M px / px.

(** The offsets [-SINC_POINTS .. SINC_POINTS]. *)
Definition taps : list Z :=
  map (fun k => (Z.of_nat k - SINC_POINTS)%Z) (seq 0 17).

Definition resample (input : list float) (position : double)
                    (bufferSize : Z) : float :=
  let pos := floor position in
  let frac := position - inject_Z pos in
  fold_left
    (fun sum i =>
       let readPos := (pos + i)%Z in
       if ((0 <=? readPos)%Z && (readPos <? bufferSize)%Z)%bool
       then sum + nth (Z.to_nat readPos) input 0
                  * sincInterpolate (frac - inject_Z i)
       else sum)
    taps 0.
End WithLibm.
End Resampler.

Module ButterworthFilter.
Record t := mk {
  fs : float;
  a : array3;
  b : array3;
  x : array3;
  y : array3
}.

Definition init : t :=
  {| fs := 44100; a := mk3 1 0 0; b := mk3 1 0 0;
     x := mk3 0 0 0; y := mk3 0 0 0 |}.

Definition reset (f : t) : t :=
  {| fs := fs f; a := a f; b := b f; x := mk3 0 0 0; y := mk3 0 0 0 |}.

Definition prepare (sampleRate : double) (f : t) : t :=
  reset {| fs := sampleRate; a := a f; b := b f; x := x f; y := y f |}.

Section WithLibm.
Context (M : Libm).

Definition setCutoff (frequency : float) (f : t) : t :=
  let omega := 2 * pi_f * frequency / fs f in
  let cosOmega := cos M omega in
  let alpha := sin M omega / 1.414213562 in
  let a0 := 1 + alpha in
  let b0 := (1 - cosOmega) / (2 * a0) in
  {| fs := fs f;
     a := mk3 (at0 (a f)) ((- (2) * cosOmega) / a0) ((1 - alpha) / a0);
     b := mk3 b0 ((1 - cosOmega) / a0) b0;
     x := x f; y := y f |}.
End WithLibm.

Definition process (input : float) (f : t) : t * float :=
  let output := at0 (b f) * input + at1 (b f) * at1 (x f)
                + at2 (b f) * at2 (x f)
                - at1 (a f) * at1 (y f) - at2 (a f) * at2 (y f) in
  ({| fs := fs f; a := a f; b := b f;
      x := mk3 (at0 (x f)) input (at1 (x f));
      y := mk3 (at0 (y f)) output (at1 (y f)) |},
   output).
End ButterworthFilter.

Module DCBlocker.
Record t := mk { x1 : float; y1 : float }.

Definition R : float := 0.995.
Definition init : t := {| x1 := 0; y1 := 0 |}.

Definition process (input : float) (d : t) : t * float :=
  let output := input - x1 d + R * y1 d in
  ({| x1 := input; y1 := output |}, output).

Definition reset (d : t) : t := {| x1 := 0; y1 := 0 |}.
End DCBlocker.

Module GrainWindow.
Section WithLibm.
Context (M : Libm).

Definition getGainAt (phase overlap : float) : float :=
  let hann := 0.5 * (1 - cos M (2 * pi_f * phase)) in
  let edgeWidth := (1 - overlap) * 0.5 in
  if Qltb phase edgeWidth then
    let normPhase := phase / edgeWidth in
    hann * (normPhase * normPhase)
  else if Qgtb phase (1 - edgeWidth) then
    let normPhase := (1 - phase) / edgeWidth in
    hann * (normPhase * normPhase)
  else hann.
End WithLibm.
End GrainWindow.

Module SoftClipper.
Record t := mk { filter : ButterworthFilter.t }.

Definition OVERSAMPLE : nat := 4.
Definition init : t := {| filter := ButterworthFilter.init |}.

Section WithLibm.
Context (M : Libm).

Definition prepare (sampleRate : double) (c : t) : t :=
  {| filter :=
       ButterworthFilter.setCutoff M (sampleRate * 0.45)
         (ButterworthFilter.prepare
            (sampleRate * inject_Z (Z.of_nat OVERSAMPLE)) (filter c)) |}.

Definition processSample (x : float) : float :=
  let x := x * 0.686 in
  let x := tanh M x in
  copysign (1 - exp M (- Qabs x)) x.

(** Each of the [OVERSAMPLE] copies of the input is clipped and
    filtered in turn; the outputs are averaged. *)
Definition process (input : float) (c : t) : t * float :=
  let '(f, sum) :=
    for_loop OVERSAMPLE
      (fun _ '(f, sum) =>
         let '(f', o) := ButterworthFilter.process (processSample input) f in
         (f', sum + o))
      (filter c, 0) in
  ({| filter := f |}, sum / inject_Z (Z.of_nat OVERSAMPLE)).
End WithLibm.
End SoftClipper.

Module PeakLimiter.
Record t := mk {
  envelope : float;
  attackTime : float;
  releaseTime : float;
  threshold : float
}.

Definition init : t :=
  {| envelope := 0; attackTime := 0; releaseTime := 0; threshold := 0.95 |}.

Section WithLibm.
Context (M : Libm).

Definition prepare (sampleRate : double) (l : t) : t :=
  {| envelope := envelope l;
     attackTime := exp M (- (1) / (0.001 * sampleRate));
     releaseTime := exp M (- (1) / (0.100 * sampleRate));
     threshold := threshold l |}.
End WithLibm.

Definition process (input : float) (l : t) : t * float :=
  let inputAbs := Qabs input in
  let env :=
    if Qgtb inputAbs (envelope l)
    then attackTime l * (envelope l - inputAbs) + inputAbs
    else releaseTime l * (envelope l - inputAbs) + inputAbs in
  let gain := if Qgtb env (threshold l) then threshold l / env else 1 in
  ({| envelope := env; attackTime := attackTime l;
      releaseTime := releaseTime l; threshold := threshold l |},
   input * gain).

Definition reset (l : t) : t :=
  {| envelope := 0; attackTime := attackTime l;
     releaseTime := releaseTime l; threshold := threshold l |}.
End PeakLimiter.

End DSPUtils.

(** ** [SamplePlayer::Voice::Envelope] *)

Module Envelope.

Inductive State := Idle | Attack | Decay | Sustain | Release.

Definition State_eqb (s1 s2 : State) : bool :=
  match s1, s2 with
  | Idle, Idle | Attack, Attack | Decay, Decay
  | Sustain, Sustain | Release, Release => true
  | _, _ => false
  end.

Record t := mk {
  attackTime : float;
  decayTime : float;
  sustainLevel : float;
  releaseTime : float;
  sampleRate : float;
  state : State;
  currentLevel : float;
  currentTime : float
}.

(** The member initialisers of the struct. *)
Definition init : t :=
  {| attackTime := 0.01; decayTime := 0.1; sustainLevel := 0.7;
     releaseTime := 0.2; sampleRate := 44100;
     state := Idle; currentLevel := 0; currentTime := 0 |}.

Definition with_state (s : State) (e : t) : t :=
  mk (attackTime e) (decayTime e) (sustainLevel e) (releaseTime e)
     (sampleRate e) s (currentLevel e) (currentTime e).
Definition with_currentLevel (l : float) (e : t) : t :=
  mk (attackTime e) (decayTime e) (sustainLevel e) (releaseTime e)
     (sampleRate e) (state e) l (currentTime e).
Definition with_currentTime (c : float) (e : t) : t :=
  mk (attackTime e) (decayTime e) (sustainLevel e) (releaseTime e)
     (sampleRate e) (state e) (currentLevel e) c.
Definition with_sustainLevel (s : float) (e : t) : t :=
  mk (attackTime e) (decayTime e) s (releaseTime e)
     (sampleRate e) (state e) (currentLevel e) (currentTime e).
Definition with_releaseTime (r : float) (e : t) : t :=
  mk (attackTime e) (decayTime e) (sustainLevel e) r
     (sampleRate e) (state e) (currentLevel e) (currentTime e).
Definition with_sampleRate (sr : float) (e : t) : t :=
  mk (attackTime e) (decayTime e) (sustainLevel e) (releaseTime e)
     sr (state e) (currentLevel e) (currentTime e).

Definition setParameters (attack decay sustain release sr : float) (e : t) : t :=
  mk attack decay sustain release sr (state e) (currentLevel e) (currentTime e).

(** [process ()]: one sample of the envelope; the pair is the updated
    envelope and the returned level. *)
Definition process (e : t) : t * float :=
  let timeInc := 1 / sampleRate e in
  let e' :=
    match state e with
    | Attack =>
        let e := with_currentTime (currentTime e + timeInc) e in
        let e := with_currentLevel (currentTime e / attackTime e) e in
        if Qgeb (currentLevel e) 1
        then with_currentTime 0 (with_state Decay (with_currentLevel 1 e))
        else e
    | Decay =>
        let e := with_currentTime (currentTime e + timeInc) e in
        let e := with_currentLevel
                   (1 - (1 - sustainLevel e) * (currentTime e / decayTime e)) e in
        if Qle_bool (currentLevel e) (sustainLevel e)
        then with_state Sustain (with_currentLevel (sustainLevel e) e)
        else e
    | Sustain => with_currentLevel (sustainLevel e) e
    | Release =>
        let e := with_currentTime (currentTime e + timeInc) e in
        let e := with_currentLevel
                   (sustainLevel e * (1 - currentTime e / releaseTime e)) e in
        if Qle_bool (currentLevel e) 0.001
        then with_state Idle (with_currentLevel 0 e)
        else e
    | Idle => with_currentLevel 0 e
    end in
  (e', currentLevel e').

(** [noteOn ()]: the state is assigned before it is compared with
    [Release], as in the source. *)
Definition noteOn (e : t) : t :=
  let e := with_state Attack e in
  let e := with_currentTime 0 e in
  if State_eqb (state e) Release
  then with_currentTime ((currentLevel e / 1) * attackTime e) e
  else e.

Definition noteOff (e : t) : t :=
  if negb (State_eqb (state e) Idle)
  then with_currentTime 0 (with_state Release e)
  else e.

End Envelope.

(** ** [SamplePlayer::Grain] and [SamplePlayer::Voice] *)

Module Grain.

Record t := mk {
  startPosition : double;
  currentPosition : double;
  grainLength : double;
  age : double;
  isActive : bool;
  phase : float;
  initialPhase : float;
  phaseIncrement : float
}.

End Grain.

Module Voice.

(** The resampler of a voice holds no state and is left out. *)
Record t := mk {
  isActive : bool;
  position : double;
  pitchRatio : double;
  velocity : float;
  midiNote : Z;
  lastOutputSample : float;
  grains : list Grain.t;
  grainDuration : float;
  grainOverlap : float;
  antiAliasFilter : DSPUtils.ButterworthFilter.t;
  dcBlocker : DSPUtils.DCBlocker.t;
  softClipper : DSPUtils.SoftClipper.t;
  envelope : Envelope.t
}.

Definition init : t :=
  {| isActive := false; position := 0; pitchRatio := 1; velocity := 0;
     midiNote := (-1)%Z; lastOutputSample := 0; grains := [];
     grainDuration := 0.1; grainOverlap := 0.5;
     antiAliasFilter := DSPUtils.ButterworthFilter.init;
     dcBlocker := DSPUtils.DCBlocker.init;
     softClipper := DSPUtils.SoftClipper.init;
     envelope := Envelope.init |}.

Definition with_isActive (x : bool) (v : t) : t :=
  mk x (position v) (pitchRatio v) (velocity v) (midiNote v)
     (lastOutputSample v) (grains v) (grainDuration v) (grainOverlap v)
     (antiAliasFilter v) (dcBlocker v) (softClipper v) (envelope v).
Definition with_position (x : double) (v : t) : t :=
  mk (isActive v) x (pitchRatio v) (velocity v) (midiNote v)
     (lastOutputSample v) (grains v) (grainDuration v) (grainOverlap v)
     (antiAliasFilter v) (dcBlocker v) (softClipper v) (envelope v).
Definition with_pitchRatio (x : double) (v : t) : t :=
  mk (isActive v) (position v) x (velocity v) (midiNote v)
     (lastOutputSample v) (grains v) (grainDuration v) (grainOverlap v)
     (antiAliasFilter v) (dcBlocker v) (softClipper v) (envelope v).
Definition with_velocity (x : float) (v : t) : t :=
  mk (isActive v) (position v) (pitchRatio v) x (midiNote v)
     (lastOutputSample v) (grains v) (grainDuration v) (grainOverlap v)
     (antiAliasFilter v) (dcBlocker v) (softClipper v) (envelope v).
Definition with_midiNote (x : Z) (v : t) : t :=
  mk (isActive v) (position v) (pitchRatio v) (velocity v) x
     (lastOutputSample v) (grains v) (grainDuration v) (grainOverlap v)
     (antiAliasFilter v) (dcBlocker v) (softClipper v) (envelope v).
Definition with_lastOutputSample (x : float) (v : t) : t :=
  mk (isActive v) (position v) (pitchRatio v) (velocity v) (midiNote v)
     x (grains v) (grainDuration v) (grainOverlap v)
     (antiAliasFilter v) (dcBlocker v) (softClipper v) (envelope v).
Definition with_grains (x : list Grain.t) (v : t) : t :=
  mk (isActive v) (position v) (pitchRatio v) (velocity v) (midiNote v)
     (lastOutputSample v) x (grainDuration v) (grainOverlap v)
     (antiAliasFilter v) (dcBlocker v) (softClipper v) (envelope v).
Definition with_grainDuration (x : float) (v : t) : t :=
  mk (isActive v) (position v) (pitchRatio v) (velocity v) (midiNote v)
     (lastOutputSample v) (grains v) x (grainOverlap v)
     (antiAliasFilter v) (dcBlocker v) (softClipper v) (envelope v).
Definition with_grainOverlap (x : float) (v : t) : t :=
  mk (isActive v) (position v) (pitchRatio v) (velocity v) (midiNote v)
     (lastOutputSample v) (grains v) (grainDuration v) x
     (antiAliasFilter v) (dcBlocker v) (softClipper v) (envelope v).
Definition with_antiAliasFilter (x : DSPUtils.ButterworthFilter.t) (v : t) : t :=
  mk (isActive v) (position v) (pitchRatio v) (velocity v) (midiNote v)
     (lastOutputSample v) (grains v) (grainDuration v) (grainOverlap v)
     x (dcBlocker v) (softClipper v) (envelope v).
Definition with_dcBlocker (x : DSPUtils.DCBlocker.t) (v : t) : t :=
  mk (isActive v) (position v) (pitchRatio v) (velocity v) (midiNote v)
     (lastOutputSample v) (grains v) (grainDuration v) (grainOverlap v)
     (antiAliasFilter v) x (softClipper v) (envelope v).
Definition with_softClipper (x : DSPUtils.SoftClipper.t) (v : t) : t :=
  mk (isActive v) (position v) (pitchRatio v) (velocity v) (midiNote v)
     (lastOutputSample v) (grains v) (grainDuration v) (grainOverlap v)
     (antiAliasFilter v) (dcBlocker v) x (envelope v).
Definition with_envelope (x : Envelope.t) (v : t) : t :=
  mk (isActive v) (position v) (pitchRatio v) (velocity v) (midiNote v)
     (lastOutputSample v) (grains v) (grainDuration v) (grainOverlap v)
     (antiAliasFilter v) (dcBlocker v) (softClipper v) x.

Section WithLibm.
Context (M : Libm).

Definition prepare (sampleRate : double) (v : t) : t :=
  let v := with_antiAliasFilter
             (DSPUtils.ButterworthFilter.prepare sampleRate (antiAliasFilter v)) v in
  let v := with_dcBlocker (DSPUtils.DCBlocker.reset (dcBlocker v)) v in
  let v := with_softClipper
             (DSPUtils.SoftClipper.prepare M sampleRate (softClipper v)) v in
  with_envelope (Envelope.with_sampleRate sampleRate (envelope v)) v.
End WithLibm.

Definition reset (v : t) : t :=
  let v := with_isActive false v in
  let v := with_position 0 v in
  let v := with_lastOutputSample 0 v in
  let v := with_grains [] v in
  with_dcBlocker (DSPUtils.DCBlocker.reset (dcBlocker v)) v.

End Voice.

(** ** [SamplePlayer] *)

(** What [formatManager.createReaderFor] yields for a readable file: the
    format of the file and its decoded samples, one list per channel. *)
Record AudioFormatReader := {
  numChannels : nat;
  lengthInSamples : nat;
  sampleRate : double;
  decoded : list (list float)
}.

(** The MIDI messages as [isNoteOn] and [isNoteOff] classify them. *)
Inductive MidiMessage :=
| NoteOn (noteNumber : Z) (floatVelocity : float)
| NoteOff (noteNumber : Z)
| OtherMessage.

Module SamplePlayer.

Inductive PlaybackMode := Polyphonic | Monophonic | OneShot.

Definition PlaybackMode_eqb (m1 m2 : PlaybackMode) : bool :=
  match m1, m2 with
  | Polyphonic, Polyphonic | Monophonic, Monophonic | OneShot, OneShot => true
  | _, _ => false
  end.

Definition MAX_VOICES : nat := 16.

Record t := mk {
  voices : list Voice.t;
  reader : option AudioFormatReader;
  fileBuffer : AudioBuffer.t;
  tempBuffer : AudioBuffer.t;
  currentSampleRate : double;
  fileSampleRate : double;
  sampleRateRatio : double;
  playbackSpeed : float;
  isLooping : bool;
  isHoldMode : bool;
  holdPosition : double;
  isEnabled : bool;
  playbackMode : PlaybackMode;
  currentLevel : float;
  outputLimiter : DSPUtils.PeakLimiter.t
}.

Definition with_voices (x : list Voice.t) (s : t) : t :=
  mk x (reader s) (fileBuffer s) (tempBuffer s) (currentSampleRate s)
     (fileSampleRate s) (sampleRateRatio s) (playbackSpeed s) (isLooping s)
     (isHoldMode s) (holdPosition s) (isEnabled s) (playbackMode s)
     (currentLevel s) (outputLimiter s).
Definition with_reader (x : option AudioFormatReader) (s : t) : t :=
  mk (voices s) x (fileBuffer s) (tempBuffer s) (currentSampleRate s)
     (fileSampleRate s) (sampleRateRatio s) (playbackSpeed s) (isLooping s)
     (isHoldMode s) (holdPosition s) (isEnabled s) (playbackMode s)
     (currentLevel s) (outputLimiter s).
Definition with_fileBuffer (x : AudioBuffer.t) (s : t) : t :=
  mk (voices s) (reader s) x (tempBuffer s) (currentSampleRate s)
     (fileSampleRate s) (sampleRateRatio s) (playbackSpeed s) (isLooping s)
     (isHoldMode s) (holdPosition s) (isEnabled s) (playbackMode s)
     (currentLevel s) (outputLimiter s).
Definition with_tempBuffer (x : AudioBuffer.t) (s : t) : t :=
  mk (voices s) (reader s) (fileBuffer s) x (currentSampleRate s)
     (fileSampleRate s) (sampleRateRatio s) (playbackSpeed s) (isLooping s)
     (isHoldMode s) (holdPosition s) (isEnabled s) (playbackMode s)
     (currentLevel s) (outputLimiter s).
Definition with_currentSampleRate (x : double) (s : t) : t :=
  mk (voices s) (reader s) (fileBuffer s) (tempBuffer s) x
     (fileSampleRate s) (sampleRateRatio s) (playbackSpeed s) (isLooping s)
     (isHoldMode s) (holdPosition s) (isEnabled s) (playbackMode s)
     (currentLevel s) (outputLimiter s).
Definition with_fileSampleRate (x : double) (s : t) : t :=
  mk (voices s) (reader s) (fileBuffer s) (tempBuffer s) (currentSampleRate s)
     x (sampleRateRatio s) (playbackSpeed s) (isLooping s)
     (isHoldMode s) (holdPosition s) (isEnabled s) (playbackMode s)
     (currentLevel s) (outputLimiter s).
Definition with_sampleRateRatio (x : double) (s : t) : t :=
  mk (voices s) (reader s) (fileBuffer s) (tempBuffer s) (currentSampleRate s)
     (fileSampleRate s) x (playbackSpeed s) (isLooping s)
     (isHoldMode s) (holdPosition s) (isEnabled s) (playbackMode s)
     (currentLevel s) (outputLimiter s).
Definition with_playbackSpeed (x : float) (s : t) : t :=
  mk (voices s) (reader s) (fileBuffer s) (tempBuffer s) (currentSampleRate s)
     (fileSampleRate s) (sampleRateRatio s) x (isLooping s)
     (isHoldMode s) (holdPosition s) (isEnabled s) (playbackMode s)
     (currentLevel s) (outputLimiter s).
Definition with_isLooping (x : bool) (s : t) : t :=
  mk (voices s) (reader s) (fileBuffer s) (tempBuffer s) (currentSampleRate s)
     (fileSampleRate s) (sampleRateRatio s) (playbackSpeed s) x
     (isHoldMode s) (holdPosition s) (isEnabled s) (playbackMode s)
     (currentLevel s) (outputLimiter s).
Definition with_isHoldMode (x : bool) (s : t) : t :=
  mk (voices s) (reader s) (fileBuffer s) (tempBuffer s) (currentSampleRate s)
     (fileSampleRate s) (sampleRateRatio s) (playbackSpeed s) (isLooping s)
     x (holdPosition s) (isEnabled s) (playbackMode s)
     (currentLevel s) (outputLimiter s).
Definition with_holdPosition (x : double) (s : t) : t :=
  mk (voices s) (reader s) (fileBuffer s) (tempBuffer s) (currentSampleRate s)
     (fileSampleRate s) (sampleRateRatio s) (playbackSpeed s) (isLooping s)
     (isHoldMode s) x (isEnabled s) (playbackMode s)
     (currentLevel s) (outputLimiter s).
Definition with_isEnabled (x : bool) (s : t) : t :=
  mk (voices s) (reader s) (fileBuffer s) (tempBuffer s) (currentSampleRate s)
     (fileSampleRate s) (sampleRateRatio s) (playbackSpeed s) (isLooping s)
     (isHoldMode s) (holdPosition s) x (playbackMode s)
     (currentLevel s) (outputLimiter s).
Definition with_playbackMode (x : PlaybackMode) (s : t) : t :=
  mk (voices s) (reader s) (fileBuffer s) (tempBuffer s) (currentSampleRate s)
     (fileSampleRate s) (sampleRateRatio s) (playbackSpeed s) (isLooping s)
     (isHoldMode s) (holdPosition s) (isEnabled s) x
     (currentLevel s) (outputLimiter s).
Definition with_currentLevel (x : float) (s : t) : t :=
  mk (voices s) (reader s) (fileBuffer s) (tempBuffer s) (currentSampleRate s)
     (fileSampleRate s) (sampleRateRatio s) (playbackSpeed s) (isLooping s)
     (isHoldMode s) (holdPosition s) (isEnabled s) (playbackMode s)
     x (outputLimiter s).
Definition with_outputLimiter (x : DSPUtils.PeakLimiter.t) (s : t) : t :=
  mk (voices s) (reader s) (fileBuffer s) (tempBuffer s) (currentSampleRate s)
     (fileSampleRate s) (sampleRateRatio s) (playbackSpeed s) (isLooping s)
     (isHoldMode s) (holdPosition s) (isEnabled s) (playbackMode s)
     (currentLevel s) x.

(** [voices[i] = v] for a [Voice&] obtained at index [i]. *)
Definition setVoice (i : nat) (v : Voice.t) (s : t) : t :=
  with_voices (<[i := v]> (voices s)) s.

(** The constructor: the member initialisers, then the loop over the pool. *)
Definition construct : t :=
  {| voices :=
       map (fun v => Voice.with_grainOverlap 0.5 (Voice.with_grainDuration 0.1 v))
           (replicate MAX_VOICES Voice.init);
     reader := None;
     fileBuffer := AudioBuffer.empty;
     tempBuffer := AudioBuffer.empty;
     currentSampleRate := 44100;
     fileSampleRate := 44100;
     sampleRateRatio := 1;
     playbackSpeed := 1;
     isLooping := false;
     isHoldMode := false;
     holdPosition := 0;
     isEnabled := true;
     playbackMode := Polyphonic;
     currentLevel := 0;
     outputLimiter := DSPUtils.PeakLimiter.init |}.

(** *** Inline members of the header and the plain setters *)

Definition getLooping (s : t) : bool := isLooping s.
Definition getHoldMode (s : t) : bool := isHoldMode s.
Definition isFileLoaded (s : t) : bool :=
  (0 <? AudioBuffer.getNumSamples (fileBuffer s))%nat.
Definition getCurrentLevel (s : t) : float := currentLevel s.
Definition setEnabled (shouldBeEnabled : bool) (s : t) : t :=
  with_isEnabled shouldBeEnabled s.
Definition getEnabled (s : t) : bool := isEnabled s.
Definition setPlaybackMode (mode : PlaybackMode) (s : t) : t :=
  with_playbackMode mode s.
Definition getPlaybackMode (s : t) : PlaybackMode := playbackMode s.

Definition setPlaybackSpeed (speed : float) (s : t) : t :=
  with_playbackSpeed speed s.

Definition setLooping (shouldLoop : bool) (s : t) : t :=
  with_isLooping shouldLoop s.

Definition getLengthInSeconds (s : t) : double :=
  if (0 <? AudioBuffer.getNumSamples (fileBuffer s))%nat
  then inject_Z (Z.of_nat (AudioBuffer.getNumSamples (fileBuffer s)))
       / fileSampleRate s
  else 0.

(** The sample count of the loaded file, as the [double] it is compared
    and multiplied with. *)
Definition numSamplesQ (s : t) : double :=
  inject_Z (Z.of_nat (AudioBuffer.getNumSamples (fileBuffer s))).

(** *** Loading *)

(** The first pass of [loadFile] over one channel: every sample goes
    through the DC blocker in place, and the running maximum follows. *)
Fixpoint dcBlockPass (d : DSPUtils.DCBlocker.t) (maxSample : float)
         (channelData : list float)
  : DSPUtils.DCBlocker.t * float * list float :=
  match channelData with
  | [] => (d, maxSample, [])
  | x :: rest =>
      let '(d, y) := DSPUtils.DCBlocker.process x d in
      let maxSample := Qmax maxSample (Qabs y) in
      let '(d, maxSample, ys) := dcBlockPass d maxSample rest in
      (d, maxSample, y :: ys)
  end.

(** The loop over the channels around it: one blocker and one maximum
    serve all channels. *)
Fixpoint dcBlockChannels (d : DSPUtils.DCBlocker.t) (maxSample : float)
         (chans : list (list float))
  : DSPUtils.DCBlocker.t * float * list (list float) :=
  match chans with
  | [] => (d, maxSample, [])
  | c :: rest =>
      let '(d, maxSample, c') := dcBlockPass d maxSample c in
      let '(d, maxSample, rest') := dcBlockChannels d maxSample rest in
      (d, maxSample, c' :: rest')
  end.

Definition applyFades (s : t) : t :=
  let n := AudioBuffer.getNumSamples (fileBuffer s) in
  if (n <? 100)%nat then s
  else
    let fadeLength := Nat.min 1000 (n / 10) in
    with_fileBuffer
      (for_loop fadeLength
         (fun i buf =>
            let gain := inject_Z (Z.of_nat i) / inject_Z (Z.of_nat fadeLength) in
            let smoothGain := gain * gain * (3 - 2 * gain) in
            for_loop (AudioBuffer.getNumChannels buf)
              (fun channel buf =>
                 let buf := AudioBuffer.scaleSample channel i smoothGain buf in
                 AudioBuffer.scaleSample channel (n - 1 - i) smoothGain buf)
              buf)
         (fileBuffer s))
      s.

(** [setSize] followed by [reader->read]: the decoded samples, in the
    shape the reader announces. *)
Definition readInto (r : AudioFormatReader) : AudioBuffer.t :=
  {| AudioBuffer.numSamples := lengthInSamples r;
     AudioBuffer.channels :=
       map (resize (lengthInSamples r) 0) (resize (numChannels r) [] (decoded r)) |}.

(** [loadFile]: the argument is the reader [createReaderFor] returned,
    [None] for a null pointer. *)
Definition loadFile (file : option AudioFormatReader) (s : t) : t :=
  let s := with_reader file s in
  match file with
  | None => s
  | Some r =>
      let s := with_fileBuffer (readInto r) s in
      let s := with_fileSampleRate (sampleRate r) s in
      let s := with_sampleRateRatio (currentSampleRate s / fileSampleRate s) s in
      let '(_, maxSample, chans) :=
        dcBlockChannels DSPUtils.DCBlocker.init 0
                        (AudioBuffer.channels (fileBuffer s)) in
      let s := with_fileBuffer
                 {| AudioBuffer.numSamples := AudioBuffer.numSamples (fileBuffer s);
                    AudioBuffer.channels := chans |} s in
      let s :=
        if Qgtb maxSample 0
        then let scale := 0.95 / maxSample in
             with_fileBuffer (AudioBuffer.applyGain scale (fileBuffer s)) s
        else s in
      applyFades s
  end.

Definition releaseResources (s : t) : t :=
  let s := with_reader None s in
  let s := with_fileBuffer (AudioBuffer.clear (fileBuffer s)) s in
  with_voices
    (map (fun voice =>
            Voice.with_lastOutputSample 0
              (Voice.with_grains [] (Voice.with_isActive false voice)))
         (voices s))
    s.

(** *** Voices *)

(** [findFreeVoice]: the index of the first inactive voice; [None] is the
    [-1] of the source. *)
Fixpoint findFreeFrom (i : nat) (vs : list Voice.t) : option nat :=
  match vs with
  | [] => None
  | v :: rest => if negb (Voice.isActive v) then Some i
                 else findFreeFrom (S i) rest
  end.

Definition findFreeVoice (s : t) : option nat := findFreeFrom 0 (voices s).

(** The search of [startVoice] in OneShot mode: the first voice whose
    envelope is Idle. *)
Fixpoint findIdleFrom (i : nat) (vs : list Voice.t) : option nat :=
  match vs with
  | [] => None
  | v :: rest =>
      if Envelope.State_eqb (Envelope.state (Voice.envelope v)) Envelope.Idle
      then Some i
      else findIdleFrom (S i) rest
  end.

(** The scan of [stealVoice]: the pair is [(stealIndex, lowestLevel)]. *)
Definition stealScan (vs : list Voice.t) : nat * float :=
  for_loop (length vs)
    (fun i '(stealIndex, lowestLevel) =>
       match vs !! i with
       | Some v =>
           if Qltb (Envelope.currentLevel (Voice.envelope v)) lowestLevel
           then (i, Envelope.currentLevel (Voice.envelope v))
           else (stealIndex, lowestLevel)
       | None => (stealIndex, lowestLevel)
       end)
    (0%nat, FLT_MAX).

Definition stealVoice (s : t) : t :=
  let stealIndex := fst (stealScan (voices s)) in
  with_voices (alter Voice.reset stealIndex (voices s)) s.

Definition stopVoice (midiNoteNumber : Z) (s : t) : t :=
  if PlaybackMode_eqb (playbackMode s) Polyphonic
  then with_voices
         (map (fun voice =>
                 if (Voice.isActive voice
                     && (Voice.midiNote voice =? midiNoteNumber)%Z)%bool
                 then Voice.with_envelope
                        (Envelope.noteOff (Voice.envelope voice)) voice
                 else voice)
              (voices s))
         s
  else s.

(** The grain that [updateGrains] creates for a voice. *)
Definition newGrain (s : t) (voice : Voice.t) : Grain.t :=
  let grainLength := Voice.grainDuration voice * currentSampleRate s in
  {| Grain.startPosition := Voice.position voice;
     Grain.currentPosition := Voice.position voice;
     Grain.grainLength := grainLength;
     Grain.age := 0;
     Grain.isActive := true;
     Grain.phase := 0;
     Grain.initialPhase := fmod (Voice.position voice) (2 * M_PI);
     Grain.phaseIncrement := 2 * M_PI * Voice.pitchRatio voice / grainLength |}.

(** The first two steps of [updateGrains]: the inactive grains are erased,
    and a new grain is appended when none is left or the last one has
    reached the overlap. *)
Definition refreshGrains (s : t) (voice : Voice.t) : Voice.t :=
  let gs := List.filter Grain.isActive (Voice.grains voice) in
  let needed :=
    match last gs with
    | None => true
    | Some back => Qgeb (Grain.phase back) (Voice.grainOverlap voice)
    end in
  Voice.with_grains (if needed then gs ++ [newGrain s voice] else gs) voice.

(** [updateGrains (voice)], with [voice] the pool entry at index [i]. *)
Definition updateGrains (i : nat) (s : t) : t :=
  match voices s !! i with
  | None => s
  | Some voice =>
      let voice := refreshGrains s voice in
      let s := setVoice i voice s in
      (* update the voice position *)
      if negb (isHoldMode s) then
        let voice :=
          Voice.with_position
            (Voice.position voice + Voice.pitchRatio voice * playbackSpeed s)
            voice in
        let s := setVoice i voice s in
        if (isLooping s && Qgeb (Voice.position voice) (numSamplesQ s))%bool
        then setVoice i (Voice.with_position 0 voice) s
        else if (negb (isLooping s)
                 && Qgeb (Voice.position voice) (numSamplesQ s))%bool
        then stopVoice (Voice.midiNote voice) s
        else s
      else s
  end.

Definition setHoldMode (shouldHold : bool) (s : t) : t :=
  let s := with_isHoldMode shouldHold s in
  if shouldHold then
    match List.find Voice.isActive (voices s) with
    | Some voice => with_holdPosition (Voice.position voice) s
    | None => s
    end
  else s.

Definition setHoldPosition (normalizedPosition : double) (s : t) : t :=
  if (0 <? AudioBuffer.getNumSamples (fileBuffer s))%nat then
    let s := with_holdPosition (normalizedPosition * numSamplesQ s) s in
    if isHoldMode s then
      with_voices
        (map (fun voice =>
                if Voice.isActive voice
                then Voice.with_position (holdPosition s) voice
                else voice)
             (voices s))
        s
    else s
  else s.

Definition getHoldPosition (s : t) : double :=
  if (0 <? AudioBuffer.getNumSamples (fileBuffer s))%nat
  then holdPosition s / numSamplesQ s
  else 0.

Definition getCurrentPosition (s : t) : double :=
  match List.find Voice.isActive (voices s) with
  | Some voice =>
      Voice.position voice
      / (if (0 <? AudioBuffer.getNumSamples (fileBuffer s))%nat
         then numSamplesQ s else 1)
  | None => 0
  end.

Section WithLibm.
Context (M : Libm).

Definition prepareToPlay (sampleRate : double) (samplesPerBlock : nat)
           (s : t) : t :=
  let s := with_currentSampleRate sampleRate s in
  let s := with_sampleRateRatio (currentSampleRate s / fileSampleRate s) s in
  let s := with_tempBuffer (AudioBuffer.setSize 2 samplesPerBlock) s in
  let s := with_outputLimiter
             (DSPUtils.PeakLimiter.prepare M sampleRate (outputLimiter s)) s in
  with_voices
    (map (fun voice =>
            let voice := Voice.prepare M sampleRate voice in
            Voice.with_envelope
              (Envelope.setParameters 0.01 0.1 0.7 0.2 sampleRate
                 (Voice.envelope voice))
              voice)
         (voices s))
    s.

(** The acquisition part of [startVoice]: the engine after a possible
    steal, and [voiceIndex]. *)
Definition acquireVoice (s : t) : t * option nat :=
  match findFreeVoice s with
  | Some k => (s, Some k)
  | None =>
      let voiceIndex :=
        if PlaybackMode_eqb (playbackMode s) OneShot
        then findIdleFrom 0 (voices s)
        else None in
      match voiceIndex with
      | Some k => (s, Some k)
      | None => let s := stealVoice s in (s, findFreeVoice s)
      end
  end.

(** The body of [if (voiceIndex != -1)] in [startVoice], on the voice
    found. *)
Definition claimVoice (s : t) (midiNoteNumber : Z) (velocity : float)
           (voice : Voice.t) : Voice.t :=
  let voice := Voice.reset voice in
  let voice := Voice.with_isActive true voice in
  let voice := Voice.with_midiNote midiNoteNumber voice in
  let voice := Voice.with_velocity velocity voice in
  let voice := Voice.with_position
                 (if isHoldMode s then holdPosition s else 0) voice in
  let noteRatio := pow M 2 (inject_Z (midiNoteNumber - 60) / 12) in
  let voice := Voice.with_pitchRatio noteRatio voice in
  let voice :=
    if (PlaybackMode_eqb (playbackMode s) OneShot
        || PlaybackMode_eqb (playbackMode s) Monophonic)%bool
    then Voice.with_envelope
           (Envelope.with_releaseTime 0.5
              (Envelope.with_sustainLevel 1 (Voice.envelope voice)))
           voice
    else voice in
  Voice.with_envelope (Envelope.noteOn (Voice.envelope voice)) voice.

Definition startVoice (midiNoteNumber : Z) (velocity : float) (s : t) : t :=
  let '(s, voiceIndex) := acquireVoice s in
  match voiceIndex with
  | Some k =>
      with_voices
        (alter (claimVoice s midiNoteNumber velocity) k (voices s)) s
  | None => s
  end.

(** *** Block processing *)

(** The loop over the grains of a voice for one output sample: the
    grains as updated in place and the accumulated [sampleValue]. *)
Fixpoint processGrains (s : t) (voice : Voice.t) (gs : list Grain.t)
         (sampleValue : float) : list Grain.t * float :=
  match gs with
  | [] => ([], sampleValue)
  | grain :: rest =>
      if negb (Grain.isActive grain) then
        let '(rest, sampleValue) := processGrains s voice rest sampleValue in
        (grain :: rest, sampleValue)
      else
        let phase := Grain.age grain / Grain.grainLength grain in
        let windowGain :=
          DSPUtils.GrainWindow.getGainAt M phase (Voice.grainOverlap voice) in
        let interpolatedSample :=
          DSPUtils.Resampler.resample M
            (AudioBuffer.getReadPointer (fileBuffer s) 0)
            (Grain.currentPosition grain)
            (Z.of_nat (AudioBuffer.getNumSamples (fileBuffer s))) in
        let phaseAlignedSample :=
          interpolatedSample
          * cos M (Grain.initialPhase grain
                   + Grain.phaseIncrement grain * Grain.age grain) in
        let sampleValue := sampleValue + phaseAlignedSample * windowGain in
        let currentPosition :=
          Grain.currentPosition grain
          + Voice.pitchRatio voice * playbackSpeed s in
        let age := Grain.age grain + 1 in
        let grain :=
          {| Grain.startPosition := Grain.startPosition grain;
             Grain.currentPosition := currentPosition;
             Grain.grainLength := Grain.grainLength grain;
             Grain.age := age;
             Grain.isActive :=
               if Qgeb age (Grain.grainLength grain) then false
               else Grain.isActive grain;
             Grain.phase := phase;
             Grain.initialPhase := Grain.initialPhase grain;
             Grain.phaseIncrement := Grain.phaseIncrement grain |} in
        let '(rest, sampleValue) := processGrains s voice rest sampleValue in
        (grain :: rest, sampleValue)
  end.

(** One iteration of the sample loop of [processBlock] for the voice at
    index [i]; the engine is paired with [maxLevel]. *)
Definition processVoiceSample (i sample : nat) (st : t * float) : t * float :=
  let '(s, maxLevel) := st in
  match voices s !! i with
  | None => st
  | Some voice =>
      let '(gs, sampleValue) := processGrains s voice (Voice.grains voice) 0 in
      let voice := Voice.with_grains gs voice in
      (* voice processing chain *)
      let '(voice, sampleValue) :=
        if Qgtb (Voice.pitchRatio voice) 1 then
          let cutoff := Qmin 20000 (20000 / Voice.pitchRatio voice) in
          let f := DSPUtils.ButterworthFilter.setCutoff M cutoff
                     (Voice.antiAliasFilter voice) in
          let '(f, out) := DSPUtils.ButterworthFilter.process sampleValue f in
          (Voice.with_antiAliasFilter f voice, out)
        else (voice, sampleValue) in
      let '(d, sampleValue) :=
        DSPUtils.DCBlocker.process sampleValue (Voice.dcBlocker voice) in
      let voice := Voice.with_dcBlocker d voice in
      let '(c, sampleValue) :=
        DSPUtils.SoftClipper.process M sampleValue (Voice.softClipper voice) in
      let voice := Voice.with_softClipper c voice in
      (* envelope *)
      let '(e, envelopeGain) := Envelope.process (Voice.envelope voice) in
      let voice := Voice.with_envelope e voice in
      let sampleValue := sampleValue * (envelopeGain * Voice.velocity voice) in
      (* add to the temp buffer *)
      let temp :=
        for_loop (AudioBuffer.getNumChannels (tempBuffer s))
          (fun channel temp => AudioBuffer.addSample channel sample sampleValue temp)
          (tempBuffer s) in
      let maxLevel := Qmax maxLevel (Qabs sampleValue) in
      let s := setVoice i voice (with_tempBuffer temp s) in
      (updateGrains i s, maxLevel)
  end.

(** The loop over the pool: a voice found inactive is skipped, an active
    one runs the whole sample loop. *)
Definition processVoices (numSamples : nat) (st : t * float) : t * float :=
  for_loop (length (voices (fst st)))
    (fun i st =>
       match voices (fst st) !! i with
       | Some voice =>
           if negb (Voice.isActive voice) then st
           else for_loop numSamples (processVoiceSample i) st
       | None => st
       end)
    st.

(** The final output loop: every channel of [buffer] is written from
    the same channel of the temp buffer through the one limiter. *)
Definition limitOutput (startSample numSamples : nat) (temp : AudioBuffer.t)
           (st : DSPUtils.PeakLimiter.t * AudioBuffer.t)
  : DSPUtils.PeakLimiter.t * AudioBuffer.t :=
  for_loop (AudioBuffer.getNumChannels (snd st))
    (fun channel st =>
       let tempData := AudioBuffer.getReadPointer temp channel in
       for_loop numSamples
         (fun sample '(l, buffer) =>
            let '(l, out) :=
              DSPUtils.PeakLimiter.process (nth sample tempData 0) l in
            (l, AudioBuffer.setSample channel (startSample + sample) out buffer))
         st)
    st.

(** [processBlock (buffer, startSample, numSamples)]: the engine and the
    caller's buffer after the call. *)
Definition processBlock (buffer : AudioBuffer.t) (startSample numSamples : nat)
           (s : t) : t * AudioBuffer.t :=
  if ((AudioBuffer.getNumSamples (fileBuffer s) =? 0)%nat
      || negb (isEnabled s))%bool
  then (s, buffer)
  else
    let buffer := AudioBuffer.clearRegion startSample numSamples buffer in
    let s := with_tempBuffer (AudioBuffer.clear (tempBuffer s)) s in
    let '(s, maxLevel) := processVoices numSamples (s, 0) in
    let '(l, buffer) :=
      limitOutput startSample numSamples (tempBuffer s)
                  (outputLimiter s, buffer) in
    let s := with_outputLimiter l s in
    (with_currentLevel maxLevel s, buffer).

Definition stopAllVoices (s : t) : t :=
  let s :=
    with_voices
      (map (fun voice =>
              if Voice.isActive voice then
                let e := Envelope.with_releaseTime 0.02 (Voice.envelope voice) in
                let voice := Voice.with_envelope (Envelope.noteOff e) voice in
                let voice := Voice.with_grains [] voice in
                Voice.reset voice
              else voice)
           (voices s))
      s in
  (* one block into a local buffer; only the engine keeps its effects *)
  let tempBuffer := AudioBuffer.clear (AudioBuffer.setSize 2 512) in
  fst (processBlock tempBuffer 0 (AudioBuffer.getNumSamples tempBuffer) s).

Definition handleMidiMessage (message : MidiMessage) (s : t) : t :=
  if (AudioBuffer.getNumSamples (fileBuffer s) =? 0)%nat then s
  else
    match message with
    | NoteOn noteNumber floatVelocity =>
        match playbackMode s with
        | Polyphonic => startVoice noteNumber floatVelocity s
        | Monophonic => startVoice noteNumber floatVelocity (stopAllVoices s)
        | OneShot => startVoice noteNumber floatVelocity s
        end
    | NoteOff noteNumber =>
        if PlaybackMode_eqb (playbackMode s) Polyphonic
        then stopVoice noteNumber s
        else s
    | OtherMessage => s
    end.

End WithLibm.

End SamplePlayer.

(** * The vocabulary of the properties *)

(** ** Interleaved calls on an envelope *)

Module EnvelopeSpec.
Import Envelope.

(** The calls a client can make on an envelope. *)
Inductive Call := CallNoteOn | CallNoteOff | CallProcess.

(** An interleaving of calls on an envelope: the envelope afterwards and
    the levels that the [process] calls returned, in call order. *)
Fixpoint run (calls : list Call) (e : t) : t * list float :=
  match calls with
  | [] => (e, [])
  | CallNoteOn :: rest => run rest (noteOn e)
  | CallNoteOff :: rest => run rest (noteOff e)
  | CallProcess :: rest =>
      let '(e, level) := process e in
      let '(e, levels) := run rest e in
      (e, level :: levels)
  end.

(** The time constants that the claims about levels assume. *)
Definition sane (e : t) : Prop :=
  0 < attackTime e /\ 0 < decayTime e /\ 0 < releaseTime e
  /\ 0 <= sustainLevel e <= 1 /\ 0 < sampleRate e.

(** In the timed stages the stage clock has not run backwards. *)
Definition clock_ok (e : t) : Prop :=
  match state e with
  | Attack | Decay | Release => 0 <= currentTime e
  | Sustain | Idle => True
  end.

(** What the calls maintain of the level: it lies in [[0, 1]], and it is 0
    in the Idle state. *)
Definition settled (e : t) : Prop :=
  0 <= currentLevel e <= 1 /\ (state e = Idle -> currentLevel e == 0).

End EnvelopeSpec.

(** ** Predicates *)

(** The target range of a buffer is silent. *)
Definition range_silent (startSample numSamples : nat) (b : AudioBuffer.t) : Prop :=
  forall channel i,
    (channel < AudioBuffer.getNumChannels b)%nat ->
    (startSample <= i < startSample + numSamples)%nat ->
    AudioBuffer.getSample b channel i == 0.

(** [voices[i]], for an index within the pool. *)
Definition voiceAt (i : nat) (s : SamplePlayer.t) : Voice.t :=
  nth i (SamplePlayer.voices s) Voice.init.

(** Where the voice at index [i] would stand after its next advance. *)
Definition advanced (voice : Voice.t) (s : SamplePlayer.t) : double :=
  Voice.position voice + Voice.pitchRatio voice * SamplePlayer.playbackSpeed s.

(** The wrap as C2 words it: the voice lands on its advanced position less
    the buffer length. *)
Definition wraps_by_length (i : nat) (s : SamplePlayer.t) : Prop :=
  forall voice, SamplePlayer.voices s !! i = Some voice ->
  exists voice', SamplePlayer.voices (SamplePlayer.updateGrains i s) !! i = Some voice'
    /\ Voice.position voice' == advanced voice s - SamplePlayer.numSamplesQ s.

(** The end of playback as C3 words it: the voice is inactive, its envelope
    in Release, its grains gone. *)
Definition deactivated_at_end (i : nat) (s : SamplePlayer.t) : Prop :=
  exists voice', SamplePlayer.voices (SamplePlayer.updateGrains i s) !! i = Some voice'
    /\ Voice.isActive voice' = false
    /\ Envelope.state (Voice.envelope voice') = Envelope.Release
    /\ Voice.grains voice' = [].

(** The voice that [stopVoice] leaves for [voice] in Polyphonic mode. *)
Definition released (midiNoteNumber : Z) (voice : Voice.t) : Voice.t :=
  if (Voice.isActive voice && (Voice.midiNote voice =? midiNoteNumber)%Z)%bool
  then Voice.with_envelope (Envelope.noteOff (Voice.envelope voice)) voice
  else voice.

(** Every sample of every channel is at most [B] in absolute value. *)
Definition peak_within (B : Q) (b : AudioBuffer.t) : Prop :=
  Forall (Forall (fun x => Qabs x <= B)) (AudioBuffer.channels b).


(** The envelope level of a voice, the quantity [stealVoice] compares. *)
Definition level (v : Voice.t) : float :=
  Envelope.currentLevel (Voice.envelope v).

(** The envelope of a voice is settled: its level lies in [[0, 1]], and it
    is 0 when the envelope is Idle. *)
Definition envelope_settled (v : Voice.t) : Prop :=
  0 <= level v <= 1
  /\ (Envelope.state (Voice.envelope v) = Envelope.Idle -> level v == 0).

Definition distinct_levels (vs : list Voice.t) : Prop :=
  forall i j vi vj,
    vs !! i = Some vi -> vs !! j = Some vj -> i <> j -> ~ level vi == level vj.

(** The voice at index [k] is strictly quieter than every other voice. *)
Definition quietest (vs : list Voice.t) (k : nat) (quiet : Voice.t) : Prop :=
  vs !! k = Some quiet
  /\ forall j v, vs !! j = Some v -> j <> k -> level quiet < level v.

(** The invariant of the scan of [stealVoice] after [n] voices. *)
Definition scanned (vs : list Voice.t) (n : nat) (st : nat * float) : Prop :=
  match n with
  | O => st = (0%nat, FLT_MAX)
  | S _ =>
      exists v, (fst st < n)%nat /\ vs !! fst st = Some v /\ snd st = level v
        /\ forall j w, (j < n)%nat -> j <> fst st -> vs !! j = Some w ->
             snd st < level w
  end.

(** A decision procedure for [distinct_levels], to check concrete pools. *)
Fixpoint pairwise_distinctb (l : list Q) : bool :=
  match l with
  | [] => true
  | x :: rest => forallb (fun y => negb (Qeq_bool x y)) rest && pairwise_distinctb rest
  end.

(** The calls of the public interface of [SamplePlayer]. *)
Inductive ApiCall :=
| CallLoadFile (file : option AudioFormatReader)
| CallPrepareToPlay (sampleRate : double) (samplesPerBlock : nat)
| CallReleaseResources
| CallProcessBlock (buffer : AudioBuffer.t) (startSample numSamples : nat)
| CallHandleMidiMessage (message : MidiMessage)
| CallSetPlaybackSpeed (speed : float)
| CallSetLooping (shouldLoop : bool)
| CallSetHoldMode (shouldHold : bool)
| CallSetHoldPosition (normalizedPosition : double)
| CallSetEnabled (shouldBeEnabled : bool)
| CallSetPlaybackMode (mode : SamplePlayer.PlaybackMode)
| CallStopAllVoices.

Definition call (M : Libm) (c : ApiCall) (s : SamplePlayer.t) : SamplePlayer.t :=
  match c with
  | CallLoadFile file => SamplePlayer.loadFile file s
  | CallPrepareToPlay sampleRate samplesPerBlock =>
      SamplePlayer.prepareToPlay M sampleRate samplesPerBlock s
  | CallReleaseResources => SamplePlayer.releaseResources s
  | CallProcessBlock buffer startSample numSamples =>
      fst (SamplePlayer.processBlock M buffer startSample numSamples s)
  | CallHandleMidiMessage message => SamplePlayer.handleMidiMessage M message s
  | CallSetPlaybackSpeed speed => SamplePlayer.setPlaybackSpeed speed s
  | CallSetLooping shouldLoop => SamplePlayer.setLooping shouldLoop s
  | CallSetHoldMode shouldHold => SamplePlayer.setHoldMode shouldHold s
  | CallSetHoldPosition normalizedPosition =>
      SamplePlayer.setHoldPosition normalizedPosition s
  | CallSetEnabled shouldBeEnabled => SamplePlayer.setEnabled shouldBeEnabled s
  | CallSetPlaybackMode mode => SamplePlayer.setPlaybackMode mode s
  | CallStopAllVoices => SamplePlayer.stopAllVoices M s
  end.

(** The engine after a sequence of calls on a freshly constructed one. *)
Definition after (M : Libm) (calls : list ApiCall) : SamplePlayer.t :=
  fold_left (fun s c => call M c s) calls SamplePlayer.construct.

Definition reachable (M : Libm) (s : SamplePlayer.t) : Prop :=
  exists calls, s = after M calls.

(** ** Concrete inputs *)

(** A math library to run the engine on concrete inputs.  [pow] is exact at
    integer exponents and interpolates in between; the other functions are
    exact at [0] and low-order approximations elsewhere.  The theorems below
    quantify over every [Libm]; this one only instantiates them. *)
Definition pow_ref (b e : Q) : Q :=
  let k := Qfloor e in
  Qred (Qpower b k * (1 + (e - inject_Z k) * (b - 1))).

Definition libm_ref : Libm :=
  {| cos := fun x => Qred (1 - x * x / 2);
     sin := fun x => Qred (x - x * x * x / 6);
     tanh := fun x => Qred (x / (1 + Qabs x));
     exp := fun x => Qred (1 + x + x * x / 2);
     pow := pow_ref |}.

(** A four-sample mono file. *)
Definition demo_reader : AudioFormatReader :=
  {| numChannels := 1; lengthInSamples := 4; sampleRate := 44100;
     decoded := [[0.5; -0.25; 0.125; 0.25]] |}.

(** The engine after [prepareToPlay (44100, 8)] and after loading the file. *)
Definition demo_prepared : SamplePlayer.t :=
  SamplePlayer.prepareToPlay libm_ref 44100 8 SamplePlayer.construct.

Definition demo_loaded : SamplePlayer.t :=
  SamplePlayer.loadFile (Some demo_reader) demo_prepared.

(** Middle C is struck at full velocity. *)
Definition demo_playing : SamplePlayer.t :=
  SamplePlayer.handleMidiMessage libm_ref (NoteOn 60 1) demo_loaded.

(** A stereo block of eight samples holding [1] everywhere. *)
Definition demo_block : AudioBuffer.t :=
  {| AudioBuffer.numSamples := 8;
     AudioBuffer.channels := replicate 2 (replicate 8 1) |}.

(** An envelope caught in its release stage at level one half. *)
Definition demo_releasing : Envelope.t :=
  Envelope.with_currentLevel 0.5 (Envelope.with_state Envelope.Release Envelope.init).

(** The C above middle C is struck: the voice plays at pitch ratio 2. *)
Definition demo_octave : SamplePlayer.t :=
  SamplePlayer.handleMidiMessage libm_ref (NoteOn 72 1) demo_loaded.

(** Looped playback at speed 2.25: the next advance of the voice is by 4.5
    samples, past the end of the four-sample file. *)
Definition demo_looping : SamplePlayer.t :=
  SamplePlayer.setPlaybackSpeed 2.25 (SamplePlayer.setLooping true demo_octave).

(** Unlooped playback at speed 2, in Polyphonic and in OneShot mode: the
    next advance of the voice is by 4 samples, onto the end of the file. *)
Definition demo_near_end : SamplePlayer.t :=
  SamplePlayer.setPlaybackSpeed 2 demo_octave.

Definition demo_oneshot_near_end : SamplePlayer.t :=
  SamplePlayer.setPlaybackSpeed 2
    (SamplePlayer.handleMidiMessage libm_ref (NoteOn 72 1)
       (SamplePlayer.setPlaybackMode SamplePlayer.OneShot demo_loaded)).


(** A full pool on the loaded engine: sixteen sounding voices on the notes
    from middle C upwards, voice [k] sustaining at level [(k + 1) / 20]. *)
Definition demo_full_pool : SamplePlayer.t :=
  SamplePlayer.with_voices
    (map (fun k =>
            Voice.with_envelope
              (Envelope.with_currentLevel (inject_Z (Z.of_nat (k + 1)) / 20)
                 (Envelope.with_state Envelope.Sustain Envelope.init))
              (Voice.with_midiNote (60 + Z.of_nat k)
                 (Voice.with_isActive true Voice.init)))
         (seq 0 16))
    demo_loaded.

(** The same pool after the mode button is set to Monophonic. *)
Definition demo_full_pool_mono : SamplePlayer.t :=
  SamplePlayer.setPlaybackMode SamplePlayer.Monophonic demo_full_pool.

(** A session: prepare, load the four-sample file, strike middle C, and
    process one block of eight samples. *)
Definition demo_session : list ApiCall :=
  [CallPrepareToPlay 44100 8;
   CallLoadFile (Some demo_reader);
   CallHandleMidiMessage (NoteOn 60 1);
   CallProcessBlock demo_block 0 8].

(** ** Vocabulary of the further properties *)

(** The DC blocker fed a sequence of samples: the blocker afterwards and
    its outputs, in order. *)
Fixpoint dcBlocker_feed (xs : list float) (d : DSPUtils.DCBlocker.t)
  : DSPUtils.DCBlocker.t * list float :=
  match xs with
  | [] => (d, [])
  | x :: rest =>
      let '(d, y) := DSPUtils.DCBlocker.process x d in
      let '(d, ys) := dcBlocker_feed rest d in
      (d, y :: ys)
  end.

(** Every channel of a buffer holds [numSamples] samples. *)
Definition rectangular (b : AudioBuffer.t) : Prop :=
  Forall (fun c => length c = AudioBuffer.numSamples b) (AudioBuffer.channels b).

(** The fade curve of [applyFades] at step [i] of [fadeLength]. *)
Definition smoothGain (fadeLength i : nat) : Q :=
  let gain := inject_Z (Z.of_nat i) / inject_Z (Z.of_nat fadeLength) in
  gain * gain * (3 - 2 * gain).

(** The gain that the first [k] steps of the fade loop have put on sample
    [j] of a channel of [n] samples: the fade-in factor, times the fade-out
    factor. *)
Definition fadeGainUpTo (fadeLength n k j : nat) : Q :=
  (if (j <? k)%nat then smoothGain fadeLength j else 1)
  * (if ((n - k <=? j)%nat && (j <? n)%nat)%bool
     then smoothGain fadeLength (n - 1 - j) else 1).

(** The gain of the whole of [applyFades] on sample [j] of a channel of [n]
    samples. *)
Definition fadeGain (n j : nat) : Q :=
  if (n <? 100)%nat then 1
  else fadeGainUpTo (Nat.min 1000 (n / 10)) n (Nat.min 1000 (n / 10)) j.

(** The shape of a buffer: its announced size and the true length of each
    channel. *)
Definition shape (b : AudioBuffer.t) : nat * list nat :=
  (AudioBuffer.numSamples b, map length (AudioBuffer.channels b)).

(** A file of [n] samples on one channel that holds [x] everywhere. *)
Definition constant_file (n : nat) (x : float) : AudioFormatReader :=
  {| numChannels := 1; lengthInSamples := n; sampleRate := 44100;
     decoded := [replicate n x] |}.

(** A mono buffer of 100 samples that holds [1] everywhere, on a fresh
    engine. *)
Definition demo_unfaded : SamplePlayer.t :=
  SamplePlayer.with_fileBuffer
    {| AudioBuffer.numSamples := 100; AudioBuffer.channels := [replicate 100 1] |}
    SamplePlayer.construct.

(** ** The editor's use of the engine ([PluginEditor.cpp]) *)

Module PluginEditor.

(** The branch of [buttonClicked] for the hold button, with the toggle
    state of the button as argument. *)
Definition holdButtonClicked (shouldHold : bool) (s : SamplePlayer.t)
  : SamplePlayer.t :=
  let s := SamplePlayer.setHoldMode shouldHold s in
  if shouldHold then
    let currentPos := SamplePlayer.getCurrentPosition s in
    SamplePlayer.setHoldPosition currentPos s
  else s.

(** The [onPositionClicked] callback of the waveform display. *)
Definition onPositionClicked (position : double) (s : SamplePlayer.t)
  : SamplePlayer.t :=
  if SamplePlayer.getHoldMode s then SamplePlayer.setHoldPosition position s
  else s.

End PluginEditor.

(** The voice is not sounding. *)
Definition inactive (v : Voice.t) : Prop := Voice.isActive v = false.

(** What the loop of [stopAllVoices] leaves of a voice. *)
Definition halted (voice : Voice.t) : Voice.t :=
  if Voice.isActive voice
  then Voice.reset
         (Voice.with_grains []
            (Voice.with_envelope
               (Envelope.noteOff
                  (Envelope.with_releaseTime 0.02 (Voice.envelope voice)))
               voice))
  else voice.

(** The playing engine switched to Monophonic mode. *)
Definition demo_mono : SamplePlayer.t :=
  SamplePlayer.setPlaybackMode SamplePlayer.Monophonic demo_playing.

(** ** The processor around the engine ([PluginProcessor.cpp]) *)

Module PluginProcessor.

(** [buffer.clear (channel, startSample, numSamples)]. *)
Definition clearChannel (channel startSample num : nat) (b : AudioBuffer.t)
  : AudioBuffer.t :=
  {| AudioBuffer.numSamples := AudioBuffer.numSamples b;
     AudioBuffer.channels :=
       alter (fun c => for_loop num (fun i c => <[(startSample + i)%nat := 0]> c) c)
             channel (AudioBuffer.channels b) |}.

Section WithLibm.
Context (M : Libm).

(** [processBlock (buffer, midiMessages)], with the channel counts of the
    bus layout as arguments: the engine and the buffer after the call.  The
    update of the editor at the end reads the engine only. *)
Definition processBlock (totalNumInputChannels totalNumOutputChannels : nat)
           (buffer : AudioBuffer.t) (midiMessages : list MidiMessage)
           (samplePlayer : SamplePlayer.t) : SamplePlayer.t * AudioBuffer.t :=
  (* clear any output channels that don't have input data *)
  let buffer :=
    for_loop (totalNumOutputChannels - totalNumInputChannels)
      (fun k buffer =>
         let i := (totalNumInputChannels + k)%nat in
         clearChannel i 0 (AudioBuffer.getNumSamples buffer) buffer)
      buffer in
  let samplePlayer :=
    fold_left (fun samplePlayer message =>
                 SamplePlayer.handleMidiMessage M message samplePlayer)
              midiMessages samplePlayer in
  let '(samplePlayer, buffer) :=
    SamplePlayer.processBlock M buffer 0 (AudioBuffer.getNumSamples buffer)
                              samplePlayer in
  (* make sure all output channels are populated *)
  let buffer :=
    for_loop (totalNumOutputChannels - 1)
      (fun k buffer =>
         let channel := S k in
         for_loop (AudioBuffer.getNumSamples buffer)
           (fun sample buffer =>
              AudioBuffer.setSample channel sample
                (nth sample (AudioBuffer.getReadPointer buffer 0) 0) buffer)
           buffer)
      buffer in
  (samplePlayer, buffer).

End WithLibm.
End PluginProcessor.

(** ** Past the end of the file *)

(** The envelope stands at the start of a release that one sample does not
    finish. *)
Definition release_restarted (e : Envelope.t) : Prop :=
  Envelope.state e = Envelope.Release
  /\ Envelope.currentTime e == 0
  /\ 0 < Envelope.sampleRate e
  /\ 0 < Envelope.releaseTime e
  /\ 0.001 < Envelope.sustainLevel e
             * (1 - (1 / Envelope.sampleRate e) / Envelope.releaseTime e).

(** One sample of a voice past the end: [process] in the sample loop, then
    [noteOff] through [updateGrains] and [stopVoice]. *)
Definition overrun_sample (e : Envelope.t) : Envelope.t :=
  Envelope.noteOff (fst (Envelope.process e)).

(** The voice at index [i] plays in Polyphonic mode, unlooped and not held,
    stands at or past the end of the file, does not move backwards, and its
    envelope is at the start of its release. *)
Definition overrun (i : nat) (s : SamplePlayer.t) : Prop :=
  SamplePlayer.playbackMode s = SamplePlayer.Polyphonic
  /\ SamplePlayer.isLooping s = false
  /\ SamplePlayer.isHoldMode s = false
  /\ exists voice,
       SamplePlayer.voices s !! i = Some voice
       /\ Voice.isActive voice = true
       /\ SamplePlayer.numSamplesQ s <= Voice.position voice
       /\ 0 <= Voice.pitchRatio voice * SamplePlayer.playbackSpeed s
       /\ release_restarted (Voice.envelope voice).

(** The members that decide how a voice advances are the same in both
    engines. *)
Definition same_settings (s s' : SamplePlayer.t) : Prop :=
  SamplePlayer.playbackMode s' = SamplePlayer.playbackMode s
  /\ SamplePlayer.isLooping s' = SamplePlayer.isLooping s
  /\ SamplePlayer.isHoldMode s' = SamplePlayer.isHoldMode s
  /\ SamplePlayer.playbackSpeed s' = SamplePlayer.playbackSpeed s
  /\ SamplePlayer.fileBuffer s' = SamplePlayer.fileBuffer s.

(** The engine right after the voice of [demo_near_end] has stepped onto
    the end of the file. *)
Definition demo_past_end : SamplePlayer.t :=
  SamplePlayer.updateGrains 0 demo_near_end.

(** ** Further vocabulary *)

(** What a voice is assigned to: whether it sounds, on which note and at
    which pitch. *)
Definition assignment (v : Voice.t) : bool * Z * double :=
  (Voice.isActive v, Voice.midiNote v, Voice.pitchRatio v).

(** The delay lines of the filter all hold [c]: a constant input [c] has
    passed through for long enough. *)
Definition settled_on (c : float) (f : DSPUtils.ButterworthFilter.t) : Prop :=
  DSPUtils.at1 (DSPUtils.ButterworthFilter.x f) == c
  /\ DSPUtils.at2 (DSPUtils.ButterworthFilter.x f) == c
  /\ DSPUtils.at1 (DSPUtils.ButterworthFilter.y f) == c
  /\ DSPUtils.at2 (DSPUtils.ButterworthFilter.y f) == c.

(** A filter whose delay lines hold one half. *)
Definition demo_filter : DSPUtils.ButterworthFilter.t :=
  {| DSPUtils.ButterworthFilter.fs := 44100;
     DSPUtils.ButterworthFilter.a := DSPUtils.mk3 1 0 0;
     DSPUtils.ButterworthFilter.b := DSPUtils.mk3 1 0 0;
     DSPUtils.ButterworthFilter.x := DSPUtils.mk3 0 0.5 0.5;
     DSPUtils.ButterworthFilter.y := DSPUtils.mk3 0 0.5 0.5 |}.

(** The envelope of the voice has sound time constants, a clock that has
    not run backwards, and a level in [[0, 1]] that is 0 when Idle. *)
Definition healthy (v : Voice.t) : Prop :=
  EnvelopeSpec.sane (Voice.envelope v)
  /\ EnvelopeSpec.clock_ok (Voice.envelope v)
  /\ EnvelopeSpec.settled (Voice.envelope v).

(** Every [prepareToPlay] of the sequence is given a positive sample rate. *)
Definition positive_rates (calls : list ApiCall) : Prop :=
  Forall (fun c => match c with
                   | CallPrepareToPlay sampleRate _ => 0 < sampleRate
                   | _ => True
                   end) calls.

(** * Rounded arithmetic *)

(** The definitions above compute in exact arithmetic.  Where a property
    depends on the rounding of [float] operations, the functions that decide
    it are given again below with every operation rounded: the exact result
    goes through a rounding function [rnd].  Each operation of the source
    rounds on its own (no fused multiply-add, no excess precision); the
    exponent range of the format, and with it overflow and underflow, is not
    modelled. *)

(** ** Rounding to [float] *)

(** The unit roundoff of binary32: [2^-24], half the gap between 1 and the
    next [float]. *)
Definition unit_roundoff : Q := 1 # 16777216.

(** What the properties use of rounding to nearest: it respects equality
    and order, is symmetric, leaves a [float] and the number 1 as they are,
    and moves a number by at most the unit roundoff, relatively. *)
Definition round_to_nearest (rnd : Q -> Q) : Prop :=
  (forall x y, x == y -> rnd x == rnd y)
  /\ (forall x y, x <= y -> rnd x <= rnd y)
  /\ (forall x, rnd (- x) == - rnd x)
  /\ (forall x, rnd (rnd x) == rnd x)
  /\ rnd 1 == 1
  /\ (forall x, 0 <= x ->
        x * (1 - unit_roundoff) <= rnd x <= x * (1 + unit_roundoff)).

(** The exponent [e] of a positive number: [2^e <= x < 2^(e+1)]. *)
Definition binade (x : Q) : Z :=
  let e := (Z.log2 (Qnum x) - Z.log2 (Zpos (Qden x)))%Z in
  if Qle_bool (Qpower 2 e) x then e else (e - 1)%Z.

(** The integer nearest to [q], the even one of two that are equally
    near. *)
Definition round_half_even (q : Q) : Z :=
  let f := Qfloor q in
  match Qcompare (q - inject_Z f) (1 # 2) with
  | Lt => f
  | Gt => (f + 1)%Z
  | Eq => if Z.even f then f else (f + 1)%Z
  end.

(** A positive number rounded to the nearest number with a significand of
    24 bits, ties to even. *)
Definition round_significand (y : Q) : Q :=
  let ulp := Qpower 2 (binade y - 23) in
  Qred (inject_Z (round_half_even (y / ulp)) * ulp).

(** The rounding of binary32 on its normal range: to the nearest number
    with a significand of 24 bits, ties to even, whatever the exponent. *)
Definition binary32 (x : Q) : Q :=
  match Qcompare x 0 with
  | Eq => 0
  | Gt => round_significand x
  | Lt => - round_significand (- x)
  end.

(** ** The functions with rounded operations *)

Module Rounded.

Module DCBlocker.

Definition R (rnd : Q -> Q) : float := rnd 0.995.

Definition process (rnd : Q -> Q) (input : float) (d : DSPUtils.DCBlocker.t)
  : DSPUtils.DCBlocker.t * float :=
  let output :=
    rnd (rnd (input - DSPUtils.DCBlocker.x1 d)
         + rnd (R rnd * DSPUtils.DCBlocker.y1 d)) in
  ({| DSPUtils.DCBlocker.x1 := input; DSPUtils.DCBlocker.y1 := output |}, output).

End DCBlocker.

Module Envelope.
Import Envelope.

(** [process ()] in [float] arithmetic. *)
Definition process (rnd : Q -> Q) (e : t) : t * float :=
  let timeInc := rnd (1 / sampleRate e) in
  let e' :=
    match state e with
    | Attack =>
        let e := with_currentTime (rnd (currentTime e + timeInc)) e in
        let e := with_currentLevel (rnd (currentTime e / attackTime e)) e in
        if Qgeb (currentLevel e) 1
        then with_currentTime 0 (with_state Decay (with_currentLevel 1 e))
        else e
    | Decay =>
        let e := with_currentTime (rnd (currentTime e + timeInc)) e in
        let e := with_currentLevel
                   (rnd (1 - rnd (rnd (1 - sustainLevel e)
                                  * rnd (currentTime e / decayTime e)))) e in
        if Qle_bool (currentLevel e) (sustainLevel e)
        then with_state Sustain (with_currentLevel (sustainLevel e) e)
        else e
    | Sustain => with_currentLevel (sustainLevel e) e
    | Release =>
        let e := with_currentTime (rnd (currentTime e + timeInc)) e in
        let e := with_currentLevel
                   (rnd (sustainLevel e
                         * rnd (1 - rnd (currentTime e / releaseTime e)))) e in
        if Qle_bool (currentLevel e) (rnd 0.001)
        then with_state Idle (with_currentLevel 0 e)
        else e
    | Idle => with_currentLevel 0 e
    end in
  (e', currentLevel e').

End Envelope.

Module SamplePlayer.
Import SamplePlayer.

Fixpoint dcBlockPass (rnd : Q -> Q) (d : DSPUtils.DCBlocker.t) (maxSample : float)
         (channelData : list float)
  : DSPUtils.DCBlocker.t * float * list float :=
  match channelData with
  | [] => (d, maxSample, [])
  | x :: rest =>
      let '(d, y) := DCBlocker.process rnd x d in
      let maxSample := Qmax maxSample (Qabs y) in
      let '(d, maxSample, ys) := dcBlockPass rnd d maxSample rest in
      (d, maxSample, y :: ys)
  end.

Fixpoint dcBlockChannels (rnd : Q -> Q) (d : DSPUtils.DCBlocker.t)
         (maxSample : float) (chans : list (list float))
  : DSPUtils.DCBlocker.t * float * list (list float) :=
  match chans with
  | [] => (d, maxSample, [])
  | c :: rest =>
      let '(d, maxSample, c') := dcBlockPass rnd d maxSample c in
      let '(d, maxSample, rest') := dcBlockChannels rnd d maxSample rest in
      (d, maxSample, c' :: rest')
  end.

(** [data[i] *= g] in [float] arithmetic. *)
Definition scaleSample (rnd : Q -> Q) (channel i : nat) (g : float)
           (b : AudioBuffer.t) : AudioBuffer.t :=
  {| AudioBuffer.numSamples := AudioBuffer.numSamples b;
     AudioBuffer.channels :=
       alter (alter (fun x => rnd (x * g)) i) channel (AudioBuffer.channels b) |}.

(** [applyGain (gain)] in [float] arithmetic. *)
Definition applyGain (rnd : Q -> Q) (gain : float) (b : AudioBuffer.t)
  : AudioBuffer.t :=
  AudioBuffer.mapChannels (map (fun x => rnd (x * gain))) b.

Definition applyFades (rnd : Q -> Q) (s : t) : t :=
  let n := AudioBuffer.getNumSamples (fileBuffer s) in
  if (n <? 100)%nat then s
  else
    let fadeLength := Nat.min 1000 (n / 10) in
    with_fileBuffer
      (for_loop fadeLength
         (fun i buf =>
            let gain := rnd (inject_Z (Z.of_nat i) / inject_Z (Z.of_nat fadeLength)) in
            let smoothGain := rnd (rnd (gain * gain) * rnd (3 - rnd (2 * gain))) in
            for_loop (AudioBuffer.getNumChannels buf)
              (fun channel buf =>
                 let buf := scaleSample rnd channel i smoothGain buf in
                 scaleSample rnd channel (n - 1 - i) smoothGain buf)
              buf)
         (fileBuffer s))
      s.

(** [loadFile] with the sample data computed in [float] arithmetic; the
    one [double] division, of the two sample rates, is left exact. *)
Definition loadFile (rnd : Q -> Q) (file : option AudioFormatReader) (s : t) : t :=
  let s := with_reader file s in
  match file with
  | None => s
  | Some r =>
      let s := with_fileBuffer (readInto r) s in
      let s := with_fileSampleRate (sampleRate r) s in
      let s := with_sampleRateRatio (currentSampleRate s / fileSampleRate s) s in
      let '(_, maxSample, chans) :=
        dcBlockChannels rnd DSPUtils.DCBlocker.init 0
                        (AudioBuffer.channels (fileBuffer s)) in
      let s := with_fileBuffer
                 {| AudioBuffer.numSamples := AudioBuffer.numSamples (fileBuffer s);
                    AudioBuffer.channels := chans |} s in
      let s :=
        if Qgtb maxSample 0
        then let scale := rnd (rnd 0.95 / maxSample) in
             with_fileBuffer (applyGain rnd scale (fileBuffer s)) s
        else s in
      applyFades rnd s
  end.

End SamplePlayer.
End Rounded.

(** ** Vocabulary and inputs *)

(** The bound that three roundings leave of 0.95. *)
Definition rounded_peak_bound : Q :=
  0.95 * (1 + unit_roundoff) * (1 + unit_roundoff) * (1 + unit_roundoff).

(** A mono file of one sample, 131/256. *)
Definition demo_one_sample : AudioFormatReader :=
  {| numChannels := 1; lengthInSamples := 1; sampleRate := 44100;
     decoded := [[0.51171875]] |}.

(** The envelope after [k] successive [process] calls. *)
Definition process_times (rnd : Q -> Q) (k : nat) (e : Envelope.t) : Envelope.t :=
  Nat.iter k (fun e => fst (Rounded.Envelope.process rnd e)) e.

(** The sample count [k] as a number. *)
Definition samples (k : nat) : Q := inject_Z (Z.of_nat k).

(** What the stage clock of an envelope gains at least with a [process]
    call while it is below [stageTime]: the rounded [timeInc], less the
    rounding of the sum [currentTime + timeInc]. *)
Definition clock_gain (rnd : Q -> Q) (stageTime : float) (e : Envelope.t) : Q :=
  let timeInc := rnd (1 / Envelope.sampleRate e) in
  timeInc - unit_roundoff * (stageTime + timeInc).

(** The envelope of a voice after [prepareToPlay] at 22050 Hz, its
    parameters the [float] literals of the source. *)
Definition demo_envelope : Envelope.t :=
  Envelope.setParameters (binary32 0.01) (binary32 0.1) (binary32 0.7)
    (binary32 0.2) 22050 Envelope.init.

(** * Properties *)

(** ** Comparisons and loops *)

Lemma Qle_bool_false (x y : Q) : Qle_bool x y = false -> y < x.
Proof.
  intros H. apply Qnot_le_lt. intros Hle.
  apply Qle_bool_iff in Hle. congruence.
Qed.

Lemma Qgeb_true (x y : Q) : Qgeb x y = true <-> y <= x.
Proof. unfold Qgeb. apply Qle_bool_iff. Qed.

Lemma Qgeb_false (x y : Q) : Qgeb x y = false -> x < y.
Proof. unfold Qgeb. apply Qle_bool_false. Qed.

Lemma Qltb_true (x y : Q) : Qltb x y = true <-> x < y.
Proof.
  unfold Qltb. split.
  - intros H. apply Qle_bool_false. now apply negb_true_iff in H.
  - intros H. apply negb_true_iff.
    destruct (Qle_bool y x) eqn:E; [|reflexivity].
    apply Qle_bool_iff in E. lra.
Qed.

Lemma Qltb_false (x y : Q) : Qltb x y = false <-> y <= x.
Proof.
  unfold Qltb. rewrite negb_false_iff. apply Qle_bool_iff.
Qed.

Lemma Qgtb_true (x y : Q) : Qgtb x y = true <-> y < x.
Proof. unfold Qgtb. fold (Qltb y x). apply Qltb_true. Qed.

Lemma Qgtb_false (x y : Q) : Qgtb x y = false <-> x <= y.
Proof. unfold Qgtb. fold (Qltb y x). apply Qltb_false. Qed.

Lemma Qdiv_nonneg (x y : Q) : 0 <= x -> 0 < y -> 0 <= x / y.
Proof. intros Hx Hy. apply Qle_shift_div_l; [assumption | lra]. Qed.

Lemma for_loop_S {S : Type} (n : nat) (body : nat -> S -> S) (s : S) :
  for_loop (Datatypes.S n) body s = body n (for_loop n body s).
Proof.
  unfold for_loop. rewrite seq_S, fold_left_app. reflexivity.
Qed.

(** The loop-invariant rule for [for_loop]. *)
Lemma for_loop_ind {S : Type} (P : nat -> S -> Prop) (n : nat)
      (body : nat -> S -> S) (s : S) :
  P 0%nat s ->
  (forall i acc, (i < n)%nat -> P i acc -> P (Datatypes.S i) (body i acc)) ->
  P n (for_loop n body s).
Proof.
  intros H0 Hstep. induction n as [|n IH].
  - exact H0.
  - rewrite for_loop_S. apply Hstep; [lia|].
    apply IH. intros i acc Hi. apply Hstep. lia.
Qed.

(** ** The envelope *)

Module EnvelopeFacts.
Import Envelope EnvelopeSpec.

Lemma noteOn_state (e : t) : state (noteOn e) = Attack.
Proof. reflexivity. Qed.

Lemma noteOn_currentTime (e : t) : currentTime (noteOn e) = 0.
Proof. reflexivity. Qed.

Lemma noteOn_currentLevel (e : t) : currentLevel (noteOn e) = currentLevel e.
Proof. reflexivity. Qed.

Lemma noteOn_sane (e : t) : sane e -> sane (noteOn e).
Proof. intros H. exact H. Qed.

Lemma noteOff_sane (e : t) : sane e -> sane (noteOff e).
Proof. unfold noteOff. destruct (negb _); intros H; exact H. Qed.

Lemma noteOn_clock_ok (e : t) : clock_ok (noteOn e).
Proof. unfold clock_ok. cbn. lra. Qed.

Lemma noteOff_clock_ok (e : t) : clock_ok e -> clock_ok (noteOff e).
Proof.
  unfold noteOff. destruct (negb _); [|tauto].
  intros _. unfold clock_ok. cbn. lra.
Qed.

Lemma noteOff_state (e : t) :
  state (noteOff e) = if State_eqb (state e) Idle then Idle else Release.
Proof. unfold noteOff. destruct (state e) eqn:E; cbn; congruence. Qed.

Lemma process_params (e : t) :
  attackTime (fst (process e)) = attackTime e
  /\ decayTime (fst (process e)) = decayTime e
  /\ sustainLevel (fst (process e)) = sustainLevel e
  /\ releaseTime (fst (process e)) = releaseTime e
  /\ sampleRate (fst (process e)) = sampleRate e.
Proof.
  unfold process. destruct (state e); cbn;
    repeat match goal with |- context [if ?c then _ else _] => destruct c end;
    cbn; auto.
Qed.

Lemma process_sane (e : t) : sane e -> sane (fst (process e)).
Proof.
  unfold sane. destruct (process_params e) as (-> & -> & -> & -> & ->). tauto.
Qed.

Lemma process_returns_level (e : t) :
  snd (process e) = currentLevel (fst (process e)).
Proof. reflexivity. Qed.

(** One [process] call from a sane envelope whose clock is in order
    returns a level in [[0, 1]] and leaves the clock in order. *)
Lemma process_step (e : t) :
  sane e -> clock_ok e ->
  clock_ok (fst (process e)) /\ 0 <= snd (process e) <= 1.
Proof.
  intros (Ha & Hd & Hr & [Hs0 Hs1] & Hsr) Hc.
  assert (Hinc : 0 <= 1 / sampleRate e) by (apply Qdiv_nonneg; lra).
  unfold process, clock_ok in *. destruct (state e) eqn:Est; cbn.
  - (* Idle *) rewrite Est. split; [exact I | lra].
  - (* Attack *)
    assert (Ht : 0 <= (currentTime e + 1 / sampleRate e) / attackTime e)
      by (apply Qdiv_nonneg; lra).
    destruct (Qgeb _ 1) eqn:E; cbn.
    + split; lra.
    + apply Qgeb_false in E. rewrite Est. split; lra.
  - (* Decay *)
    assert (Ht : 0 <= (currentTime e + 1 / sampleRate e) / decayTime e)
      by (apply Qdiv_nonneg; lra).
    destruct (Qle_bool _ (sustainLevel e)) eqn:E; cbn.
    + split; [exact I | lra].
    + apply Qle_bool_false in E. rewrite Est. split; [lra|].
      split; [lra | nra].
  - (* Sustain *) rewrite Est. split; [exact I | lra].
  - (* Release *)
    assert (Ht : 0 <= (currentTime e + 1 / sampleRate e) / releaseTime e)
      by (apply Qdiv_nonneg; lra).
    destruct (Qle_bool _ 0.001) eqn:E; cbn.
    + split; [exact I | lra].
    + apply Qle_bool_false in E. rewrite Est. split; [lra|].
      split; [lra | nra].
Qed.

Lemma run_process (calls : list Call) (e : t) :
  run (CallProcess :: calls) e
  = (fst (run calls (fst (process e))),
     snd (process e) :: snd (run calls (fst (process e)))).
Proof.
  change (run (CallProcess :: calls) e)
    with (let '(e1, level) := process e in
          let '(e2, levels) := run calls e1 in (e2, level :: levels)).
  destruct (process e) as [e1 level]. cbn [fst snd].
  destruct (run calls e1) as [e2 levels]. reflexivity.
Qed.

Lemma run_levels (calls : list Call) (e : t) :
  sane e -> clock_ok e ->
  Forall (fun level => 0 <= level <= 1) (snd (run calls e)).
Proof.
  revert e. induction calls as [|c calls IH]; intros e Hs Hc.
  - constructor.
  - destruct c.
    + apply IH; [apply noteOn_sane, Hs | apply noteOn_clock_ok].
    + apply IH; [apply noteOff_sane, Hs | apply noteOff_clock_ok, Hc].
    + rewrite run_process. cbn [snd].
      destruct (process_step e Hs Hc) as [Hc' Hl].
      constructor; [exact Hl|].
      apply IH; [apply process_sane, Hs | exact Hc'].
Qed.

Lemma noteOn_settled (e : t) : settled e -> settled (noteOn e).
Proof.
  intros [Hl _]. split; [exact Hl|]. rewrite noteOn_state. discriminate.
Qed.

Lemma noteOff_settled (e : t) : settled e -> settled (noteOff e).
Proof.
  intros [Hl Hi]. unfold noteOff.
  destruct (state e) eqn:E; cbn; rewrite ?E; cbn;
    (split; [exact Hl|]); cbn; try discriminate.
  intros _. apply Hi. reflexivity.
Qed.

(** Every [process] call leaves the envelope settled. *)
Lemma process_settled (e : t) :
  sane e -> clock_ok e -> settled (fst (process e)).
Proof.
  intros Hs Hc. destruct (process_step e Hs Hc) as [_ Hl].
  rewrite process_returns_level in Hl. split; [exact Hl|].
  unfold process. destruct (state e) eqn:E; cbn.
  - intros _. reflexivity.
  - destruct (Qgeb _ 1); cbn; rewrite ?E; discriminate.
  - destruct (Qle_bool _ (sustainLevel e)); cbn; rewrite ?E; discriminate.
  - rewrite E. discriminate.
  - destruct (Qle_bool _ 0.001); cbn; rewrite ?E; [intros _; reflexivity | discriminate].
Qed.

End EnvelopeFacts.

(** ** The envelope: the claims *)

(** C4, first half, for every envelope: [noteOn] forces the state to
    Attack.  Second half, at an envelope releasing at level 0.5: the state
    assignment comes before the test for Release, so the stage clock
    restarts at zero, and the next [process] returns 1/441, far below 0.5:
    the attack does not resume from the level of the release. *)
Theorem noteOn_restarts_attack_from_zero :
  (forall e, Envelope.state (Envelope.noteOn e) = Envelope.Attack)
  /\ Envelope.currentTime (Envelope.noteOn demo_releasing) = 0
  /\ snd (Envelope.process (Envelope.noteOn demo_releasing)) == 1 / 441
  /\ snd (Envelope.process (Envelope.noteOn demo_releasing))
     < Envelope.currentLevel demo_releasing.
Proof.
  split; [intros e; reflexivity|].
  split; [reflexivity|].
  split; vm_compute; reflexivity.
Qed.

(** C7: from an Idle envelope with positive attack, decay and release
    times, a sustain level in [[0, 1]] and a positive sample rate, every
    level returned by [process] in any interleaving of [noteOn], [noteOff]
    and [process] calls lies in [[0, 1]]. *)
Theorem envelope_level_within_unit_interval
        (calls : list EnvelopeSpec.Call) (e : Envelope.t) :
  Envelope.state e = Envelope.Idle ->
  0 < Envelope.attackTime e ->
  0 < Envelope.decayTime e ->
  0 < Envelope.releaseTime e ->
  0 <= Envelope.sustainLevel e <= 1 ->
  0 < Envelope.sampleRate e ->
  Forall (fun level => 0 <= level <= 1) (snd (EnvelopeSpec.run calls e)).
Proof.
  intros Hidle Ha Hd Hr Hs Hsr.
  apply EnvelopeFacts.run_levels.
  - unfold EnvelopeSpec.sane. tauto.
  - unfold EnvelopeSpec.clock_ok. rewrite Hidle. exact I.
Qed.

Lemma envelope_level_within_unit_interval_witness :
  Forall (fun level => 0 <= level <= 1)
    (snd (EnvelopeSpec.run
            [EnvelopeSpec.CallNoteOn; EnvelopeSpec.CallProcess;
             EnvelopeSpec.CallProcess; EnvelopeSpec.CallNoteOff;
             EnvelopeSpec.CallProcess; EnvelopeSpec.CallNoteOn;
             EnvelopeSpec.CallProcess]
            Envelope.init)).
Proof.
  apply (envelope_level_within_unit_interval _ Envelope.init).
  - reflexivity.
  - reflexivity.
  - reflexivity.
  - reflexivity.
  - split; discriminate.
  - reflexivity.
Defined.

(** ** The control-plane setters *)

(** C5, as the code has it: neither setter clamps.  [setPlaybackSpeed]
    stores its argument as it is, and [setHoldPosition] stores its argument
    times the sample count when a sample is loaded and nothing otherwise. *)
Theorem setters_store_without_clamping (x : Q) (s : SamplePlayer.t) :
  SamplePlayer.playbackSpeed (SamplePlayer.setPlaybackSpeed x s) = x
  /\ SamplePlayer.holdPosition (SamplePlayer.setHoldPosition x s)
     = if (0 <? AudioBuffer.getNumSamples (SamplePlayer.fileBuffer s))%nat
       then x * SamplePlayer.numSamplesQ s
       else SamplePlayer.holdPosition s.
Proof.
  split; [reflexivity|].
  unfold SamplePlayer.setHoldPosition.
  destruct (0 <? _)%nat; [|reflexivity].
  destruct (SamplePlayer.isHoldMode _); reflexivity.
Qed.

(** C5 as stated fails: a speed of 10 is stored as 10, outside (0.1, 4.0],
    and a normalized hold position of 2 on the four-sample file is stored
    as sample 8 and read back as 2, outside [0, 1]. *)
Lemma setters_do_not_clamp :
  ~ (SamplePlayer.playbackSpeed (SamplePlayer.setPlaybackSpeed 10 demo_loaded)
     <= 4)
  /\ ~ (SamplePlayer.getHoldPosition (SamplePlayer.setHoldPosition 2 demo_loaded)
        <= 1).
Proof.
  split; intros H; vm_compute in H; apply H; reflexivity.
Qed.

(** ** [processBlock]: the early return *)

(** C1, as the code has it: with no sample loaded or with the engine
    disabled, [processBlock] returns at once; the caller's buffer is left as
    it was (it is not cleared) and nothing of the engine, so no voice,
    changes. *)
Theorem processBlock_returns_early_untouched
        (M : Libm) (buffer : AudioBuffer.t) (startSample numSamples : nat)
        (s : SamplePlayer.t) :
  AudioBuffer.getNumSamples (SamplePlayer.fileBuffer s) = 0%nat
  \/ SamplePlayer.isEnabled s = false ->
  SamplePlayer.processBlock M buffer startSample numSamples s = (s, buffer).
Proof.
  intros H. unfold SamplePlayer.processBlock.
  destruct H as [H | H]; rewrite H.
  - reflexivity.
  - rewrite orb_true_r. reflexivity.
Qed.

Lemma processBlock_returns_early_untouched_witness :
  SamplePlayer.processBlock libm_ref demo_block 0 8
    (SamplePlayer.setEnabled false demo_playing)
  = (SamplePlayer.setEnabled false demo_playing, demo_block).
Proof.
  apply (processBlock_returns_early_untouched libm_ref demo_block 0 8
           (SamplePlayer.setEnabled false demo_playing)).
  right. reflexivity.
Defined.

(** C1 as stated fails: with no sample loaded, a block that held [1]
    everywhere still holds it after the call. *)
Lemma processBlock_idle_does_not_clear :
  AudioBuffer.getNumSamples (SamplePlayer.fileBuffer demo_prepared) = 0%nat
  /\ ~ range_silent 0 8
         (snd (SamplePlayer.processBlock libm_ref demo_block 0 8 demo_prepared)).
Proof.
  split; [reflexivity|].
  intros H. specialize (H 0%nat 0%nat).
  assert (Hc : (0 < AudioBuffer.getNumChannels
                       (snd (SamplePlayer.processBlock libm_ref demo_block 0 8
                               demo_prepared)))%nat) by (cbn; lia).
  specialize (H Hc ltac:(lia)). cbn in H. discriminate H.
Qed.

(** ** End of the sample buffer *)

Lemma voices_setVoice_eq (i : nat) (v voice : Voice.t) (s : SamplePlayer.t) :
  SamplePlayer.voices s !! i = Some voice ->
  SamplePlayer.voices (SamplePlayer.setVoice i v s) !! i = Some v.
Proof.
  intros H. cbn. apply list_lookup_insert_eq. eapply lookup_lt_Some, H.
Qed.

Lemma voices_setVoice_ne (i j : nat) (v : Voice.t) (s : SamplePlayer.t) :
  i <> j ->
  SamplePlayer.voices (SamplePlayer.setVoice i v s) !! j = SamplePlayer.voices s !! j.
Proof. intros H. cbn. apply list_lookup_insert_ne, H. Qed.

Lemma lookup_map {A B : Type} (f : A -> B) (l : list A) (i : nat) :
  map f l !! i = f <$> (l !! i).
Proof.
  revert i. induction l as [|x l IH]; intros [|i]; cbn; auto.
Qed.

Lemma voices_stopVoice (midiNoteNumber : Z) (s : SamplePlayer.t) :
  SamplePlayer.voices (SamplePlayer.stopVoice midiNoteNumber s)
  = if SamplePlayer.PlaybackMode_eqb (SamplePlayer.playbackMode s)
                                     SamplePlayer.Polyphonic
    then map (released midiNoteNumber) (SamplePlayer.voices s)
    else SamplePlayer.voices s.
Proof.
  unfold SamplePlayer.stopVoice.
  destruct (SamplePlayer.PlaybackMode_eqb _ _); reflexivity.
Qed.

(** [updateGrains] on a voice of the pool, by cases. *)
Lemma updateGrains_unfold (i : nat) (voice : Voice.t) (s : SamplePlayer.t) :
  SamplePlayer.voices s !! i = Some voice ->
  SamplePlayer.updateGrains i s
  = let v1 := SamplePlayer.refreshGrains s voice in
    let s1 := SamplePlayer.setVoice i v1 s in
    if negb (SamplePlayer.isHoldMode s) then
      let v2 := Voice.with_position (advanced voice s) v1 in
      let s2 := SamplePlayer.setVoice i v2 s1 in
      if (SamplePlayer.isLooping s
          && Qgeb (advanced voice s) (SamplePlayer.numSamplesQ s))%bool
      then SamplePlayer.setVoice i (Voice.with_position 0 v2) s2
      else if (negb (SamplePlayer.isLooping s)
               && Qgeb (advanced voice s) (SamplePlayer.numSamplesQ s))%bool
      then SamplePlayer.stopVoice (Voice.midiNote voice) s2
      else s2
    else s1.
Proof.
  intros Hv. unfold SamplePlayer.updateGrains. rewrite Hv. reflexivity.
Qed.

(** C2, as the code has it: with looping on and hold mode off, a voice
    whose advanced position reaches or passes the buffer length restarts at
    position 0; the overshoot is dropped. *)
Theorem looping_overrun_restarts_at_zero
        (i : nat) (voice : Voice.t) (s : SamplePlayer.t) :
  SamplePlayer.voices s !! i = Some voice ->
  SamplePlayer.isLooping s = true ->
  SamplePlayer.isHoldMode s = false ->
  SamplePlayer.numSamplesQ s <= advanced voice s ->
  exists voice',
    SamplePlayer.voices (SamplePlayer.updateGrains i s) !! i = Some voice'
    /\ Voice.position voice' = 0.
Proof.
  intros Hv Hloop Hhold Hover.
  rewrite (updateGrains_unfold i voice s Hv). cbv zeta.
  rewrite Hhold, Hloop. cbn [negb andb].
  apply Qgeb_true in Hover. rewrite Hover.
  eexists. split.
  - eapply voices_setVoice_eq, voices_setVoice_eq, voices_setVoice_eq, Hv.
  - reflexivity.
Qed.

Lemma lookup_voiceAt (i : nat) (s : SamplePlayer.t) :
  (i < length (SamplePlayer.voices s))%nat ->
  SamplePlayer.voices s !! i = Some (voiceAt i s).
Proof.
  unfold voiceAt. generalize (SamplePlayer.voices s) as l. intros l.
  revert i. induction l as [|x l IH]; intros [|i] H; cbn in *; try lia; auto.
  apply IH. lia.
Qed.

Lemma looping_overrun_restarts_at_zero_witness :
  exists voice',
    SamplePlayer.voices (SamplePlayer.updateGrains 0 demo_looping) !! 0%nat
    = Some voice'
    /\ Voice.position voice' = 0.
Proof.
  refine (looping_overrun_restarts_at_zero 0
            (voiceAt 0 demo_looping) demo_looping _ _ _ _).
  - apply lookup_voiceAt. lazy. lia.
  - reflexivity.
  - reflexivity.
  - apply Qle_bool_iff. lazy. reflexivity.
Defined.

(** C2 as stated fails: a looping voice that advances from sample 0 to 4.5
    on the four-sample file lands on 0, not on the 0.5 that subtracting the
    length gives. *)
Lemma looping_overrun_drops_overshoot :
  SamplePlayer.isLooping demo_looping = true
  /\ SamplePlayer.isHoldMode demo_looping = false
  /\ SamplePlayer.numSamplesQ demo_looping < advanced (voiceAt 0 demo_looping) demo_looping
  /\ ~ wraps_by_length 0 demo_looping.
Proof.
  split; [reflexivity|]. split; [reflexivity|].
  split; [apply Qltb_true; lazy; reflexivity|].
  intros H.
  assert (Hv : SamplePlayer.voices demo_looping !! 0%nat
               = Some (voiceAt 0 demo_looping))
    by (apply lookup_voiceAt; lazy; lia).
  destruct (H _ Hv) as (v' & Hv' & Hp).
  assert (E : Voice.position
                <$> SamplePlayer.voices
                      (SamplePlayer.updateGrains 0 demo_looping) !! 0%nat
              = Some 0) by (lazy; reflexivity).
  rewrite Hv' in E. injection E as E. rewrite E in Hp.
  apply Qeq_bool_iff in Hp. lazy in Hp. discriminate Hp.
Qed.

(** C3, as the code has it: in Polyphonic mode, with looping and hold mode
    off, an active voice whose advanced position reaches or passes the
    buffer length gets [noteOff] on its envelope, which is thereby in
    Release unless it was Idle. *)
Theorem end_of_buffer_releases_polyphonic_voice
        (i : nat) (voice : Voice.t) (s : SamplePlayer.t) :
  SamplePlayer.voices s !! i = Some voice ->
  Voice.isActive voice = true ->
  SamplePlayer.playbackMode s = SamplePlayer.Polyphonic ->
  SamplePlayer.isLooping s = false ->
  SamplePlayer.isHoldMode s = false ->
  SamplePlayer.numSamplesQ s <= advanced voice s ->
  exists voice',
    SamplePlayer.voices (SamplePlayer.updateGrains i s) !! i = Some voice'
    /\ Voice.envelope voice' = Envelope.noteOff (Voice.envelope voice)
    /\ (Envelope.state (Voice.envelope voice) <> Envelope.Idle ->
        Envelope.state (Voice.envelope voice') = Envelope.Release).
Proof.
  intros Hv Hact Hmode Hloop Hhold Hover.
  rewrite (updateGrains_unfold i voice s Hv). cbv zeta.
  rewrite Hhold, Hloop. cbn [negb andb].
  apply Qgeb_true in Hover. rewrite Hover.
  eexists. split; [|split].
  - rewrite voices_stopVoice.
    change (SamplePlayer.playbackMode (SamplePlayer.setVoice _ _ _))
      with (SamplePlayer.playbackMode s).
    rewrite Hmode. cbn [SamplePlayer.PlaybackMode_eqb].
    rewrite lookup_map.
    erewrite voices_setVoice_eq by (eapply voices_setVoice_eq, Hv).
    cbn [fmap option_fmap option_map]. unfold released.
    cbn [Voice.isActive Voice.midiNote Voice.with_position
         SamplePlayer.refreshGrains Voice.with_grains].
    rewrite Hact, Z.eqb_refl. cbn [andb]. reflexivity.
  - reflexivity.
  - intros Hidle. cbn [Voice.envelope Voice.with_envelope].
    rewrite EnvelopeFacts.noteOff_state.
    change (Voice.envelope (Voice.with_position _ (SamplePlayer.refreshGrains s voice)))
      with (Voice.envelope voice).
    destruct (Envelope.state (Voice.envelope voice)); cbn; congruence.
Qed.

Lemma end_of_buffer_releases_polyphonic_voice_witness :
  exists voice',
    SamplePlayer.voices (SamplePlayer.updateGrains 0 demo_near_end) !! 0%nat
    = Some voice'
    /\ Voice.envelope voice'
       = Envelope.noteOff (Voice.envelope (voiceAt 0 demo_near_end))
    /\ (Envelope.state (Voice.envelope (voiceAt 0 demo_near_end)) <> Envelope.Idle ->
        Envelope.state (Voice.envelope voice') = Envelope.Release).
Proof.
  refine (end_of_buffer_releases_polyphonic_voice 0
            (voiceAt 0 demo_near_end) demo_near_end _ _ _ _ _ _).
  - apply lookup_voiceAt. lazy. lia.
  - reflexivity.
  - reflexivity.
  - reflexivity.
  - reflexivity.
  - apply Qle_bool_iff. lazy. reflexivity.
Defined.

(** C3 as stated fails twice over.  In Polyphonic mode the voice that
    reaches the end of the file stays active and keeps its grains; in
    OneShot mode its envelope is not even released. *)
Lemma end_of_buffer_does_not_deactivate :
  (Voice.isActive (voiceAt 0 demo_near_end) = true
   /\ SamplePlayer.isLooping demo_near_end = false
   /\ SamplePlayer.numSamplesQ demo_near_end
      <= advanced (voiceAt 0 demo_near_end) demo_near_end
   /\ ~ deactivated_at_end 0 demo_near_end)
  /\ (Voice.isActive (voiceAt 0 demo_oneshot_near_end) = true
      /\ SamplePlayer.isLooping demo_oneshot_near_end = false
      /\ SamplePlayer.numSamplesQ demo_oneshot_near_end
         <= advanced (voiceAt 0 demo_oneshot_near_end) demo_oneshot_near_end
      /\ ~ deactivated_at_end 0 demo_oneshot_near_end).
Proof.
  split.
  - split; [reflexivity|]. split; [reflexivity|].
    split; [apply Qle_bool_iff; lazy; reflexivity|].
    intros (v' & Hv' & Hact & _ & Hgrains).
    assert (E : Voice.isActive
                  <$> SamplePlayer.voices
                        (SamplePlayer.updateGrains 0 demo_near_end) !! 0%nat
                = Some true) by (lazy; reflexivity).
    rewrite Hv' in E. cbn in E. congruence.
  - split; [reflexivity|]. split; [reflexivity|].
    split; [apply Qle_bool_iff; lazy; reflexivity|].
    intros (v' & Hv' & _ & Hrel & _).
    assert (E : (fun v => Envelope.state (Voice.envelope v))
                  <$> SamplePlayer.voices
                        (SamplePlayer.updateGrains 0 demo_oneshot_near_end) !! 0%nat
                = Some Envelope.Attack) by (lazy; reflexivity).
    rewrite Hv' in E. cbn in E. congruence.
Qed.

(** ** Loading: the peak of the stored buffer *)

Lemma Qabs_scale_le (x g B : Q) :
  Qabs x <= B -> 0 <= g <= 1 -> Qabs (x * g) <= B.
Proof.
  intros Hx [Hg0 Hg1]. rewrite Qabs_Qmult, (Qabs_pos g) by exact Hg0.
  pose proof (Qabs_nonneg x). nra.
Qed.

Lemma smoothGain_unit (g : Q) :
  0 <= g <= 1 -> 0 <= g * g * (3 - 2 * g) <= 1.
Proof.
  intros [H0 H1]. split.
  - apply Qmult_le_0_compat; [nra | lra].
  - assert (H : 0 <= (1 - g) * (1 - g) * (1 + 2 * g)).
    { apply Qmult_le_0_compat; [nra | lra]. }
    lra.
Qed.

Lemma fade_gain_unit (i fadeLength : nat) :
  (i < fadeLength)%nat ->
  0 <= inject_Z (Z.of_nat i) / inject_Z (Z.of_nat fadeLength) <= 1.
Proof.
  intros H.
  assert (Hf : 0 < inject_Z (Z.of_nat fadeLength)).
  { change 0 with (inject_Z 0). rewrite <- Zlt_Qlt. lia. }
  assert (Hi : 0 <= inject_Z (Z.of_nat i)).
  { change 0 with (inject_Z 0). rewrite <- Zle_Qle. lia. }
  split.
  - apply Qdiv_nonneg; assumption.
  - apply Qle_shift_div_r; [assumption|].
    rewrite Qmult_1_l. rewrite <- Zle_Qle. lia.
Qed.

Lemma scaleSample_peak (B g : Q) (channel i : nat) (b : AudioBuffer.t) :
  0 <= g <= 1 -> peak_within B b ->
  peak_within B (AudioBuffer.scaleSample channel i g b).
Proof.
  intros Hg Hb. unfold peak_within, AudioBuffer.scaleSample in *. cbn.
  apply Forall_alter; [exact Hb|].
  intros c _ Hc. apply Forall_alter; [exact Hc|].
  intros x _ Hx. apply Qabs_scale_le; assumption.
Qed.

Lemma applyFades_peak (B : Q) (s : SamplePlayer.t) :
  peak_within B (SamplePlayer.fileBuffer s) ->
  peak_within B (SamplePlayer.fileBuffer (SamplePlayer.applyFades s)).
Proof.
  intros Hb. unfold SamplePlayer.applyFades.
  destruct (_ <? 100)%nat; [exact Hb|]. cbn [SamplePlayer.fileBuffer SamplePlayer.with_fileBuffer].
  apply (for_loop_ind (fun _ buf => peak_within B buf)); [exact Hb|].
  intros i buf Hi Hbuf.
  pose proof (smoothGain_unit _ (fade_gain_unit i _ Hi)) as Hg.
  apply (for_loop_ind (fun _ buf => peak_within B buf)); [exact Hbuf|].
  intros channel buf' _ Hbuf'.
  apply scaleSample_peak; [exact Hg|].
  apply scaleSample_peak; [exact Hg | exact Hbuf'].
Qed.

Lemma dcBlockPass_cons (d : DSPUtils.DCBlocker.t) (m x : Q) (c : list Q) :
  SamplePlayer.dcBlockPass d m (x :: c)
  = let p := DSPUtils.DCBlocker.process x d in
    let r := SamplePlayer.dcBlockPass (fst p) (Qmax m (Qabs (snd p))) c in
    (fst (fst r), snd (fst r), snd p :: snd r).
Proof.
  cbn [SamplePlayer.dcBlockPass]. destruct (DSPUtils.DCBlocker.process x d) as [d1 y].
  cbn [fst snd]. destruct (SamplePlayer.dcBlockPass d1 _ c) as [[d2 m2] ys].
  reflexivity.
Qed.

(** The DC-blocking pass records a maximum that bounds every sample it
    wrote, and never lowers the maximum it started from. *)
Lemma dcBlockPass_max (d : DSPUtils.DCBlocker.t) (m : Q) (c : list Q) :
  m <= snd (fst (SamplePlayer.dcBlockPass d m c))
  /\ Forall (fun y => Qabs y <= snd (fst (SamplePlayer.dcBlockPass d m c)))
            (snd (SamplePlayer.dcBlockPass d m c)).
Proof.
  revert d m. induction c as [|x c IH]; intros d m.
  - cbn. split; [lra | constructor].
  - rewrite dcBlockPass_cons. cbv zeta. cbn [fst snd].
    set (p := DSPUtils.DCBlocker.process x d).
    destruct (IH (fst p) (Qmax m (Qabs (snd p)))) as [Hm Hys].
    pose proof (Q.le_max_l m (Qabs (snd p))).
    pose proof (Q.le_max_r m (Qabs (snd p))).
    split; [lra|]. constructor; [lra | exact Hys].
Qed.

Lemma dcBlockChannels_cons (d : DSPUtils.DCBlocker.t) (m : Q) (c : list Q)
      (chans : list (list Q)) :
  SamplePlayer.dcBlockChannels d m (c :: chans)
  = let p := SamplePlayer.dcBlockPass d m c in
    let r := SamplePlayer.dcBlockChannels (fst (fst p)) (snd (fst p)) chans in
    (fst (fst r), snd (fst r), snd p :: snd r).
Proof.
  cbn [SamplePlayer.dcBlockChannels].
  destruct (SamplePlayer.dcBlockPass d m c) as [[d1 m1] c'].
  cbn [fst snd]. destruct (SamplePlayer.dcBlockChannels d1 m1 chans) as [[d2 m2] r].
  reflexivity.
Qed.

Lemma dcBlockChannels_max (d : DSPUtils.DCBlocker.t) (m : Q) (chans : list (list Q)) :
  m <= snd (fst (SamplePlayer.dcBlockChannels d m chans))
  /\ peak_within (snd (fst (SamplePlayer.dcBlockChannels d m chans)))
       {| AudioBuffer.numSamples := 0;
          AudioBuffer.channels := snd (SamplePlayer.dcBlockChannels d m chans) |}.
Proof.
  unfold peak_within. cbn [AudioBuffer.channels].
  revert d m. induction chans as [|c chans IH]; intros d m.
  - cbn. split; [lra | constructor].
  - rewrite dcBlockChannels_cons. cbv zeta. cbn [fst snd].
    destruct (dcBlockPass_max d m c) as [Hm1 Hc].
    set (p := SamplePlayer.dcBlockPass d m c) in *.
    destruct (IH (fst (fst p)) (snd (fst p))) as [Hm2 Hchans].
    split; [lra|]. constructor; [|exact Hchans].
    eapply Forall_impl; [exact Hc|]. cbn. intros y Hy. lra.
Qed.

Lemma applyGain_sample (m x : Q) :
  0 < m -> Qabs x <= m -> Qabs (x * (0.95 / m)) <= 0.95.
Proof.
  intros Hm Hx.
  assert (Hs : 0 <= 0.95 / m) by (apply Qdiv_nonneg; lra).
  rewrite Qabs_Qmult, (Qabs_pos (0.95 / m)) by exact Hs.
  assert (E : Qabs x * (0.95 / m) == 0.95 * (Qabs x / m)) by (field; lra).
  rewrite E.
  assert (Hq : Qabs x / m <= 1).
  { apply Qle_shift_div_r; [exact Hm | lra]. }
  lra.
Qed.

Lemma applyGain_peak (m : Q) (b : AudioBuffer.t) :
  0 < m -> peak_within m b ->
  peak_within 0.95 (AudioBuffer.applyGain (0.95 / m) b).
Proof.
  intros Hm Hb. unfold peak_within, AudioBuffer.applyGain, AudioBuffer.mapChannels in *.
  cbn [AudioBuffer.channels].
  apply Forall_map. eapply Forall_impl; [exact Hb|]. intros c Hc. cbv beta in *.
  apply Forall_map. eapply Forall_impl; [exact Hc|]. intros x Hx. cbv beta in *.
  apply applyGain_sample; assumption.
Qed.

(** In exact arithmetic, after [loadFile] on a readable file (the
    DC-blocking pass, the normalisation to the peak found by that pass, and
    the edge fades), no sample of the stored buffer exceeds 0.95 in absolute
    value, on any channel; for a silent file this holds as well.  What the
    rounding of [float] makes of this bound is shown with the rounded
    functions. *)
Lemma loadFile_exact_peak_at_most_095 (r : AudioFormatReader) (s : SamplePlayer.t) :
  peak_within 0.95
    (SamplePlayer.fileBuffer (SamplePlayer.loadFile (Some r) s)).
Proof.
  unfold SamplePlayer.loadFile.
  cbn [SamplePlayer.fileBuffer SamplePlayer.with_fileBuffer
       SamplePlayer.with_reader SamplePlayer.with_fileSampleRate
       SamplePlayer.with_sampleRateRatio].
  destruct (dcBlockChannels_max DSPUtils.DCBlocker.init 0
              (AudioBuffer.channels (SamplePlayer.readInto r))) as [Hm Hchans].
  destruct (SamplePlayer.dcBlockChannels _ _ _) as [[d m] chans].
  cbn [fst snd] in Hm, Hchans.
  apply applyFades_peak.
  destruct (Qgtb m 0) eqn:E.
  - apply Qgtb_true in E. apply applyGain_peak; [exact E | exact Hchans].
  - apply Qgtb_false in E. unfold peak_within in *. cbn in *.
    eapply Forall_impl; [exact Hchans|]. cbn. intros c Hc.
    eapply Forall_impl; [exact Hc|]. cbn. intros x Hx. lra.
Qed.

(** ** Hold mode *)



(** One iteration of the sample loop, up to the audio it computes: the
    voice is written back with its position, activity, note and pitch as
    they were, and [updateGrains] runs on the result. *)
Lemma processVoiceSample_shape (M : Libm) (i sample : nat) (voice : Voice.t)
      (s : SamplePlayer.t) (maxLevel : float) :
  SamplePlayer.voices s !! i = Some voice ->
  exists voice' temp maxLevel',
    Voice.position voice' = Voice.position voice
    /\ Voice.isActive voice' = Voice.isActive voice
    /\ Voice.midiNote voice' = Voice.midiNote voice
    /\ Voice.pitchRatio voice' = Voice.pitchRatio voice
    /\ SamplePlayer.processVoiceSample M i sample (s, maxLevel)
       = (SamplePlayer.updateGrains i
            (SamplePlayer.setVoice i voice' (SamplePlayer.with_tempBuffer temp s)),
          maxLevel').
Proof.
  intros Hv. unfold SamplePlayer.processVoiceSample. rewrite Hv.
  destruct (SamplePlayer.processGrains M s voice (Voice.grains voice) 0) as [gs sv].
  destruct (Qgtb (Voice.pitchRatio (Voice.with_grains gs voice)) 1).
  - destruct (DSPUtils.ButterworthFilter.process sv _) as [f out].
    destruct (DSPUtils.DCBlocker.process out _) as [d sv1].
    destruct (DSPUtils.SoftClipper.process M sv1 _) as [c sv2].
    destruct (Envelope.process _) as [e gain].
    eexists _, _, _.
    refine (conj _ (conj _ (conj _ (conj _ eq_refl)))); reflexivity.
  - destruct (DSPUtils.DCBlocker.process sv _) as [d sv1].
    destruct (DSPUtils.SoftClipper.process M sv1 _) as [c sv2].
    destruct (Envelope.process _) as [e gain].
    eexists _, _, _.
    refine (conj _ (conj _ (conj _ (conj _ eq_refl)))); reflexivity.
Qed.



Lemma processBlock_voices (M : Libm) (buffer : AudioBuffer.t)
      (startSample numSamples : nat) (s : SamplePlayer.t) :
  SamplePlayer.voices (fst (SamplePlayer.processBlock M buffer startSample numSamples s))
  = if ((AudioBuffer.getNumSamples (SamplePlayer.fileBuffer s) =? 0)%nat
        || negb (SamplePlayer.isEnabled s))%bool
    then SamplePlayer.voices s
    else SamplePlayer.voices
           (fst (SamplePlayer.processVoices M numSamples
                   (SamplePlayer.with_tempBuffer
                      (AudioBuffer.clear (SamplePlayer.tempBuffer s)) s, 0))).
Proof.
  unfold SamplePlayer.processBlock.
  destruct (_ || _)%bool; [reflexivity|].
  destruct (SamplePlayer.processVoices M numSamples _) as [s1 m].
  destruct (SamplePlayer.limitOutput _ _ _ _) as [l b]. reflexivity.
Qed.

Lemma findFreeFrom_range (i k : nat) (vs : list Voice.t) :
  SamplePlayer.findFreeFrom i vs = Some k -> (i <= k < i + length vs)%nat.
Proof.
  revert i. induction vs as [|v vs IH]; intros i H; cbn in *; [discriminate|].
  destruct (negb (Voice.isActive v)).
  - injection H as <-. lia.
  - apply IH in H. lia.
Qed.

Lemma findIdleFrom_range (i k : nat) (vs : list Voice.t) :
  SamplePlayer.findIdleFrom i vs = Some k -> (i <= k < i + length vs)%nat.
Proof.
  revert i. induction vs as [|v vs IH]; intros i H; cbn in *; [discriminate|].
  destruct (Envelope.State_eqb _ _).
  - injection H as <-. lia.
  - apply IH in H. lia.
Qed.

(** The acquisition leaves the hold settings alone, and the index it yields
    lies within the pool. *)
Lemma acquireVoice_frame (s : SamplePlayer.t) :
  SamplePlayer.isHoldMode (fst (SamplePlayer.acquireVoice s)) = SamplePlayer.isHoldMode s
  /\ SamplePlayer.holdPosition (fst (SamplePlayer.acquireVoice s))
     = SamplePlayer.holdPosition s
  /\ forall k, snd (SamplePlayer.acquireVoice s) = Some k ->
       (k < length (SamplePlayer.voices (fst (SamplePlayer.acquireVoice s))))%nat.
Proof.
  unfold SamplePlayer.acquireVoice.
  destruct (SamplePlayer.findFreeVoice s) as [k0|] eqn:Hfree.
  - cbn. repeat split. intros k [= <-]. apply findFreeFrom_range in Hfree. lia.
  - destruct (if SamplePlayer.PlaybackMode_eqb _ _ then _ else None) as [k1|] eqn:Hidle.
    + cbn. repeat split. intros k [= <-].
      destruct (SamplePlayer.PlaybackMode_eqb _ _); [|discriminate].
      apply findIdleFrom_range in Hidle. lia.
    + cbn [fst snd]. repeat split. intros k Hk.
      apply findFreeFrom_range in Hk. lia.
Qed.

Lemma startVoice_unfold (M : Libm) (midiNoteNumber : Z) (velocity : float)
      (s : SamplePlayer.t) :
  SamplePlayer.startVoice M midiNoteNumber velocity s
  = match snd (SamplePlayer.acquireVoice s) with
    | Some k =>
        SamplePlayer.with_voices
          (alter (SamplePlayer.claimVoice M (fst (SamplePlayer.acquireVoice s))
                    midiNoteNumber velocity)
                 k (SamplePlayer.voices (fst (SamplePlayer.acquireVoice s))))
          (fst (SamplePlayer.acquireVoice s))
    | None => fst (SamplePlayer.acquireVoice s)
    end.
Proof.
  unfold SamplePlayer.startVoice.
  destruct (SamplePlayer.acquireVoice s) as [s1 [k|]]; reflexivity.
Qed.

Lemma claimVoice_position (M : Libm) (s : SamplePlayer.t) (midiNoteNumber : Z)
      (velocity : float) (voice : Voice.t) :
  Voice.position (SamplePlayer.claimVoice M s midiNoteNumber velocity voice)
  = if SamplePlayer.isHoldMode s then SamplePlayer.holdPosition s else 0.
Proof.
  unfold SamplePlayer.claimVoice. cbv zeta.
  destruct (_ || _)%bool; reflexivity.
Qed.



(** ** Voice stealing *)

Lemma stealScan_quietest (vs : list Voice.t) :
  vs <> [] ->
  Forall (fun v => level v < FLT_MAX) vs ->
  distinct_levels vs ->
  exists quiet, quietest vs (fst (SamplePlayer.stealScan vs)) quiet.
Proof.
  intros Hne Hmax Hdist.
  assert (H : scanned vs (length vs) (SamplePlayer.stealScan vs)).
  { unfold SamplePlayer.stealScan.
    apply (for_loop_ind (scanned vs)); [reflexivity|].
    intros i [si low] Hi Hacc.
    destruct (lookup_lt_is_Some_2 vs i Hi) as [w Hw]. rewrite Hw.
    fold (level w).
    assert (Hwmax : level w < FLT_MAX).
    { exact (Forall_lookup_1 _ _ _ _ Hmax Hw). }
    destruct (Qltb (level w) low) eqn:E.
    - apply Qltb_true in E. exists w. cbn [fst snd].
      split; [lia|]. split; [exact Hw|]. split; [reflexivity|].
      intros j u Hj Hji Hu.
      destruct i as [|i']; [lia|]. cbn [scanned] in Hacc.
      destruct Hacc as (v & Hsi & Hv & Hlow & Hothers). cbn [fst snd] in *.
      destruct (Nat.eq_dec j si) as [->|Hjs].
      + rewrite Hv in Hu. injection Hu as <-. rewrite <- Hlow. exact E.
      + specialize (Hothers j u ltac:(lia) Hjs Hu). lra.
    - apply Qltb_false in E.
      destruct i as [|i'].
      + cbn [scanned] in Hacc. injection Hacc as -> ->. lra.
      + cbn [scanned] in Hacc.
        destruct Hacc as (v & Hsi & Hv & Hlow & Hothers). cbn [fst snd] in *.
        exists v. cbn [fst snd].
        split; [lia|]. split; [exact Hv|]. split; [exact Hlow|].
        intros j u Hj Hjs Hu.
        destruct (Nat.eq_dec j (S i')) as [->|Hji].
        * rewrite Hw in Hu. injection Hu as <-.
          assert (Hd : ~ level v == level w).
          { apply (Hdist si (S i') v w Hv Hw). lia. }
          rewrite Hlow in *.
          destruct (Qlt_le_dec (level v) (level w)) as [Hlt|Hge]; [exact Hlt|].
          exfalso. apply Hd. lra.
        * apply (Hothers j u); [lia | exact Hjs | exact Hu]. }
  destruct vs as [|v0 vs']; [congruence|].
  cbn [length scanned] in H.
  destruct H as (v & Hsi & Hv & Hlow & Hothers).
  exists v. split; [exact Hv|].
  intros j u Hu Hj. rewrite <- Hlow.
  apply (Hothers j u); [|exact Hj | exact Hu].
  apply lookup_lt_Some in Hu. cbn [length] in Hu. exact Hu.
Qed.

Lemma findFreeFrom_all_active (i : nat) (vs : list Voice.t) :
  Forall (fun v => Voice.isActive v = true) vs ->
  SamplePlayer.findFreeFrom i vs = None.
Proof.
  intros H. revert i. induction H as [|v vs Hv _ IH]; intros i; cbn.
  - reflexivity.
  - rewrite Hv. cbn. apply IH.
Qed.

Lemma findFreeFrom_after_reset (i k : nat) (vs : list Voice.t) :
  Forall (fun v => Voice.isActive v = true) vs ->
  (k < length vs)%nat ->
  SamplePlayer.findFreeFrom i (alter Voice.reset k vs) = Some (i + k)%nat.
Proof.
  intros H. revert i k. induction H as [|v vs Hv _ IH]; intros i k Hk; cbn in *.
  - lia.
  - destruct k as [|k]; cbn.
    + f_equal. lia.
    + rewrite Hv. cbn. rewrite IH by lia. f_equal. lia.
Qed.

Lemma findIdleFrom_found (i k : nat) (vs : list Voice.t) :
  SamplePlayer.findIdleFrom i vs = Some k ->
  exists v, (i <= k)%nat /\ vs !! (k - i)%nat = Some v
            /\ Envelope.state (Voice.envelope v) = Envelope.Idle.
Proof.
  revert i. induction vs as [|v vs IH]; intros i H; cbn in *; [discriminate|].
  destruct (Envelope.state (Voice.envelope v)) eqn:E; cbn in H;
    try (apply IH in H; destruct H as (u & Hi & Hu & Hs);
         exists u; split; [lia|]; split; [|exact Hs];
         replace (k - i)%nat with (S (k - S i)) by lia; exact Hu).
  injection H as <-. exists v. rewrite Nat.sub_diag. auto.
Qed.

Lemma alter_as_insert {A : Type} (f : A -> A) (k : nat) (x : A) (l : list A) :
  l !! k = Some x -> alter f k l = <[k := f x]> l.
Proof.
  revert k. induction l as [|y l IH]; intros [|k] H; cbn in *; try discriminate.
  - injection H as ->. reflexivity.
  - f_equal. apply IH, H.
Qed.

Lemma alter_alter_same {A : Type} (f g : A -> A) (k : nat) (l : list A) :
  alter f k (alter g k l) = alter (fun x => f (g x)) k l.
Proof.
  revert k. induction l as [|y l IH]; intros [|k]; cbn; try reflexivity.
  f_equal. apply IH.
Qed.

(** [claimVoice] starts with a reset, so a reset before it changes nothing. *)
Lemma claimVoice_after_reset (M : Libm) (s : SamplePlayer.t) (midiNoteNumber : Z)
      (velocity : float) (voice : Voice.t) :
  SamplePlayer.claimVoice M s midiNoteNumber velocity (Voice.reset voice)
  = SamplePlayer.claimVoice M s midiNoteNumber velocity voice.
Proof.
  unfold SamplePlayer.claimVoice. cbv zeta.
  destruct (_ || _)%bool; reflexivity.
Qed.

Lemma claimVoice_fields (M : Libm) (s : SamplePlayer.t) (midiNoteNumber : Z)
      (velocity : float) (voice : Voice.t) :
  let voice' := SamplePlayer.claimVoice M s midiNoteNumber velocity voice in
  Voice.isActive voice' = true
  /\ Voice.midiNote voice' = midiNoteNumber
  /\ Voice.velocity voice' = velocity
  /\ Voice.grains voice' = []
  /\ Voice.pitchRatio voice' = pow M 2 (inject_Z (midiNoteNumber - 60) / 12)
  /\ Envelope.state (Voice.envelope voice') = Envelope.Attack.
Proof.
  unfold SamplePlayer.claimVoice. cbv zeta.
  destruct (_ || _)%bool; repeat split.
Qed.

(** The acquisition on a full pool: the index is that of the quietest
    voice, which is either taken as it is (OneShot, Idle envelope) or reset
    by the steal; nothing else of the engine changes. *)
Lemma acquireVoice_full_pool (s : SamplePlayer.t) :
  SamplePlayer.voices s <> [] ->
  Forall (fun v => Voice.isActive v = true) (SamplePlayer.voices s) ->
  distinct_levels (SamplePlayer.voices s) ->
  Forall envelope_settled (SamplePlayer.voices s) ->
  exists k quiet,
    quietest (SamplePlayer.voices s) k quiet
    /\ (SamplePlayer.acquireVoice s = (s, Some k)
        \/ SamplePlayer.acquireVoice s
           = (SamplePlayer.with_voices
                (alter Voice.reset k (SamplePlayer.voices s)) s, Some k)).
Proof.
  intros Hne Hact Hdist Hset.
  unfold SamplePlayer.acquireVoice, SamplePlayer.findFreeVoice.
  rewrite (findFreeFrom_all_active 0 _ Hact).
  destruct (if SamplePlayer.PlaybackMode_eqb _ _ then _ else None) as [k|] eqn:Hidle.
  - (* OneShot, and an envelope is Idle *)
    destruct (SamplePlayer.PlaybackMode_eqb _ _); [|discriminate].
    apply findIdleFrom_found in Hidle. destruct Hidle as (quiet & _ & Hq & Hst).
    rewrite Nat.sub_0_r in Hq.
    exists k, quiet. split; [split; [exact Hq|] | left; reflexivity].
    intros j v Hv Hj.
    destruct (Forall_lookup_1 _ _ _ _ Hset Hq) as [_ Hzero].
    destruct (Forall_lookup_1 _ _ _ _ Hset Hv) as [[Hv0 _] _].
    specialize (Hzero Hst).
    assert (Hd : ~ level v == level quiet) by (apply (Hdist j k v quiet Hv Hq Hj)).
    rewrite Hzero.
    destruct (Qlt_le_dec 0 (level v)) as [Hlt|Hge]; [exact Hlt|].
    exfalso. apply Hd. lra.
  - (* the steal *)
    assert (Hmax : Forall (fun v => level v < FLT_MAX) (SamplePlayer.voices s)).
    { eapply Forall_impl; [exact Hset|]. intros v [[_ H1] _].
      assert (1 < FLT_MAX) by reflexivity. lra. }
    destruct (stealScan_quietest _ Hne Hmax Hdist) as (quiet & Hq & Hothers).
    unfold SamplePlayer.stealVoice.
    set (k := fst (SamplePlayer.stealScan (SamplePlayer.voices s))) in *.
    assert (Hk : (k < length (SamplePlayer.voices s))%nat)
      by (eapply lookup_lt_Some, Hq).
    cbn [SamplePlayer.voices SamplePlayer.with_voices].
    rewrite (findFreeFrom_after_reset 0 k _ Hact Hk). cbn [Nat.add].
    exists k, quiet. split; [split; assumption | right; reflexivity].
Qed.

(** With a sample loaded, a note-on in Polyphonic or OneShot mode is
    [startVoice] on the engine as it stands; in Monophonic mode
    [stopAllVoices] runs first. *)
Lemma handleMidiMessage_noteOn (M : Libm) (noteNumber : Z) (floatVelocity : float)
      (s : SamplePlayer.t) :
  (0 < AudioBuffer.getNumSamples (SamplePlayer.fileBuffer s))%nat ->
  SamplePlayer.handleMidiMessage M (NoteOn noteNumber floatVelocity) s
  = match SamplePlayer.playbackMode s with
    | SamplePlayer.Monophonic =>
        SamplePlayer.startVoice M noteNumber floatVelocity
          (SamplePlayer.stopAllVoices M s)
    | _ => SamplePlayer.startVoice M noteNumber floatVelocity s
    end.
Proof.
  intros Hn. unfold SamplePlayer.handleMidiMessage.
  destruct (AudioBuffer.getNumSamples (SamplePlayer.fileBuffer s)); [lia|].
  cbn [Nat.eqb]. destruct (SamplePlayer.playbackMode s); reflexivity.
Qed.

(** With all 16 voices active, their envelope levels pairwise distinct
    and settled, [startVoice] changes exactly one voice of the pool, the one
    whose level is strictly the lowest: that voice is reset and claimed for
    the new note, with pitch ratio [2^((note - 60) / 12)]; every other voice
    is left as it was. *)
Lemma startVoice_steals_quietest_voice
        (M : Libm) (midiNoteNumber : Z) (velocity : float) (s : SamplePlayer.t) :
  length (SamplePlayer.voices s) = SamplePlayer.MAX_VOICES ->
  Forall (fun v => Voice.isActive v = true) (SamplePlayer.voices s) ->
  distinct_levels (SamplePlayer.voices s) ->
  Forall envelope_settled (SamplePlayer.voices s) ->
  exists k quiet,
    quietest (SamplePlayer.voices s) k quiet
    /\ SamplePlayer.voices (SamplePlayer.startVoice M midiNoteNumber velocity s)
       = <[k := SamplePlayer.claimVoice M s midiNoteNumber velocity quiet]>
           (SamplePlayer.voices s)
    /\ (forall j, j <> k ->
          SamplePlayer.voices (SamplePlayer.startVoice M midiNoteNumber velocity s) !! j
          = SamplePlayer.voices s !! j)
    /\ Voice.isActive (SamplePlayer.claimVoice M s midiNoteNumber velocity quiet) = true
    /\ Voice.midiNote (SamplePlayer.claimVoice M s midiNoteNumber velocity quiet)
       = midiNoteNumber
    /\ Voice.grains (SamplePlayer.claimVoice M s midiNoteNumber velocity quiet) = []
    /\ Voice.pitchRatio (SamplePlayer.claimVoice M s midiNoteNumber velocity quiet)
       = pow M 2 (inject_Z (midiNoteNumber - 60) / 12).
Proof.
  intros Hlen Hact Hdist Hset.
  assert (Hne : SamplePlayer.voices s <> []).
  { intros E. rewrite E in Hlen. discriminate Hlen. }
  destruct (acquireVoice_full_pool s Hne Hact Hdist Hset)
    as (k & quiet & Hq & Hacq).
  assert (Hvoices :
            SamplePlayer.voices (SamplePlayer.startVoice M midiNoteNumber velocity s)
            = <[k := SamplePlayer.claimVoice M s midiNoteNumber velocity quiet]>
                (SamplePlayer.voices s)).
  { rewrite startVoice_unfold. destruct Hq as [Hq _].
    destruct Hacq as [-> | ->];
      cbn [fst snd SamplePlayer.voices SamplePlayer.with_voices].
    - apply alter_as_insert, Hq.
    - rewrite alter_alter_same, (alter_as_insert _ k quiet _ Hq).
      f_equal; try apply claimVoice_after_reset. }
  destruct (claimVoice_fields M s midiNoteNumber velocity quiet)
    as (H1 & H2 & _ & H4 & H5 & _).
  exists k, quiet. split; [exact Hq|]. split; [exact Hvoices|].
  split; [|auto].
  intros j Hj. rewrite Hvoices. apply list_lookup_insert_ne. congruence.
Qed.

(** Without a sample loaded a MIDI message changes nothing. *)
Lemma handleMidiMessage_without_sample (M : Libm) (message : MidiMessage)
      (s : SamplePlayer.t) :
  AudioBuffer.getNumSamples (SamplePlayer.fileBuffer s) = 0%nat ->
  SamplePlayer.handleMidiMessage M message s = s.
Proof.
  intros H. unfold SamplePlayer.handleMidiMessage. rewrite H. reflexivity.
Qed.

(** C9, as the code has it: with a sample loaded and the mode Polyphonic or
    OneShot, all 16 voices active, their envelope levels pairwise distinct
    and settled, a note-on changes exactly one voice of the pool, the one
    whose level is strictly the lowest: that voice is reset and claimed for
    the new note, with pitch ratio [2^((note - 60) / 12)]; every other voice
    is left as it was.  (In Monophonic mode [stopAllVoices] runs first.) *)
Theorem full_pool_steals_quietest_voice
        (M : Libm) (noteNumber : Z) (floatVelocity : float) (s : SamplePlayer.t) :
  (0 < AudioBuffer.getNumSamples (SamplePlayer.fileBuffer s))%nat ->
  SamplePlayer.playbackMode s <> SamplePlayer.Monophonic ->
  length (SamplePlayer.voices s) = SamplePlayer.MAX_VOICES ->
  Forall (fun v => Voice.isActive v = true) (SamplePlayer.voices s) ->
  distinct_levels (SamplePlayer.voices s) ->
  Forall envelope_settled (SamplePlayer.voices s) ->
  exists k quiet,
    quietest (SamplePlayer.voices s) k quiet
    /\ SamplePlayer.voices
         (SamplePlayer.handleMidiMessage M (NoteOn noteNumber floatVelocity) s)
       = <[k := SamplePlayer.claimVoice M s noteNumber floatVelocity quiet]>
           (SamplePlayer.voices s)
    /\ (forall j, j <> k ->
          SamplePlayer.voices
            (SamplePlayer.handleMidiMessage M (NoteOn noteNumber floatVelocity) s)
          !! j
          = SamplePlayer.voices s !! j)
    /\ Voice.isActive (SamplePlayer.claimVoice M s noteNumber floatVelocity quiet)
       = true
    /\ Voice.midiNote (SamplePlayer.claimVoice M s noteNumber floatVelocity quiet)
       = noteNumber
    /\ Voice.grains (SamplePlayer.claimVoice M s noteNumber floatVelocity quiet) = []
    /\ Voice.pitchRatio (SamplePlayer.claimVoice M s noteNumber floatVelocity quiet)
       = pow M 2 (inject_Z (noteNumber - 60) / 12).
Proof.
  intros Hn Hmode Hlen Hact Hdist Hset.
  assert (E : SamplePlayer.handleMidiMessage M (NoteOn noteNumber floatVelocity) s
              = SamplePlayer.startVoice M noteNumber floatVelocity s).
  { rewrite (handleMidiMessage_noteOn M noteNumber floatVelocity s Hn).
    destruct (SamplePlayer.playbackMode s); [reflexivity | | reflexivity].
    exfalso. apply Hmode. reflexivity. }
  rewrite E.
  exact (startVoice_steals_quietest_voice M noteNumber floatVelocity s
           Hlen Hact Hdist Hset).
Qed.

Lemma pairwise_distinctb_sound (vs : list Voice.t) :
  pairwise_distinctb (map level vs) = true -> distinct_levels vs.
Proof.
  induction vs as [|v vs IH]; intros H i j vi vj Hi Hj Hij Heq.
  - discriminate Hi.
  - cbn in H. apply andb_true_iff in H. destruct H as [Hhead Htail].
    rewrite forallb_forall in Hhead.
    assert (Hne : forall u, In u vs -> ~ level v == level u).
    { intros u Hu E. specialize (Hhead (level u) (in_map level vs u Hu)).
      apply negb_true_iff in Hhead. apply Qeq_bool_neq in Hhead. auto. }
    destruct i as [|i], j as [|j]; cbn in Hi, Hj.
    + congruence.
    + injection Hi as <-. apply (Hne vj); [|exact Heq].
      apply list_elem_of_In, list_elem_of_lookup. eauto.
    + injection Hj as <-. apply (Hne vi); [|symmetry; exact Heq].
      apply list_elem_of_In, list_elem_of_lookup. eauto.
    + apply (IH Htail i j vi vj Hi Hj); [congruence | exact Heq].
Qed.

Lemma full_pool_steals_quietest_voice_witness :
  exists k quiet,
    quietest (SamplePlayer.voices demo_full_pool) k quiet
    /\ SamplePlayer.voices
         (SamplePlayer.handleMidiMessage libm_ref (NoteOn 84 1) demo_full_pool)
       = <[k := SamplePlayer.claimVoice libm_ref demo_full_pool 84 1 quiet]>
           (SamplePlayer.voices demo_full_pool)
    /\ (forall j, j <> k ->
          SamplePlayer.voices
            (SamplePlayer.handleMidiMessage libm_ref (NoteOn 84 1) demo_full_pool)
          !! j
          = SamplePlayer.voices demo_full_pool !! j)
    /\ Voice.isActive (SamplePlayer.claimVoice libm_ref demo_full_pool 84 1 quiet) = true
    /\ Voice.midiNote (SamplePlayer.claimVoice libm_ref demo_full_pool 84 1 quiet) = 84%Z
    /\ Voice.grains (SamplePlayer.claimVoice libm_ref demo_full_pool 84 1 quiet) = []
    /\ Voice.pitchRatio (SamplePlayer.claimVoice libm_ref demo_full_pool 84 1 quiet)
       = pow libm_ref 2 (inject_Z (84 - 60) / 12).
Proof.
  apply (full_pool_steals_quietest_voice libm_ref 84 1 demo_full_pool).
  - lazy. lia.
  - lazy. intros H. discriminate H.
  - reflexivity.
  - repeat constructor.
  - apply pairwise_distinctb_sound. lazy. reflexivity.
  - repeat (constructor;
            [split; [split; apply Qle_bool_iff; lazy; reflexivity
                    | intros H; discriminate H] |]).
    constructor.
Defined.

(** In Monophonic mode the claim fails: on the full pool of sixteen
    sounding voices with distinct, settled levels, a note-on leaves no
    voice [k] such that every other voice keeps its activity; all of them
    are stopped, and voice 0 sounds the new note. *)
Lemma monophonic_noteOn_stops_the_full_pool :
  (0 < AudioBuffer.getNumSamples (SamplePlayer.fileBuffer demo_full_pool_mono))%nat
  /\ length (SamplePlayer.voices demo_full_pool_mono) = SamplePlayer.MAX_VOICES
  /\ Forall (fun v => Voice.isActive v = true) (SamplePlayer.voices demo_full_pool_mono)
  /\ distinct_levels (SamplePlayer.voices demo_full_pool_mono)
  /\ Forall envelope_settled (SamplePlayer.voices demo_full_pool_mono)
  /\ ~ exists k : nat,
         forall j : nat, j <> k ->
           Voice.isActive
             <$> SamplePlayer.voices
                   (SamplePlayer.handleMidiMessage libm_ref (NoteOn 84 1)
                      demo_full_pool_mono) !! j
           = Voice.isActive <$> SamplePlayer.voices demo_full_pool_mono !! j.
Proof.
  split; [lazy; lia|]. split; [reflexivity|]. split; [repeat constructor|].
  split; [apply pairwise_distinctb_sound; lazy; reflexivity|].
  split.
  - repeat (constructor;
            [split; [split; apply Qle_bool_iff; lazy; reflexivity
                    | intros H; discriminate H] |]).
    constructor.
  - intros [k Hk].
    destruct (Nat.eq_dec k 15%nat) as [->|Hne].
    + specialize (Hk 14%nat ltac:(lia)). lazy in Hk. discriminate Hk.
    + specialize (Hk 15%nat ltac:(lia)). lazy in Hk. discriminate Hk.
Qed.

(** ** The playhead position *)

(** C10, as the code has it: [getCurrentPosition] is 0 when no voice is
    active, and otherwise the position of the first active voice over the
    buffer length (over 1 when no sample is loaded); with a sample loaded it
    lies in [[0, 1]] exactly when that position lies within the buffer. *)
Theorem getCurrentPosition_follows_first_active_voice (s : SamplePlayer.t) :
  (List.find Voice.isActive (SamplePlayer.voices s) = None ->
   SamplePlayer.getCurrentPosition s = 0)
  /\ (forall voice,
        List.find Voice.isActive (SamplePlayer.voices s) = Some voice ->
        AudioBuffer.getNumSamples (SamplePlayer.fileBuffer s) = 0%nat ->
        SamplePlayer.getCurrentPosition s = Voice.position voice / 1)
  /\ (forall voice,
        List.find Voice.isActive (SamplePlayer.voices s) = Some voice ->
        (0 < AudioBuffer.getNumSamples (SamplePlayer.fileBuffer s))%nat ->
        SamplePlayer.getCurrentPosition s
        = Voice.position voice / SamplePlayer.numSamplesQ s
        /\ (0 <= SamplePlayer.getCurrentPosition s <= 1
            <-> 0 <= Voice.position voice <= SamplePlayer.numSamplesQ s)).
Proof.
  unfold SamplePlayer.getCurrentPosition. split; [|split].
  - intros ->. reflexivity.
  - intros voice -> ->. reflexivity.
  - intros voice -> Hn.
    assert (Hpos : 0 < SamplePlayer.numSamplesQ s).
    { unfold SamplePlayer.numSamplesQ. change 0 with (inject_Z 0).
      rewrite <- Zlt_Qlt. lia. }
    apply Nat.ltb_lt in Hn. rewrite Hn. split; [reflexivity|].
    split.
    + intros [H0 H1]. split.
      * apply Qmult_le_r with (z := / SamplePlayer.numSamplesQ s).
        { apply Qinv_lt_0_compat, Hpos. }
        rewrite Qmult_0_l. exact H0.
      * apply Qmult_le_r with (z := / SamplePlayer.numSamplesQ s).
        { apply Qinv_lt_0_compat, Hpos. }
        rewrite Qmult_inv_r by lra. exact H1.
    + intros [H0 H1]. split.
      * apply Qdiv_nonneg; assumption.
      * apply Qle_shift_div_r; [exact Hpos | lra].
Qed.

(** C10 as stated fails: after the session above the voice has run to
    sample 8 of the four-sample file, still active, and the reported
    position is 2. *)
Lemma getCurrentPosition_leaves_unit_interval :
  SamplePlayer.getCurrentPosition (after libm_ref demo_session) == 2
  /\ ~ (forall s, reachable libm_ref s ->
                  0 <= SamplePlayer.getCurrentPosition s <= 1).
Proof.
  assert (E : SamplePlayer.getCurrentPosition (after libm_ref demo_session) == 2).
  { apply Qeq_bool_iff. lazy. reflexivity. }
  split; [exact E|].
  intros H.
  destruct (H (after libm_ref demo_session) (ex_intro _ demo_session eq_refl))
    as [_ H1].
  rewrite E in H1. apply Qle_bool_iff in H1. discriminate H1.
Qed.

(** * Further properties of the code *)

(** ** The DSP primitives *)

Lemma fold_left_fixed {A B : Type} (f : A -> B -> A) (l : list B) (a : A) :
  (forall x, In x l -> f a x = a) -> fold_left f l a = a.
Proof.
  induction l as [|x l IH]; intros H; cbn; [reflexivity|].
  rewrite (H x) by (left; reflexivity). apply IH.
  intros y Hy. apply H. right. exact Hy.
Qed.

Lemma taps_range (i : Z) :
  In i DSPUtils.Resampler.taps -> (- 8 <= i <= 8)%Z.
Proof.
  unfold DSPUtils.Resampler.taps. intros H.
  apply in_map_iff in H. destruct H as (k & <- & Hk).
  apply in_seq in Hk. unfold DSPUtils.Resampler.SINC_POINTS. lia.
Qed.

(** X1: the resampler pads with silence.  On an empty buffer, and at any
    read position more than eight samples outside the buffer, every tap is
    out of range and the interpolated sample is 0, whatever the math
    library. *)
Theorem resample_outside_buffer_is_silent
        (M : Libm) (input : list float) (position : double) (bufferSize : Z) :
  (bufferSize <= 0)%Z
  \/ position < - (8)
  \/ inject_Z bufferSize + 8 <= position ->
  DSPUtils.Resampler.resample M input position bufferSize = 0.
Proof.
  intros H. unfold DSPUtils.Resampler.resample. cbv zeta.
  apply fold_left_fixed. intros i Hi. apply taps_range in Hi.
  assert (Hout : ((0 <=? floor position + i)%Z
                  && (floor position + i <? bufferSize)%Z)%bool = false).
  { apply andb_false_iff.
    destruct H as [H | [H | H]].
    - destruct (Z.leb_spec 0 (floor position + i)); [right | left; reflexivity].
      apply Z.ltb_ge. lia.
    - left. apply Z.leb_gt.
      assert (inject_Z (floor position) <= position) by apply Qfloor_le.
      assert (Hlt : inject_Z (floor position) < inject_Z (- 8)).
      { change (inject_Z (- 8)) with (- (8)). lra. }
      rewrite <- Zlt_Qlt in Hlt. lia.
    - right. apply Z.ltb_ge.
      assert (Hle : (bufferSize + 8 <= floor position)%Z).
      { unfold floor. rewrite <- (Qfloor_Z (bufferSize + 8)).
        apply Qfloor_resp_le. rewrite inject_Z_plus. exact H. }
      lia. }
  rewrite Hout. reflexivity.
Qed.

Lemma resample_outside_buffer_is_silent_witness :
  DSPUtils.Resampler.resample libm_ref [0.5; 0.25] 10 2 = 0.
Proof.
  apply (resample_outside_buffer_is_silent libm_ref [0.5; 0.25] 10 2).
  right. right. apply Qle_bool_iff. reflexivity.
Defined.

Lemma dcBlocker_feed_constant (c : float) (n : nat) (d : DSPUtils.DCBlocker.t) :
  DSPUtils.DCBlocker.x1 d = c ->
  Forall2 (fun y k => y == DSPUtils.DCBlocker.y1 d
                           * Qpower DSPUtils.DCBlocker.R (Z.of_nat (S k)))
          (snd (dcBlocker_feed (replicate n c) d)) (seq 0 n).
Proof.
  revert d. induction n as [|n IH]; intros d Hx.
  - constructor.
  - cbn [replicate dcBlocker_feed seq].
    unfold DSPUtils.DCBlocker.process at 1. cbv zeta.
    set (d1 := {| DSPUtils.DCBlocker.x1 := c;
                  DSPUtils.DCBlocker.y1 :=
                    c - DSPUtils.DCBlocker.x1 d
                    + DSPUtils.DCBlocker.R * DSPUtils.DCBlocker.y1 d |}).
    specialize (IH d1 eq_refl).
    destruct (dcBlocker_feed (replicate n c) d1) as [d2 ys]. cbn [snd] in *.
    assert (Hy1 : DSPUtils.DCBlocker.y1 d1
                  == DSPUtils.DCBlocker.y1 d * DSPUtils.DCBlocker.R).
    { unfold d1. cbn [DSPUtils.DCBlocker.y1]. rewrite Hx. ring. }
    constructor.
    + cbv beta. rewrite Hx.
      change (Qpower DSPUtils.DCBlocker.R (Z.of_nat 1)) with DSPUtils.DCBlocker.R.
      ring.
    + rewrite <- seq_shift. apply Forall2_fmap_r.
      eapply Forall2_impl; [exact IH|]. intros y k Hy. unfold compose. cbv beta in Hy |- *.
      rewrite Hy, Hy1.
      replace (Z.of_nat (S (S k))) with (1 + Z.of_nat (S k))%Z by lia.
      rewrite Qpower_plus by (intros E; discriminate E).
      change (Qpower DSPUtils.DCBlocker.R 1) with DSPUtils.DCBlocker.R. ring.
Qed.

(** X2: the DC blocker removes a constant offset.  Fed the constant [c]
    from its reset state, it answers [c] at first and then decays
    geometrically: output number [k] (from 0) is [c * 0.995^k]. *)
Theorem dcBlocker_constant_input_decays (c : float) (n : nat) :
  Forall2 (fun y k => y == c * Qpower DSPUtils.DCBlocker.R (Z.of_nat k))
          (snd (dcBlocker_feed (replicate n c) DSPUtils.DCBlocker.init))
          (seq 0 n).
Proof.
  destruct n as [|n]; [constructor|].
  cbn [replicate dcBlocker_feed seq].
  unfold DSPUtils.DCBlocker.process at 1. cbv zeta.
  cbn [DSPUtils.DCBlocker.x1 DSPUtils.DCBlocker.y1 DSPUtils.DCBlocker.init].
  set (d1 := {| DSPUtils.DCBlocker.x1 := c;
                DSPUtils.DCBlocker.y1 := c - 0 + DSPUtils.DCBlocker.R * 0 |}).
  pose proof (dcBlocker_feed_constant c n d1 eq_refl) as H.
  destruct (dcBlocker_feed (replicate n c) d1) as [d2 ys]. cbn [snd] in *.
  constructor.
  - cbv beta. change (Qpower DSPUtils.DCBlocker.R (Z.of_nat 0)) with 1. ring.
  - rewrite <- seq_shift. apply Forall2_fmap_r.
    eapply Forall2_impl; [exact H|]. intros y k Hy. unfold compose. cbv beta in Hy |- *.
    rewrite Hy. unfold d1. cbn [DSPUtils.DCBlocker.y1]. ring.
Qed.

(** X3: the peak limiter never amplifies.  With a non-negative threshold
    the gain it applies lies in [[0, 1]], so the output is no larger than
    the input in absolute value, whatever the state of the follower. *)
Theorem peakLimiter_never_amplifies (input : float) (l : DSPUtils.PeakLimiter.t) :
  0 <= DSPUtils.PeakLimiter.threshold l ->
  Qabs (snd (DSPUtils.PeakLimiter.process input l)) <= Qabs input
  /\ DSPUtils.PeakLimiter.threshold (fst (DSPUtils.PeakLimiter.process input l))
     = DSPUtils.PeakLimiter.threshold l.
Proof.
  intros Hthr. split; [|reflexivity].
  unfold DSPUtils.PeakLimiter.process. cbv zeta. cbn [snd].
  set (env := if Qgtb (Qabs input) (DSPUtils.PeakLimiter.envelope l) then _ else _).
  assert (Hgain : 0 <= (if Qgtb env (DSPUtils.PeakLimiter.threshold l)
                        then DSPUtils.PeakLimiter.threshold l / env else 1) <= 1).
  { destruct (Qgtb env _) eqn:E; [|lra].
    apply Qgtb_true in E. split.
    - apply Qdiv_nonneg; lra.
    - apply Qle_shift_div_r; lra. }
  apply Qabs_scale_le; [lra | exact Hgain].
Qed.

Lemma peakLimiter_never_amplifies_witness :
  Qabs (snd (DSPUtils.PeakLimiter.process 2 DSPUtils.PeakLimiter.init)) <= Qabs 2
  /\ DSPUtils.PeakLimiter.threshold
       (fst (DSPUtils.PeakLimiter.process 2 DSPUtils.PeakLimiter.init))
     = DSPUtils.PeakLimiter.threshold DSPUtils.PeakLimiter.init.
Proof.
  apply (peakLimiter_never_amplifies 2 DSPUtils.PeakLimiter.init).
  apply Qle_bool_iff. reflexivity.
Defined.

(** X4: the grain window closes at both ends.  For an overlap below 1 the
    gain at phase 0 and at phase 1 is 0, whatever the cosine of the math
    library; and where that cosine lies in [[-1, 1]], the gain at a phase in
    [[0, 1]] lies in [[0, 1]]. *)
Theorem grainWindow_closes_at_both_ends (M : Libm) (phase overlap : float) :
  0 <= overlap < 1 ->
  0 <= phase <= 1 ->
  DSPUtils.GrainWindow.getGainAt M 0 overlap == 0
  /\ DSPUtils.GrainWindow.getGainAt M 1 overlap == 0
  /\ (- (1) <= cos M (2 * pi_f * phase) <= 1 ->
      0 <= DSPUtils.GrainWindow.getGainAt M phase overlap <= 1).
Proof.
  intros [Ho0 Ho1] [Hp0 Hp1].
  assert (Hedge : 0 < (1 - overlap) * 0.5) by lra.
  unfold DSPUtils.GrainWindow.getGainAt. cbv zeta.
  split; [|split].
  - assert (E : Qltb 0 ((1 - overlap) * 0.5) = true) by (apply Qltb_true; exact Hedge).
    rewrite E. unfold Qdiv. ring.
  - assert (E1 : Qltb 1 ((1 - overlap) * 0.5) = false) by (apply Qltb_false; lra).
    assert (E2 : Qgtb 1 (1 - (1 - overlap) * 0.5) = true) by (apply Qgtb_true; lra).
    rewrite E1, E2. unfold Qdiv. ring.
  - intros [Hc0 Hc1].
    set (hann := 0.5 * (1 - cos M (2 * pi_f * phase))).
    assert (Hhann : 0 <= hann <= 1) by (unfold hann; lra).
    assert (Hsq : forall x, 0 <= x <= 1 -> 0 <= x * x <= 1) by (intros x Hx; nra).
    assert (Hprod : forall x, 0 <= x <= 1 -> 0 <= hann * x <= 1) by (intros x Hx; nra).
    destruct (Qltb phase _) eqn:E1.
    + apply Qltb_true in E1. apply Hprod, Hsq. split.
      * apply Qdiv_nonneg; lra.
      * apply Qle_shift_div_r; lra.
    + destruct (Qgtb phase _) eqn:E2.
      * apply Qgtb_true in E2. apply Hprod, Hsq. split.
        -- apply Qdiv_nonneg; lra.
        -- apply Qle_shift_div_r; lra.
      * exact Hhann.
Qed.

Lemma grainWindow_closes_at_both_ends_witness :
  DSPUtils.GrainWindow.getGainAt libm_ref 0 0.5 == 0
  /\ DSPUtils.GrainWindow.getGainAt libm_ref 1 0.5 == 0
  /\ (- (1) <= cos libm_ref (2 * pi_f * 0) <= 1 ->
      0 <= DSPUtils.GrainWindow.getGainAt libm_ref 0 0.5 <= 1).
Proof.
  apply (grainWindow_closes_at_both_ends libm_ref 0 0.5).
  - split; [apply Qle_bool_iff | apply Qltb_true]; reflexivity.
  - split; apply Qle_bool_iff; reflexivity.
Defined.

(** ** Loading *)

(** [ring] on equations of which one side is headed by a function that
    returns [float]. *)
Ltac qring := first [ring | symmetry; ring | reflexivity].

Lemma nth_alter_eq {A : Type} (f : A -> A) (i : nat) (l : list A) (d : A) :
  (i < length l)%nat -> nth i (alter f i l) d = f (nth i l d).
Proof.
  revert i. induction l as [|x l IH]; intros [|i] H; cbn in *; try lia; auto.
  apply IH. lia.
Qed.

Lemma nth_alter_ne {A : Type} (f : A -> A) (i j : nat) (l : list A) (d : A) :
  i <> j -> nth j (alter f i l) d = nth j l d.
Proof.
  revert i j. induction l as [|x l IH]; intros [|i] [|j] H; cbn; try congruence.
  apply IH. congruence.
Qed.

Lemma nth_alter_beyond {A : Type} (f : A -> A) (i j : nat) (l : list A) (d : A) :
  (length l <= j)%nat -> nth j (alter f i l) d = d.
Proof.
  intros H. apply nth_overflow. rewrite length_alter. exact H.
Qed.

(** [data[i] *= g] on one channel, seen from any sample of any channel. *)
Lemma getSample_scaleSample (channel i : nat) (g : float) (b : AudioBuffer.t)
      (ch j : nat) :
  AudioBuffer.getSample (AudioBuffer.scaleSample channel i g b) ch j
  == AudioBuffer.getSample b ch j
     * (if ((channel =? ch)%nat && (i =? j)%nat)%bool then g else 1).
Proof.
  unfold AudioBuffer.getSample, AudioBuffer.getReadPointer, AudioBuffer.scaleSample.
  cbn [AudioBuffer.channels]. unfold float in *.
  destruct (Nat.eqb_spec channel ch) as [->|Hc]; cbn [andb].
  - destruct (Nat.lt_ge_cases ch (length (AudioBuffer.channels b))) as [Hch|Hch].
    + rewrite nth_alter_eq by exact Hch.
      destruct (Nat.eqb_spec i j) as [->|Hij].
      * destruct (Nat.lt_ge_cases j (length (nth ch (AudioBuffer.channels b) [])))
          as [Hj|Hj].
        -- rewrite nth_alter_eq by exact Hj. reflexivity.
        -- rewrite nth_alter_beyond by exact Hj.
           rewrite (nth_overflow _ _ Hj). ring.
      * rewrite nth_alter_ne by exact Hij. ring.
    + rewrite nth_alter_beyond by exact Hch.
      rewrite (nth_overflow _ _ Hch).
      destruct j; cbn; destruct (i =? _)%nat; ring.
  - rewrite nth_alter_ne by exact Hc. ring.
Qed.

Lemma getNumChannels_scaleSample (channel i : nat) (g : float) (b : AudioBuffer.t) :
  AudioBuffer.getNumChannels (AudioBuffer.scaleSample channel i g b)
  = AudioBuffer.getNumChannels b.
Proof. unfold AudioBuffer.getNumChannels. cbn. apply length_alter. Qed.

(** One step of the fade loop: the loop over the channels scales samples
    [i] and [n - 1 - i] of every channel by [g]. *)
Lemma fade_step (n i : nat) (g : float) (b : AudioBuffer.t) (ch j : nat) :
  AudioBuffer.getSample
    (for_loop (AudioBuffer.getNumChannels b)
       (fun channel buf =>
          AudioBuffer.scaleSample channel (n - 1 - i) g
            (AudioBuffer.scaleSample channel i g buf))
       b) ch j
  == AudioBuffer.getSample b ch j
     * (if (i =? j)%nat then g else 1)
     * (if (n - 1 - i =? j)%nat then g else 1).
Proof.
  set (body := fun channel buf =>
                 AudioBuffer.scaleSample channel (n - 1 - i) g
                   (AudioBuffer.scaleSample channel i g buf)).
  assert (H : forall c, (c <= AudioBuffer.getNumChannels b)%nat ->
            AudioBuffer.getNumChannels (for_loop c body b)
            = AudioBuffer.getNumChannels b
            /\ AudioBuffer.getSample (for_loop c body b) ch j
               == AudioBuffer.getSample b ch j
                  * (if (ch <? c)%nat
                     then (if (i =? j)%nat then g else 1)
                          * (if (n - 1 - i =? j)%nat then g else 1)
                     else 1)).
  { induction c as [|c IH]; intros Hc.
    - split; [reflexivity | cbn; qring].
    - destruct (IH ltac:(lia)) as [Hn Hs]. rewrite for_loop_S. unfold body at 1 3.
      split; [rewrite !getNumChannels_scaleSample; exact Hn|].
      rewrite !getSample_scaleSample, Hs.
      destruct (Nat.eqb_spec c ch) as [->|Hne]; cbn [andb].
      + rewrite Nat.ltb_irrefl.
        assert (E : (ch <? S ch)%nat = true) by (apply Nat.ltb_lt; lia).
        rewrite E. qring.
      + destruct (Nat.ltb_spec ch c), (Nat.ltb_spec ch (S c)); try lia; qring. }
  destruct (H _ (Nat.le_refl _)) as [_ Hs]. rewrite Hs.
  destruct (Nat.ltb_spec ch (AudioBuffer.getNumChannels b)) as [Hlt|Hge]; [qring|].
  assert (E : AudioBuffer.getSample b ch j = 0).
  { unfold AudioBuffer.getSample, AudioBuffer.getReadPointer.
    rewrite (nth_overflow (AudioBuffer.channels b) [] Hge). destruct j; reflexivity. }
  rewrite E. qring.
Qed.

Lemma fadeGainUpTo_succ (fadeLength n k j : nat) :
  (S k <= n)%nat ->
  fadeGainUpTo fadeLength n (S k) j
  == fadeGainUpTo fadeLength n k j
     * (if (k =? j)%nat then smoothGain fadeLength k else 1)
     * (if (n - 1 - k =? j)%nat then smoothGain fadeLength k else 1).
Proof.
  intros Hk. unfold fadeGainUpTo.
  destruct (Nat.eqb_spec k j) as [<-|Hkj].
  - assert (E1 : (k <? S k)%nat = true) by (apply Nat.ltb_lt; lia).
    rewrite E1, Nat.ltb_irrefl.
    destruct (Nat.eqb_spec (n - 1 - k) k) as [E|E].
    + assert (E2 : ((n - S k <=? k)%nat && (k <? n)%nat)%bool = true).
      { apply andb_true_iff. split; [apply Nat.leb_le | apply Nat.ltb_lt]; lia. }
      assert (E3 : ((n - k <=? k)%nat && (k <? n)%nat)%bool = false).
      { apply andb_false_iff. left. apply Nat.leb_gt. lia. }
      rewrite E2, E3, E. ring.
    + assert (E2 : (n - S k <=? k)%nat = (n - k <=? k)%nat).
      { destruct (Nat.leb_spec (n - S k) k), (Nat.leb_spec (n - k) k); lia || reflexivity. }
      rewrite E2. ring.
  - assert (E1 : (j <? S k)%nat = (j <? k)%nat).
    { destruct (Nat.ltb_spec j (S k)), (Nat.ltb_spec j k); lia || reflexivity. }
    rewrite E1.
    destruct (Nat.eqb_spec (n - 1 - k) j) as [<-|E].
    + assert (E2 : ((n - S k <=? n - 1 - k)%nat && (n - 1 - k <? n)%nat)%bool = true).
      { apply andb_true_iff. split; [apply Nat.leb_le | apply Nat.ltb_lt]; lia. }
      assert (E3 : ((n - k <=? n - 1 - k)%nat && (n - 1 - k <? n)%nat)%bool = false).
      { apply andb_false_iff. left. apply Nat.leb_gt. lia. }
      rewrite E2, E3. replace (n - 1 - (n - 1 - k))%nat with k by lia. ring.
    + assert (E2 : (n - S k <=? j)%nat = (n - k <=? j)%nat).
      { destruct (Nat.leb_spec (n - S k) j), (Nat.leb_spec (n - k) j); lia || reflexivity. }
      rewrite E2. ring.
Qed.

(** Sample [j] of each channel is multiplied by [fadeGain n j]. *)
Lemma applyFades_gain (s : SamplePlayer.t) (ch j : nat) :
  AudioBuffer.getSample (SamplePlayer.fileBuffer (SamplePlayer.applyFades s)) ch j
  == AudioBuffer.getSample (SamplePlayer.fileBuffer s) ch j
     * fadeGain (AudioBuffer.getNumSamples (SamplePlayer.fileBuffer s)) j.
Proof.
  unfold SamplePlayer.applyFades, fadeGain.
  set (n := AudioBuffer.getNumSamples (SamplePlayer.fileBuffer s)).
  destruct (Nat.ltb_spec n 100) as [Hn|Hn]; [qring|].
  cbn [SamplePlayer.fileBuffer SamplePlayer.with_fileBuffer].
  set (F := Nat.min 1000 (n / 10)).
  assert (HF : (F <= n / 10)%nat) by (unfold F; lia).
  assert (Hdiv : (n / 10 * 10 <= n)%nat).
  { rewrite Nat.mul_comm. apply Nat.Div0.mul_div_le. }
  set (body := fun (i : nat) (buf : AudioBuffer.t) => _).
  assert (H : forall k, (k <= F)%nat ->
            AudioBuffer.getSample (for_loop k body (SamplePlayer.fileBuffer s)) ch j
            == AudioBuffer.getSample (SamplePlayer.fileBuffer s) ch j
               * fadeGainUpTo F n k j).
  { induction k as [|k IH]; intros Hk.
    - unfold fadeGainUpTo.
      assert (E0 : (j <? 0)%nat = false) by (apply Nat.ltb_ge; lia).
      assert (E : ((n - 0 <=? j)%nat && (j <? n)%nat)%bool = false).
      { rewrite Nat.sub_0_r.
        destruct (Nat.leb_spec n j), (Nat.ltb_spec j n); cbn; lia || reflexivity. }
      rewrite E0, E. cbn [for_loop seq fold_left]. qring.
    - rewrite for_loop_S. unfold body at 1.
      rewrite (fade_step n k (smoothGain F k)), (IH ltac:(lia)).
      rewrite (fadeGainUpTo_succ F n k j) by lia. ring. }
  apply H. lia.
Qed.

(** The fade gain at the ends and in the middle of a buffer of at least
    100 samples. *)
Lemma fadeGain_shape (n j : nat) :
  (100 <= n)%nat ->
  fadeGain n 0 == 0
  /\ fadeGain n (n - 1) == 0
  /\ ((Nat.min 1000 (n / 10) <= j < n - Nat.min 1000 (n / 10))%nat ->
      fadeGain n j == 1).
Proof.
  intros Hn. unfold fadeGain.
  assert (E : (n <? 100)%nat = false) by (apply Nat.ltb_ge; exact Hn).
  rewrite E. set (F := Nat.min 1000 (n / 10)).
  assert (Hdiv : (n / 10 * 10 <= n)%nat).
  { rewrite Nat.mul_comm. apply Nat.Div0.mul_div_le. }
  assert (HF : (1 <= F <= n / 10)%nat).
  { unfold F. assert (10 <= n / 10)%nat by (apply Nat.div_le_lower_bound; lia). lia. }
  assert (Hzero : smoothGain F 0 == 0).
  { unfold smoothGain. cbn [Z.of_nat]. unfold Qdiv. ring. }
  unfold fadeGainUpTo. split; [|split].
  - assert (E1 : (0 <? F)%nat = true) by (apply Nat.ltb_lt; lia).
    rewrite E1, Hzero. ring.
  - assert (E1 : ((n - F <=? n - 1)%nat && (n - 1 <? n)%nat)%bool = true).
    { apply andb_true_iff. split; [apply Nat.leb_le | apply Nat.ltb_lt]; lia. }
    rewrite E1. replace (n - 1 - (n - 1))%nat with 0%nat by lia.
    rewrite Hzero. ring.
  - intros Hj.
    assert (E1 : (j <? F)%nat = false) by (apply Nat.ltb_ge; lia).
    assert (E2 : ((n - F <=? j)%nat && (j <? n)%nat)%bool = false).
    { apply andb_false_iff. left. apply Nat.leb_gt. lia. }
    rewrite E1, E2. ring.
Qed.

Lemma smoothGain_in_unit (fadeLength i : nat) :
  (i < fadeLength)%nat -> 0 <= smoothGain fadeLength i <= 1.
Proof.
  intros H. unfold smoothGain. cbv zeta.
  apply smoothGain_unit, fade_gain_unit, H.
Qed.

Lemma fadeGain_unit (n j : nat) : 0 <= fadeGain n j <= 1.
Proof.
  unfold fadeGain. destruct (n <? 100)%nat; [lra|].
  set (F := Nat.min 1000 (n / 10)). unfold fadeGainUpTo.
  assert (HA : 0 <= (if (j <? F)%nat then smoothGain F j else 1) <= 1).
  { destruct (Nat.ltb_spec j F); [apply smoothGain_in_unit; assumption | lra]. }
  assert (HB : 0 <= (if ((n - F <=? j)%nat && (j <? n)%nat)%bool
                     then smoothGain F (n - 1 - j) else 1) <= 1).
  { destruct (Nat.leb_spec (n - F) j), (Nat.ltb_spec j n); cbn [andb]; try lra.
    apply smoothGain_in_unit. lia. }
  revert HA HB.
  generalize (if (j <? F)%nat then smoothGain F j else 1).
  generalize (if ((n - F <=? j)%nat && (j <? n)%nat)%bool
              then smoothGain F (n - 1 - j) else 1).
  intros q0 q1 H1 H0. split; [apply Qmult_le_0_compat; lra | nra].
Qed.

(** X7: what [applyFades] does to every sample.  Sample [j] of each
    channel is multiplied by a gain that depends only on [j] and on the
    length of the buffer: the cubic fade curve over the first
    [min (1000, n / 10)] samples, its mirror image over the last ones, and 1
    in between and throughout a buffer of fewer than 100 samples.  The gain
    lies in [[0, 1]], so no sample changes sign or grows. *)
Theorem applyFades_scales_each_sample (s : SamplePlayer.t) (ch j : nat) :
  let n := AudioBuffer.getNumSamples (SamplePlayer.fileBuffer s) in
  AudioBuffer.getSample (SamplePlayer.fileBuffer (SamplePlayer.applyFades s)) ch j
  == AudioBuffer.getSample (SamplePlayer.fileBuffer s) ch j * fadeGain n j
  /\ 0 <= fadeGain n j <= 1.
Proof.
  cbv zeta. split; [apply applyFades_gain | apply fadeGain_unit].
Qed.

(** X8: on a buffer of at least 100 samples [applyFades] brings the first
    and the last sample of every channel to exactly 0 and leaves every
    sample between the two fade regions as it was. *)
Theorem applyFades_zeroes_the_ends (s : SamplePlayer.t) (ch j : nat) :
  let n := AudioBuffer.getNumSamples (SamplePlayer.fileBuffer s) in
  let faded := SamplePlayer.fileBuffer (SamplePlayer.applyFades s) in
  (100 <= n)%nat ->
  AudioBuffer.getSample faded ch 0 == 0
  /\ AudioBuffer.getSample faded ch (n - 1) == 0
  /\ ((Nat.min 1000 (n / 10) <= j < n - Nat.min 1000 (n / 10))%nat ->
      AudioBuffer.getSample faded ch j
      == AudioBuffer.getSample (SamplePlayer.fileBuffer s) ch j).
Proof.
  cbv zeta. intros Hn.
  destruct (fadeGain_shape _ j Hn) as (H0 & H1 & Hmid).
  split; [|split].
  - rewrite applyFades_gain, H0. qring.
  - rewrite applyFades_gain, H1. qring.
  - intros Hj. rewrite applyFades_gain, (Hmid Hj). qring.
Qed.

Lemma shape_scaleSample (channel i : nat) (g : float) (b : AudioBuffer.t) :
  shape (AudioBuffer.scaleSample channel i g b) = shape b.
Proof.
  unfold shape, AudioBuffer.scaleSample. cbn [AudioBuffer.numSamples AudioBuffer.channels].
  f_equal. generalize (AudioBuffer.channels b) as l. clear b.
  intros l. revert channel. induction l as [|c l IH]; intros [|channel]; cbn; try reflexivity.
  - f_equal. apply length_alter.
  - f_equal. apply IH.
Qed.

Lemma shape_applyFades (s : SamplePlayer.t) :
  shape (SamplePlayer.fileBuffer (SamplePlayer.applyFades s))
  = shape (SamplePlayer.fileBuffer s).
Proof.
  unfold SamplePlayer.applyFades.
  destruct (_ <? 100)%nat; [reflexivity|].
  cbn [SamplePlayer.fileBuffer SamplePlayer.with_fileBuffer].
  apply (for_loop_ind (fun _ buf => shape buf = shape (SamplePlayer.fileBuffer s)));
    [reflexivity|].
  intros i buf _ Hbuf.
  apply (for_loop_ind (fun _ buf => shape buf = shape (SamplePlayer.fileBuffer s)));
    [exact Hbuf|].
  intros channel buf' _ Hbuf'. cbv zeta.
  rewrite !shape_scaleSample. exact Hbuf'.
Qed.

Lemma length_dcBlockPass (d : DSPUtils.DCBlocker.t) (m : Q) (c : list Q) :
  length (snd (SamplePlayer.dcBlockPass d m c)) = length c.
Proof.
  revert d m. induction c as [|x c IH]; intros d m; [reflexivity|].
  rewrite dcBlockPass_cons. cbv zeta. cbn [snd length]. f_equal. apply IH.
Qed.

Lemma lengths_dcBlockChannels (d : DSPUtils.DCBlocker.t) (m : Q)
      (chans : list (list Q)) :
  map length (snd (SamplePlayer.dcBlockChannels d m chans)) = map length chans.
Proof.
  revert d m. induction chans as [|c chans IH]; intros d m; [reflexivity|].
  rewrite dcBlockChannels_cons. cbv zeta. cbn [snd map].
  f_equal; [apply length_dcBlockPass | apply IH].
Qed.

Lemma shape_readInto (r : AudioFormatReader) :
  shape (SamplePlayer.readInto r)
  = (lengthInSamples r, replicate (numChannels r) (lengthInSamples r)).
Proof.
  unfold shape, SamplePlayer.readInto. cbn [AudioBuffer.numSamples AudioBuffer.channels].
  f_equal. rewrite map_map.
  assert (H : forall l : list (list float),
             map (fun c => length (resize (lengthInSamples r) 0 c)) l
             = replicate (length l) (lengthInSamples r)).
  { induction l as [|c l IH]; [reflexivity|].
    cbn [map length replicate]. rewrite length_resize, IH. reflexivity. }
  rewrite H, length_resize. reflexivity.
Qed.

(** [loadFile] on a readable file is [applyFades] on a state whose buffer
    has the shape the reader announces. *)
Lemma loadFile_as_applyFades (r : AudioFormatReader) (s : SamplePlayer.t) :
  exists s',
    SamplePlayer.loadFile (Some r) s = SamplePlayer.applyFades s'
    /\ shape (SamplePlayer.fileBuffer s')
       = (lengthInSamples r, replicate (numChannels r) (lengthInSamples r))
    /\ SamplePlayer.voices s' = SamplePlayer.voices s.
Proof.
  unfold SamplePlayer.loadFile.
  cbn [SamplePlayer.fileBuffer SamplePlayer.with_fileBuffer
       SamplePlayer.with_reader SamplePlayer.with_fileSampleRate
       SamplePlayer.with_sampleRateRatio].
  pose proof (lengths_dcBlockChannels DSPUtils.DCBlocker.init 0
                (AudioBuffer.channels (SamplePlayer.readInto r))) as Hlen.
  pose proof (shape_readInto r) as Hr.
  destruct (SamplePlayer.dcBlockChannels _ _ _) as [[d m] chans].
  cbn [snd] in Hlen.
  pose proof (f_equal fst Hr) as Hn. pose proof (f_equal snd Hr) as Hc.
  unfold shape in Hn, Hc. cbn [fst snd] in Hn, Hc.
  eexists. split; [reflexivity|].
  destruct (Qgtb m 0); split; try reflexivity.
  - unfold shape, AudioBuffer.applyGain, AudioBuffer.mapChannels.
    cbn [SamplePlayer.fileBuffer SamplePlayer.with_fileBuffer
         AudioBuffer.numSamples AudioBuffer.channels].
    rewrite map_map.
    rewrite (map_ext _ length) by (intros c; apply length_map).
    f_equal. exact (eq_trans Hlen Hc).
  - unfold shape.
    cbn [SamplePlayer.fileBuffer SamplePlayer.with_fileBuffer
         AudioBuffer.numSamples AudioBuffer.channels].
    f_equal. exact (eq_trans Hlen Hc).
Qed.

(** X9: the buffer [loadFile] stores has the shape the reader announces,
    whatever the decoder delivered: [lengthInSamples] samples on each of
    [numChannels] channels. *)
Theorem loadFile_buffer_has_announced_shape (r : AudioFormatReader)
        (s : SamplePlayer.t) :
  let loaded := SamplePlayer.fileBuffer (SamplePlayer.loadFile (Some r) s) in
  AudioBuffer.getNumSamples loaded = lengthInSamples r
  /\ AudioBuffer.getNumChannels loaded = numChannels r
  /\ rectangular loaded.
Proof.
  cbv zeta. destruct (loadFile_as_applyFades r s) as (s' & -> & Hs & _).
  rewrite <- shape_applyFades in Hs. unfold shape in Hs. injection Hs as Hn Hc.
  unfold AudioBuffer.getNumSamples, AudioBuffer.getNumChannels, rectangular.
  split; [exact Hn|]. split.
  - rewrite <- (length_map length), Hc. apply length_replicate.
  - rewrite Hn.
    assert (H : Forall (fun k => k = lengthInSamples r)
                  (map length (AudioBuffer.channels
                     (SamplePlayer.fileBuffer (SamplePlayer.applyFades s'))))).
    { rewrite Hc. apply Forall_replicate. reflexivity. }
    apply Forall_map in H. exact H.
Qed.

(** X10: a file of at least 100 samples is stored with an exact 0 as the
    first and as the last sample of every channel. *)
Theorem loadFile_starts_and_ends_at_zero (r : AudioFormatReader)
        (s : SamplePlayer.t) (ch : nat) :
  let loaded := SamplePlayer.fileBuffer (SamplePlayer.loadFile (Some r) s) in
  (100 <= lengthInSamples r)%nat ->
  AudioBuffer.getSample loaded ch 0 == 0
  /\ AudioBuffer.getSample loaded ch (lengthInSamples r - 1) == 0.
Proof.
  cbv zeta. intros Hn.
  destruct (loadFile_as_applyFades r s) as (s' & -> & Hs & _).
  unfold shape in Hs. injection Hs as Hlen _.
  assert (Hn' : (100 <= AudioBuffer.getNumSamples (SamplePlayer.fileBuffer s'))%nat).
  { unfold AudioBuffer.getNumSamples. rewrite Hlen. exact Hn. }
  destruct (fadeGain_shape _ 0%nat Hn') as (H0 & H1 & _).
  split.
  - rewrite applyFades_gain, H0. qring.
  - rewrite <- Hlen. change (AudioBuffer.numSamples (SamplePlayer.fileBuffer s'))
      with (AudioBuffer.getNumSamples (SamplePlayer.fileBuffer s')).
    rewrite applyFades_gain, H1. qring.
Qed.

Lemma applyFades_zeroes_the_ends_witness :
  let faded := SamplePlayer.fileBuffer (SamplePlayer.applyFades demo_unfaded) in
  AudioBuffer.getSample faded 0 0 == 0
  /\ AudioBuffer.getSample faded 0 99 == 0
  /\ AudioBuffer.getSample faded 0 50
     == AudioBuffer.getSample (SamplePlayer.fileBuffer demo_unfaded) 0 50.
Proof.
  cbv zeta.
  destruct (applyFades_zeroes_the_ends demo_unfaded 0 50) as (H0 & H1 & Hmid).
  - cbn. lia.
  - split; [exact H0|]. split; [exact H1|]. apply Hmid. cbn. lia.
Defined.

Lemma loadFile_starts_and_ends_at_zero_witness :
  let loaded :=
    SamplePlayer.fileBuffer
      (SamplePlayer.loadFile (Some (constant_file 100 1)) SamplePlayer.construct) in
  AudioBuffer.getSample loaded 0 0 == 0
  /\ AudioBuffer.getSample loaded 0 (100 - 1) == 0.
Proof.
  apply (loadFile_starts_and_ends_at_zero (constant_file 100 1)
           SamplePlayer.construct 0).
  cbn. lia.
Defined.

(** ** Hold mode *)

Lemma numSamplesQ_pos (s : SamplePlayer.t) :
  (0 < AudioBuffer.getNumSamples (SamplePlayer.fileBuffer s))%nat ->
  0 < SamplePlayer.numSamplesQ s.
Proof.
  intros H. unfold SamplePlayer.numSamplesQ.
  change 0 with (inject_Z 0). rewrite <- Zlt_Qlt. lia.
Qed.

Lemma fileBuffer_setHoldPosition (x : double) (s : SamplePlayer.t) :
  SamplePlayer.fileBuffer (SamplePlayer.setHoldPosition x s)
  = SamplePlayer.fileBuffer s.
Proof.
  unfold SamplePlayer.setHoldPosition.
  destruct (0 <? _)%nat; [|reflexivity]. cbv zeta.
  cbn [SamplePlayer.isHoldMode SamplePlayer.with_holdPosition].
  destruct (SamplePlayer.isHoldMode s); reflexivity.
Qed.

Lemma holdPosition_setHoldPosition (x : double) (s : SamplePlayer.t) :
  (0 < AudioBuffer.getNumSamples (SamplePlayer.fileBuffer s))%nat ->
  SamplePlayer.holdPosition (SamplePlayer.setHoldPosition x s)
  = x * SamplePlayer.numSamplesQ s.
Proof.
  intros H. unfold SamplePlayer.setHoldPosition.
  apply Nat.ltb_lt in H. rewrite H. cbv zeta.
  cbn [SamplePlayer.isHoldMode SamplePlayer.with_holdPosition].
  destruct (SamplePlayer.isHoldMode s); reflexivity.
Qed.

(** X11: with a file loaded, [getHoldPosition] reads back the normalised
    position that [setHoldPosition] was given, whatever the value and
    whether or not hold mode is on. *)
Theorem getHoldPosition_reads_back_setHoldPosition (x : double)
        (s : SamplePlayer.t) :
  (0 < AudioBuffer.getNumSamples (SamplePlayer.fileBuffer s))%nat ->
  SamplePlayer.getHoldPosition (SamplePlayer.setHoldPosition x s) == x.
Proof.
  intros H. unfold SamplePlayer.getHoldPosition.
  rewrite fileBuffer_setHoldPosition.
  pose proof (numSamplesQ_pos s H) as Hpos.
  assert (E : SamplePlayer.numSamplesQ (SamplePlayer.setHoldPosition x s)
              = SamplePlayer.numSamplesQ s).
  { unfold SamplePlayer.numSamplesQ. rewrite fileBuffer_setHoldPosition. reflexivity. }
  rewrite E, (holdPosition_setHoldPosition x s H).
  apply Nat.ltb_lt in H. rewrite H. field. lra.
Qed.

Lemma getHoldPosition_reads_back_setHoldPosition_witness :
  SamplePlayer.getHoldPosition (SamplePlayer.setHoldPosition 0.25 demo_loaded)
  == 0.25.
Proof.
  apply (getHoldPosition_reads_back_setHoldPosition 0.25 demo_loaded).
  lazy. lia.
Defined.

(** X12: the hold button of the editor.  Switching hold on while voices
    sound, with a file loaded, stores the position of the first active voice
    as the hold position and moves every active voice onto it; the inactive
    voices are left as they are. *)
Theorem hold_button_gathers_active_voices (s : SamplePlayer.t) (first : Voice.t) :
  let s' := PluginEditor.holdButtonClicked true s in
  (0 < AudioBuffer.getNumSamples (SamplePlayer.fileBuffer s))%nat ->
  List.find Voice.isActive (SamplePlayer.voices s) = Some first ->
  SamplePlayer.isHoldMode s' = true
  /\ SamplePlayer.holdPosition s' == Voice.position first
  /\ SamplePlayer.voices s'
     = map (fun voice =>
              if Voice.isActive voice
              then Voice.with_position (SamplePlayer.holdPosition s') voice
              else voice)
           (SamplePlayer.voices s).
Proof.
  cbv zeta. intros Hn Hfirst.
  pose proof (numSamplesQ_pos s Hn) as Hpos.
  apply Nat.ltb_lt in Hn.
  unfold PluginEditor.holdButtonClicked, SamplePlayer.setHoldMode.
  cbn [SamplePlayer.voices SamplePlayer.with_isHoldMode]. rewrite Hfirst.
  unfold SamplePlayer.getCurrentPosition, SamplePlayer.setHoldPosition.
  cbn [SamplePlayer.voices SamplePlayer.fileBuffer SamplePlayer.isHoldMode
       SamplePlayer.holdPosition SamplePlayer.with_holdPosition
       SamplePlayer.with_isHoldMode SamplePlayer.with_voices].
  rewrite Hfirst, Hn. cbv zeta.
  cbn [SamplePlayer.voices SamplePlayer.fileBuffer SamplePlayer.isHoldMode
       SamplePlayer.holdPosition SamplePlayer.with_holdPosition
       SamplePlayer.with_isHoldMode SamplePlayer.with_voices].
  split; [reflexivity|]. split; [|reflexivity].
  unfold SamplePlayer.numSamplesQ in *.
  cbn [SamplePlayer.fileBuffer SamplePlayer.with_holdPosition
       SamplePlayer.with_isHoldMode].
  field. lra.
Qed.

Lemma hold_button_gathers_active_voices_witness :
  let s' := PluginEditor.holdButtonClicked true demo_playing in
  SamplePlayer.isHoldMode s' = true
  /\ SamplePlayer.holdPosition s' == Voice.position (voiceAt 0 demo_playing)
  /\ SamplePlayer.voices s'
     = map (fun voice =>
              if Voice.isActive voice
              then Voice.with_position (SamplePlayer.holdPosition s') voice
              else voice)
           (SamplePlayer.voices demo_playing).
Proof.
  apply (hold_button_gathers_active_voices demo_playing (voiceAt 0 demo_playing)).
  - lazy. lia.
  - lazy. reflexivity.
Defined.

(** ** The voice pool *)

Lemma processVoices_idle (M : Libm) (numSamples : nat)
      (st : SamplePlayer.t * float) :
  Forall inactive (SamplePlayer.voices (fst st)) ->
  SamplePlayer.processVoices M numSamples st = st.
Proof.
  intros H. unfold SamplePlayer.processVoices.
  apply (for_loop_ind (fun _ acc => acc = st)); [reflexivity|].
  intros i acc _ ->.
  destruct (SamplePlayer.voices (fst st) !! i) as [voice|] eqn:E; [|reflexivity].
  pose proof (Forall_lookup_1 _ _ _ _ H E) as Hv. unfold inactive in Hv.
  rewrite Hv. reflexivity.
Qed.

Lemma halted_inactive (voice : Voice.t) : inactive (halted voice).
Proof.
  unfold inactive, halted. destruct (Voice.isActive voice) eqn:E; [reflexivity | exact E].
Qed.

Lemma find_inactive (vs : list Voice.t) :
  Forall inactive vs -> List.find Voice.isActive vs = None.
Proof.
  induction 1 as [|v vs Hv _ IH]; [reflexivity|].
  cbn. unfold inactive in Hv. rewrite Hv. exact IH.
Qed.

Lemma voices_stopAllVoices (M : Libm) (s : SamplePlayer.t) :
  SamplePlayer.voices (SamplePlayer.stopAllVoices M s)
  = map halted (SamplePlayer.voices s).
Proof.
  unfold SamplePlayer.stopAllVoices. cbv zeta.
  rewrite processBlock_voices.
  destruct (_ || _)%bool; [reflexivity|].
  rewrite processVoices_idle; [reflexivity|].
  cbn [fst SamplePlayer.voices SamplePlayer.with_tempBuffer SamplePlayer.with_voices].
  apply Forall_map. apply Forall_forall. intros v _. apply (halted_inactive v).
Qed.

(** X13: [stopAllVoices] leaves no voice active.  Every voice that was
    active has been reset (its envelope sent into a release of 0.02 s on the
    way, which the block processed afterwards never runs, the voice being
    inactive by then); the others are untouched; and the playhead reads 0. *)
Theorem stopAllVoices_deactivates_every_voice (M : Libm) (s : SamplePlayer.t) :
  let s' := SamplePlayer.stopAllVoices M s in
  SamplePlayer.voices s' = map halted (SamplePlayer.voices s)
  /\ Forall inactive (SamplePlayer.voices s')
  /\ SamplePlayer.getCurrentPosition s' = 0.
Proof.
  cbv zeta.
  assert (H : Forall inactive (SamplePlayer.voices (SamplePlayer.stopAllVoices M s))).
  { rewrite voices_stopAllVoices. apply Forall_map, Forall_forall.
    intros v _. apply (halted_inactive v). }
  split; [apply voices_stopAllVoices|]. split; [exact H|].
  unfold SamplePlayer.getCurrentPosition. rewrite (find_inactive _ H). reflexivity.
Qed.

Lemma findFreeFrom_first (i k : nat) (vs : list Voice.t) (v : Voice.t) :
  vs !! k = Some v -> Voice.isActive v = false ->
  (forall j w, (j < k)%nat -> vs !! j = Some w -> Voice.isActive w = true) ->
  SamplePlayer.findFreeFrom i vs = Some (i + k)%nat.
Proof.
  revert i k. induction vs as [|u vs IH]; intros i k Hk Hv Hbefore; [discriminate|].
  destruct k as [|k]; cbn in Hk |- *.
  - injection Hk as ->. rewrite Hv. cbn. f_equal. lia.
  - rewrite (Hbefore 0%nat u ltac:(lia) eq_refl). cbn.
    rewrite (IH (S i) k Hk Hv).
    + f_equal. lia.
    + intros j w Hj Hw. apply (Hbefore (S j) w); [lia | exact Hw].
Qed.

Lemma findFreeFrom_some (i j : nat) (vs : list Voice.t) (v : Voice.t) :
  vs !! j = Some v -> Voice.isActive v = false ->
  exists k, SamplePlayer.findFreeFrom i vs = Some k.
Proof.
  revert i j. induction vs as [|u vs IH]; intros i j Hj Hv; [discriminate|].
  cbn. destruct (Voice.isActive u) eqn:Eu; cbn; [|eexists; reflexivity].
  destruct j as [|j]; cbn in Hj.
  - injection Hj as ->. congruence.
  - apply (IH (S i) j Hj Hv).
Qed.

Lemma stealScan_in_range (vs : list Voice.t) :
  vs <> [] -> (fst (SamplePlayer.stealScan vs) < length vs)%nat.
Proof.
  intros Hne. unfold SamplePlayer.stealScan.
  assert (Hlen : (0 < length vs)%nat) by (destruct vs; [congruence | cbn; lia]).
  match goal with |- context [for_loop ?n ?b ?i] => set (r := for_loop n b i) end.
  enough (H : (fst r = 0 \/ fst r < length vs)%nat) by (unfold float in *; lia).
  unfold r.
  apply (for_loop_ind (fun n (st : nat * float) => (fst st = 0 \/ fst st < n)%nat)).
  - left. reflexivity.
  - intros i [idx low] Hi Hacc. cbn [fst] in *.
    destruct (vs !! i) as [v|]; [|cbn [fst]; lia].
    destruct (Qltb _ _); cbn [fst]; lia.
Qed.

Lemma acquireVoice_finds (s : SamplePlayer.t) :
  SamplePlayer.voices s <> [] ->
  exists k, snd (SamplePlayer.acquireVoice s) = Some k.
Proof.
  intros Hne. unfold SamplePlayer.acquireVoice.
  destruct (SamplePlayer.findFreeVoice s) as [k|]; [eexists; reflexivity|].
  destruct (if SamplePlayer.PlaybackMode_eqb _ _ then _ else _) as [k|];
    [eexists; reflexivity|].
  cbv zeta. cbn [snd]. unfold SamplePlayer.findFreeVoice, SamplePlayer.stealVoice.
  cbn [SamplePlayer.voices SamplePlayer.with_voices].
  pose proof (stealScan_in_range _ Hne) as Hin.
  destruct (lookup_lt_is_Some_2 _ _ Hin) as [v Hv].
  apply (findFreeFrom_some 0 (fst (SamplePlayer.stealScan (SamplePlayer.voices s)))
           _ (Voice.reset v)); [|reflexivity].
  rewrite list_lookup_alter_eq, Hv. reflexivity.
Qed.

(** X14: [startVoice] never drops a note.  Whatever the state of the pool
    and the playback mode, after the call some voice is active on the note
    just struck, with the given velocity and its envelope in Attack. *)
Theorem startVoice_always_sounds_the_note (M : Libm) (midiNoteNumber : Z)
        (velocity : float) (s : SamplePlayer.t) :
  SamplePlayer.voices s <> [] ->
  exists k voice,
    SamplePlayer.voices (SamplePlayer.startVoice M midiNoteNumber velocity s) !! k
    = Some voice
    /\ Voice.isActive voice = true
    /\ Voice.midiNote voice = midiNoteNumber
    /\ Voice.velocity voice = velocity
    /\ Envelope.state (Voice.envelope voice) = Envelope.Attack.
Proof.
  intros Hne. rewrite startVoice_unfold.
  destruct (acquireVoice_finds s Hne) as [k Hk].
  destruct (acquireVoice_frame s) as (_ & _ & Hlen).
  specialize (Hlen k Hk). rewrite Hk.
  destruct (lookup_lt_is_Some_2 _ _ Hlen) as [v Hv].
  exists k, (SamplePlayer.claimVoice M (fst (SamplePlayer.acquireVoice s))
               midiNoteNumber velocity v).
  cbn [SamplePlayer.voices SamplePlayer.with_voices].
  rewrite list_lookup_alter_eq, Hv.
  destruct (claimVoice_fields M (fst (SamplePlayer.acquireVoice s))
              midiNoteNumber velocity v) as (Ha & Hn & Hvel & _ & _ & Hst).
  repeat split; assumption.
Qed.

Lemma startVoice_always_sounds_the_note_witness :
  exists k voice,
    SamplePlayer.voices (SamplePlayer.startVoice libm_ref 64 1 demo_full_pool) !! k
    = Some voice
    /\ Voice.isActive voice = true
    /\ Voice.midiNote voice = 64%Z
    /\ Voice.velocity voice = 1
    /\ Envelope.state (Voice.envelope voice) = Envelope.Attack.
Proof.
  apply (startVoice_always_sounds_the_note libm_ref 64 1 demo_full_pool).
  lazy. discriminate.
Defined.

(** With a free voice in the pool, [startVoice] claims the first inactive
    voice in place. *)
Lemma startVoice_first_free (M : Libm) (midiNoteNumber : Z)
      (velocity : float) (s : SamplePlayer.t) (k : nat) (free : Voice.t) :
  SamplePlayer.voices s !! k = Some free ->
  Voice.isActive free = false ->
  (forall j w, (j < k)%nat -> SamplePlayer.voices s !! j = Some w ->
               Voice.isActive w = true) ->
  SamplePlayer.startVoice M midiNoteNumber velocity s
  = SamplePlayer.setVoice k
      (SamplePlayer.claimVoice M s midiNoteNumber velocity free) s.
Proof.
  intros Hk Hfree Hbefore. rewrite startVoice_unfold.
  assert (E : SamplePlayer.acquireVoice s = (s, Some k)).
  { unfold SamplePlayer.acquireVoice, SamplePlayer.findFreeVoice.
    rewrite (findFreeFrom_first 0 k _ free Hk Hfree Hbefore). reflexivity. }
  rewrite E. cbn [fst snd]. unfold SamplePlayer.setVoice. f_equal.
  apply list_eq. intros j. destruct (decide (j = k)) as [->|Hj].
  - rewrite list_lookup_alter_eq, Hk.
    rewrite list_lookup_insert_eq by (eapply lookup_lt_Some; exact Hk). reflexivity.
  - rewrite list_lookup_alter_ne by congruence.
    rewrite list_lookup_insert_ne by congruence. reflexivity.
Qed.

Lemma with_voices_restores (vs : list Voice.t) (s : SamplePlayer.t) :
  SamplePlayer.with_voices (SamplePlayer.voices s) (SamplePlayer.with_voices vs s) = s.
Proof. destruct s. reflexivity. Qed.

(** X15: with a free voice in the pool, [startVoice] claims the first
    inactive voice and nothing else: no voice is stolen, every other voice
    stays as it was, and so does every other member of the engine. *)
Theorem startVoice_takes_first_free_voice (M : Libm) (midiNoteNumber : Z)
        (velocity : float) (s : SamplePlayer.t) (k : nat) (free : Voice.t) :
  let s' := SamplePlayer.startVoice M midiNoteNumber velocity s in
  SamplePlayer.voices s !! k = Some free ->
  Voice.isActive free = false ->
  (forall j w, (j < k)%nat -> SamplePlayer.voices s !! j = Some w ->
               Voice.isActive w = true) ->
  SamplePlayer.voices s' !! k
  = Some (SamplePlayer.claimVoice M s midiNoteNumber velocity free)
  /\ (forall j, j <> k -> SamplePlayer.voices s' !! j = SamplePlayer.voices s !! j)
  /\ SamplePlayer.with_voices (SamplePlayer.voices s) s' = s.
Proof.
  cbv zeta. intros Hk Hfree Hbefore.
  rewrite (startVoice_first_free M midiNoteNumber velocity s k free Hk Hfree Hbefore).
  split; [exact (voices_setVoice_eq k _ free s Hk)|]. split.
  - intros j Hj. apply voices_setVoice_ne. congruence.
  - apply with_voices_restores.
Qed.

Lemma startVoice_takes_first_free_voice_witness :
  let s' := SamplePlayer.startVoice libm_ref 64 1 demo_playing in
  SamplePlayer.voices s' !! 1%nat
  = Some (SamplePlayer.claimVoice libm_ref demo_playing 64 1 (voiceAt 1 demo_playing))
  /\ (forall j, j <> 1%nat ->
        SamplePlayer.voices s' !! j = SamplePlayer.voices demo_playing !! j)
  /\ SamplePlayer.with_voices (SamplePlayer.voices demo_playing) s' = demo_playing.
Proof.
  apply (startVoice_takes_first_free_voice libm_ref 64 1 demo_playing 1
           (voiceAt 1 demo_playing)).
  - apply lookup_voiceAt. lazy. lia.
  - lazy. reflexivity.
  - intros j w Hj Hw. destruct j as [|j]; [|lia].
    apply (f_equal (fmap Voice.isActive)) in Hw. lazy in Hw.
    injection Hw as Hw. symmetry. exact Hw.
Defined.

(** X16: a note-on in Monophonic mode, with a file loaded, leaves exactly
    one voice sounding: the first voice of the pool takes the new note and
    every other voice is inactive, whatever was playing before. *)
Theorem monophonic_noteOn_leaves_one_voice (M : Libm) (noteNumber : Z)
        (floatVelocity : float) (s : SamplePlayer.t) :
  let s' := SamplePlayer.handleMidiMessage M (NoteOn noteNumber floatVelocity) s in
  (0 < AudioBuffer.getNumSamples (SamplePlayer.fileBuffer s))%nat ->
  SamplePlayer.playbackMode s = SamplePlayer.Monophonic ->
  SamplePlayer.voices s <> [] ->
  (exists voice, SamplePlayer.voices s' !! 0%nat = Some voice
                 /\ Voice.isActive voice = true
                 /\ Voice.midiNote voice = noteNumber
                 /\ Voice.position voice
                    = (if SamplePlayer.isHoldMode s' then SamplePlayer.holdPosition s'
                       else 0))
  /\ forall i voice, (0 < i)%nat -> SamplePlayer.voices s' !! i = Some voice ->
                     inactive voice.
Proof.
  cbv zeta. intros Hn Hmode Hne.
  rewrite (handleMidiMessage_noteOn M noteNumber floatVelocity s Hn), Hmode.
  set (s1 := SamplePlayer.stopAllVoices M s).
  assert (Hv1 : SamplePlayer.voices s1 = map halted (SamplePlayer.voices s))
    by apply voices_stopAllVoices.
  destruct (SamplePlayer.voices s) as [|v vs] eqn:Ev; [congruence|].
  cbn [map] in Hv1.
  rewrite (startVoice_first_free M noteNumber floatVelocity s1 0 (halted v)).
  - unfold SamplePlayer.setVoice.
    cbn [SamplePlayer.voices SamplePlayer.with_voices SamplePlayer.isHoldMode
         SamplePlayer.holdPosition].
    rewrite Hv1. cbn [insert list_insert]. split.
    + eexists. split; [reflexivity|].
      destruct (claimVoice_fields M s1 noteNumber floatVelocity (halted v))
        as (Ha & Hnote & _).
      split; [exact Ha|]. split; [exact Hnote|]. apply claimVoice_position.
    + intros i voice Hi Hvoice. destruct i as [|i]; [lia|].
      change (map halted vs !! i = Some voice) in Hvoice.
      rewrite lookup_map in Hvoice.
      destruct (vs !! i) as [w|]; [|discriminate].
      injection Hvoice as <-. apply halted_inactive.
  - rewrite Hv1. reflexivity.
  - apply halted_inactive.
  - intros j w Hj. lia.
Qed.

Lemma monophonic_noteOn_leaves_one_voice_witness :
  let s' := SamplePlayer.handleMidiMessage libm_ref (NoteOn 64 1) demo_mono in
  (exists voice, SamplePlayer.voices s' !! 0%nat = Some voice
                 /\ Voice.isActive voice = true
                 /\ Voice.midiNote voice = 64%Z
                 /\ Voice.position voice
                    = (if SamplePlayer.isHoldMode s' then SamplePlayer.holdPosition s'
                       else 0))
  /\ forall i voice, (0 < i)%nat -> SamplePlayer.voices s' !! i = Some voice ->
                     inactive voice.
Proof.
  apply (monophonic_noteOn_leaves_one_voice libm_ref 64 1 demo_mono).
  - lazy. lia.
  - reflexivity.
  - lazy. discriminate.
Defined.

(** ** The size of the pool *)

Lemma voices_applyFades (s : SamplePlayer.t) :
  SamplePlayer.voices (SamplePlayer.applyFades s) = SamplePlayer.voices s.
Proof.
  unfold SamplePlayer.applyFades. destruct (_ <? 100)%nat; reflexivity.
Qed.

Lemma voices_loadFile (file : option AudioFormatReader) (s : SamplePlayer.t) :
  SamplePlayer.voices (SamplePlayer.loadFile file s) = SamplePlayer.voices s.
Proof.
  destruct file as [r|]; [|reflexivity].
  destruct (loadFile_as_applyFades r s) as (s' & -> & _ & Hv).
  rewrite voices_applyFades. exact Hv.
Qed.

Lemma length_voices_stopVoice (midiNoteNumber : Z) (s : SamplePlayer.t) :
  length (SamplePlayer.voices (SamplePlayer.stopVoice midiNoteNumber s))
  = length (SamplePlayer.voices s).
Proof.
  rewrite voices_stopVoice. destruct (SamplePlayer.PlaybackMode_eqb _ _);
    [apply length_map | reflexivity].
Qed.

Lemma length_voices_updateGrains (i : nat) (s : SamplePlayer.t) :
  length (SamplePlayer.voices (SamplePlayer.updateGrains i s))
  = length (SamplePlayer.voices s).
Proof.
  destruct (SamplePlayer.voices s !! i) as [voice|] eqn:E.
  - rewrite (updateGrains_unfold i voice s E). cbv zeta.
    destruct (negb (SamplePlayer.isHoldMode s)).
    + destruct (_ && _)%bool; [|destruct (_ && _)%bool].
      * cbn. rewrite !length_insert. reflexivity.
      * rewrite length_voices_stopVoice. cbn. rewrite !length_insert. reflexivity.
      * cbn. rewrite !length_insert. reflexivity.
    + cbn. rewrite length_insert. reflexivity.
  - unfold SamplePlayer.updateGrains. rewrite E. reflexivity.
Qed.

Lemma length_voices_processVoiceSample (M : Libm) (i sample : nat)
      (st : SamplePlayer.t * float) :
  length (SamplePlayer.voices (fst (SamplePlayer.processVoiceSample M i sample st)))
  = length (SamplePlayer.voices (fst st)).
Proof.
  destruct st as [s maxLevel].
  destruct (SamplePlayer.voices s !! i) as [voice|] eqn:E.
  - destruct (processVoiceSample_shape M i sample voice s maxLevel E)
      as (voice' & temp & maxLevel' & _ & _ & _ & _ & ->).
    cbn [fst]. rewrite length_voices_updateGrains. cbn. apply length_insert.
  - unfold SamplePlayer.processVoiceSample. rewrite E. reflexivity.
Qed.

Lemma length_voices_processVoices (M : Libm) (numSamples : nat)
      (st : SamplePlayer.t * float) :
  length (SamplePlayer.voices (fst (SamplePlayer.processVoices M numSamples st)))
  = length (SamplePlayer.voices (fst st)).
Proof.
  unfold SamplePlayer.processVoices.
  apply (for_loop_ind
           (fun _ acc => length (SamplePlayer.voices (fst acc))
                         = length (SamplePlayer.voices (fst st)))); [reflexivity|].
  intros i acc _ Hacc.
  destruct (SamplePlayer.voices (fst acc) !! i) as [voice|]; [|exact Hacc].
  destruct (negb (Voice.isActive voice)); [exact Hacc|].
  apply (for_loop_ind
           (fun _ acc' => length (SamplePlayer.voices (fst acc'))
                          = length (SamplePlayer.voices (fst st)))); [exact Hacc|].
  intros sample acc' _ Hacc'.
  rewrite length_voices_processVoiceSample. exact Hacc'.
Qed.

Lemma length_voices_processBlock (M : Libm) (buffer : AudioBuffer.t)
      (startSample numSamples : nat) (s : SamplePlayer.t) :
  length (SamplePlayer.voices
            (fst (SamplePlayer.processBlock M buffer startSample numSamples s)))
  = length (SamplePlayer.voices s).
Proof.
  rewrite processBlock_voices. destruct (_ || _)%bool; [reflexivity|].
  apply length_voices_processVoices.
Qed.

Lemma length_voices_startVoice (M : Libm) (midiNoteNumber : Z) (velocity : float)
      (s : SamplePlayer.t) :
  length (SamplePlayer.voices (SamplePlayer.startVoice M midiNoteNumber velocity s))
  = length (SamplePlayer.voices s).
Proof.
  rewrite startVoice_unfold.
  assert (H : length (SamplePlayer.voices (fst (SamplePlayer.acquireVoice s)))
              = length (SamplePlayer.voices s)).
  { unfold SamplePlayer.acquireVoice.
    destruct (SamplePlayer.findFreeVoice s); [reflexivity|].
    destruct (if SamplePlayer.PlaybackMode_eqb _ _ then _ else _); [reflexivity|].
    cbn. apply length_alter. }
  destruct (snd (SamplePlayer.acquireVoice s)); [|exact H].
  cbn [SamplePlayer.voices SamplePlayer.with_voices]. rewrite length_alter. exact H.
Qed.

Lemma length_voices_call (M : Libm) (c : ApiCall) (s : SamplePlayer.t) :
  length (SamplePlayer.voices (call M c s)) = length (SamplePlayer.voices s).
Proof.
  destruct c; cbn [call].
  - rewrite voices_loadFile. reflexivity.
  - cbn. apply length_map.
  - cbn. apply length_map.
  - apply length_voices_processBlock.
  - unfold SamplePlayer.handleMidiMessage.
    destruct (_ =? 0)%nat; [reflexivity|].
    destruct message as [noteNumber floatVelocity|noteNumber|]; [| |reflexivity].
    + destruct (SamplePlayer.playbackMode s); rewrite length_voices_startVoice;
        try reflexivity.
      rewrite voices_stopAllVoices. apply length_map.
    + destruct (SamplePlayer.PlaybackMode_eqb _ _); [|reflexivity].
      apply length_voices_stopVoice.
  - reflexivity.
  - reflexivity.
  - unfold SamplePlayer.setHoldMode. cbv zeta.
    destruct shouldHold; [|reflexivity].
    destruct (List.find _ _); reflexivity.
  - unfold SamplePlayer.setHoldPosition.
    destruct (0 <? _)%nat; [|reflexivity]. cbv zeta.
    destruct (SamplePlayer.isHoldMode _); [|reflexivity].
    cbn. apply length_map.
  - reflexivity.
  - reflexivity.
  - rewrite voices_stopAllVoices. apply length_map.
Qed.

(** X17: the pool keeps its sixteen voices.  No call of the public
    interface adds or removes a voice, so after any sequence of calls on a
    freshly constructed engine the pool holds [MAX_VOICES] voices, and the
    search of [startVoice] for a voice does not end on [-1]. *)
Theorem pool_always_holds_sixteen_voices (M : Libm) (s : SamplePlayer.t) :
  reachable M s ->
  length (SamplePlayer.voices s) = SamplePlayer.MAX_VOICES
  /\ exists k, snd (SamplePlayer.acquireVoice s) = Some k.
Proof.
  intros [calls ->].
  assert (H : length (SamplePlayer.voices (after M calls)) = SamplePlayer.MAX_VOICES).
  { unfold after.
    assert (G : forall s0, length (SamplePlayer.voices
                             (fold_left (fun s c => call M c s) calls s0))
                           = length (SamplePlayer.voices s0)).
    { induction calls as [|c calls IH]; intros s0; [reflexivity|].
      cbn [fold_left]. rewrite IH. apply length_voices_call. }
    rewrite G. reflexivity. }
  split; [exact H|]. apply acquireVoice_finds.
  intros E. rewrite E in H. discriminate H.
Qed.

Lemma pool_always_holds_sixteen_voices_witness :
  length (SamplePlayer.voices (after libm_ref demo_session)) = SamplePlayer.MAX_VOICES
  /\ exists k, snd (SamplePlayer.acquireVoice (after libm_ref demo_session)) = Some k.
Proof.
  apply (pool_always_holds_sixteen_voices libm_ref (after libm_ref demo_session)).
  exists demo_session. reflexivity.
Defined.

(** ** What a block writes *)

Lemma nth_insert_ne {A : Type} (l : list A) (i j : nat) (x d : A) :
  i <> j -> nth j (<[i := x]> l) d = nth j l d.
Proof.
  revert i j. induction l as [|a l IH]; intros [|i] [|j] H; cbn; try reflexivity;
    try congruence.
  apply IH. congruence.
Qed.

Lemma nth_insert_eq {A : Type} (l : list A) (i : nat) (x d : A) :
  (i < length l)%nat -> nth i (<[i := x]> l) d = x.
Proof.
  revert i. induction l as [|a l IH]; intros [|i] H; cbn in *; try lia; try reflexivity.
  apply IH. lia.
Qed.

Lemma getSample_setSample_other (channel i : nat) (v : float) (b : AudioBuffer.t)
      (ch j : nat) :
  channel <> ch \/ i <> j ->
  AudioBuffer.getSample (AudioBuffer.setSample channel i v b) ch j
  = AudioBuffer.getSample b ch j.
Proof.
  intros H. unfold AudioBuffer.getSample, AudioBuffer.getReadPointer, AudioBuffer.setSample.
  cbn [AudioBuffer.channels].
  destruct (Nat.eq_dec channel ch) as [->|Hc].
  - destruct (Nat.lt_ge_cases ch (length (AudioBuffer.channels b))) as [Hlt|Hge].
    + rewrite (nth_alter_eq _ _ _ _ Hlt). apply nth_insert_ne. lia.
    + rewrite nth_alter_beyond by exact Hge.
      rewrite (nth_overflow (AudioBuffer.channels b)) by exact Hge. reflexivity.
  - rewrite nth_alter_ne by exact Hc. reflexivity.
Qed.

Lemma getSample_setSample_same (channel i : nat) (v : float) (b : AudioBuffer.t) :
  (channel < AudioBuffer.getNumChannels b)%nat ->
  (i < length (AudioBuffer.getReadPointer b channel))%nat ->
  AudioBuffer.getSample (AudioBuffer.setSample channel i v b) channel i = v.
Proof.
  intros Hc Hi. unfold AudioBuffer.getSample, AudioBuffer.getReadPointer, AudioBuffer.setSample in *.
  cbn [AudioBuffer.channels].
  rewrite (nth_alter_eq _ _ _ _ Hc). apply nth_insert_eq. exact Hi.
Qed.

Lemma getSample_setSample_cases (channel i : nat) (v : float) (b : AudioBuffer.t)
      (ch j : nat) :
  AudioBuffer.getSample (AudioBuffer.setSample channel i v b) ch j = v
  \/ AudioBuffer.getSample (AudioBuffer.setSample channel i v b) ch j
     = AudioBuffer.getSample b ch j.
Proof.
  destruct (Nat.eq_dec channel ch) as [->|Hc];
    [|right; apply getSample_setSample_other; left; exact Hc].
  destruct (Nat.eq_dec i j) as [->|Hi];
    [|right; apply getSample_setSample_other; right; exact Hi].
  destruct (Nat.lt_ge_cases ch (AudioBuffer.getNumChannels b)) as [Hlt|Hge].
  - destruct (Nat.lt_ge_cases j (length (AudioBuffer.getReadPointer b ch))) as [Hj|Hj].
    + left. apply getSample_setSample_same; assumption.
    + right. unfold AudioBuffer.getSample, AudioBuffer.getReadPointer, AudioBuffer.setSample in *.
      cbn [AudioBuffer.channels]. rewrite (nth_alter_eq _ _ _ _ Hlt).
      rewrite !nth_overflow; [reflexivity | exact Hj | rewrite length_insert; exact Hj].
  - right. unfold AudioBuffer.getSample, AudioBuffer.getReadPointer, AudioBuffer.setSample in *.
    cbn [AudioBuffer.channels]. rewrite nth_alter_beyond by exact Hge.
    rewrite (nth_overflow (AudioBuffer.channels b)) by exact Hge. reflexivity.
Qed.

Lemma map_length_alter {A : Type} (f : list A -> list A) (i : nat)
      (l : list (list A)) :
  (forall c, length (f c) = length c) ->
  map length (alter f i l) = map length l.
Proof.
  intros Hf. revert i. induction l as [|c l IH]; intros [|i]; cbn; try reflexivity.
  - rewrite Hf. reflexivity.
  - rewrite IH. reflexivity.
Qed.

Lemma shape_setSample (channel i : nat) (v : float) (b : AudioBuffer.t) :
  shape (AudioBuffer.setSample channel i v b) = shape b.
Proof.
  unfold shape, AudioBuffer.setSample. cbn [AudioBuffer.numSamples AudioBuffer.channels].
  f_equal. apply map_length_alter. intros c. apply length_insert.
Qed.

Lemma length_clear_loop (startSample num : nat) (c : list float) :
  length (for_loop num (fun i c => <[(startSample + i)%nat := 0]> c) c) = length c.
Proof.
  apply (for_loop_ind (fun _ (c' : list float) => length c' = length c)); [reflexivity|].
  intros i acc _ Hacc. rewrite length_insert. exact Hacc.
Qed.

Lemma nth_clear_loop (startSample num j : nat) (c : list float) :
  nth j (for_loop num (fun i c => <[(startSample + i)%nat := 0]> c) c) 0
  = if ((startSample <=? j)%nat && (j <? startSample + num)%nat)%bool then 0
    else nth j c 0.
Proof.
  induction num as [|num IH].
  - cbn [for_loop seq fold_left]. rewrite Nat.add_0_r.
    destruct (Nat.leb_spec startSample j), (Nat.ltb_spec j startSample);
      cbn [andb]; try reflexivity; lia.
  - rewrite for_loop_S.
    destruct (Nat.eq_dec (startSample + num)%nat j) as [<-|Hj].
    + assert (E : ((startSample <=? startSample + num)%nat
                   && (startSample + num <? startSample + S num)%nat)%bool = true).
      { apply andb_true_iff. split; [apply Nat.leb_le | apply Nat.ltb_lt]; lia. }
      rewrite E.
      destruct (Nat.lt_ge_cases (startSample + num)%nat (length c)) as [Hlt|Hge].
      * apply nth_insert_eq. rewrite length_clear_loop. exact Hlt.
      * apply nth_overflow. rewrite length_insert, length_clear_loop. exact Hge.
    + rewrite nth_insert_ne by exact Hj. rewrite IH.
      assert (E : (j <? startSample + S num)%nat = (j <? startSample + num)%nat).
      { destruct (Nat.ltb_spec j (startSample + S num)%nat),
                 (Nat.ltb_spec j (startSample + num)%nat); lia || reflexivity. }
      rewrite E. reflexivity.
Qed.

Lemma getSample_clearRegion (startSample num : nat) (b : AudioBuffer.t) (ch j : nat) :
  AudioBuffer.getSample (AudioBuffer.clearRegion startSample num b) ch j
  = if ((startSample <=? j)%nat && (j <? startSample + num)%nat)%bool then 0
    else AudioBuffer.getSample b ch j.
Proof.
  unfold AudioBuffer.getSample, AudioBuffer.getReadPointer, AudioBuffer.clearRegion,
    AudioBuffer.mapChannels. cbn [AudioBuffer.channels].
  destruct (Nat.lt_ge_cases ch (length (AudioBuffer.channels b))) as [Hlt|Hge].
  - rewrite (nth_indep _ _ ((fun c => for_loop num
               (fun i c => <[(startSample + i)%nat := 0]> c) c) []))
      by (rewrite length_map; exact Hlt).
    rewrite (map_nth (fun c => for_loop num
               (fun i c => <[(startSample + i)%nat := 0]> c) c)).
    apply nth_clear_loop.
  - rewrite (nth_overflow (map _ _)) by (rewrite length_map; exact Hge).
    rewrite (nth_overflow (AudioBuffer.channels b)) by exact Hge.
    destruct (_ && _)%bool; destruct j; reflexivity.
Qed.

Lemma shape_clearRegion (startSample num : nat) (b : AudioBuffer.t) :
  shape (AudioBuffer.clearRegion startSample num b) = shape b.
Proof.
  unfold shape, AudioBuffer.clearRegion, AudioBuffer.mapChannels.
  cbn [AudioBuffer.numSamples AudioBuffer.channels]. f_equal.
  rewrite map_map. apply map_ext. intros c. apply length_clear_loop.
Qed.

(** The rule of the output loop: what holds of the limiter and the buffer
    at the start and is kept by one limited write holds at the end. *)
Lemma limitOutput_ind (P : DSPUtils.PeakLimiter.t * AudioBuffer.t -> Prop)
      (M : Libm) (startSample numSamples : nat) (temp : AudioBuffer.t)
      (st : DSPUtils.PeakLimiter.t * AudioBuffer.t) :
  P st ->
  (forall channel sample l buffer,
     (sample < numSamples)%nat -> P (l, buffer) ->
     P (fst (DSPUtils.PeakLimiter.process
               (AudioBuffer.getSample temp channel sample) l),
        AudioBuffer.setSample channel (startSample + sample)
          (snd (DSPUtils.PeakLimiter.process
                  (AudioBuffer.getSample temp channel sample) l))
          buffer)) ->
  P (SamplePlayer.limitOutput startSample numSamples temp st).
Proof.
  intros H0 Hstep. unfold SamplePlayer.limitOutput.
  apply (for_loop_ind (fun _ acc => P acc)); [exact H0|].
  intros channel acc _ Hacc. cbv zeta.
  apply (for_loop_ind (fun _ acc => P acc)); [exact Hacc|].
  intros sample [l buffer] Hs Hlb.
  specialize (Hstep channel sample l buffer Hs Hlb).
  unfold AudioBuffer.getSample in Hstep.
  destruct (DSPUtils.PeakLimiter.process _ l) as [l' out]. exact Hstep.
Qed.

Lemma processBlock_buffer (M : Libm) (buffer : AudioBuffer.t)
      (startSample numSamples : nat) (s : SamplePlayer.t) :
  snd (SamplePlayer.processBlock M buffer startSample numSamples s)
  = if ((AudioBuffer.getNumSamples (SamplePlayer.fileBuffer s) =? 0)%nat
        || negb (SamplePlayer.isEnabled s))%bool
    then buffer
    else
      let s' :=
        fst (SamplePlayer.processVoices M numSamples
               (SamplePlayer.with_tempBuffer
                  (AudioBuffer.clear (SamplePlayer.tempBuffer s)) s, 0)) in
      snd (SamplePlayer.limitOutput startSample numSamples
             (SamplePlayer.tempBuffer s')
             (SamplePlayer.outputLimiter s',
              AudioBuffer.clearRegion startSample numSamples buffer)).
Proof.
  unfold SamplePlayer.processBlock.
  destruct (_ || _)%bool; [reflexivity|]. cbv zeta.
  destruct (SamplePlayer.processVoices _ _ _) as [s' maxLevel]. cbn [fst].
  destruct (SamplePlayer.limitOutput _ _ _ _) as [l b]. reflexivity.
Qed.

(** X18: [processBlock] writes into the target range only.  Every sample
    of the caller's buffer before [startSample] or from
    [startSample + numSamples] on is left as it was, on every channel, and
    the buffer keeps its size and the length of each channel. *)
Theorem processBlock_writes_only_target_range (M : Libm) (buffer : AudioBuffer.t)
        (startSample numSamples : nat) (s : SamplePlayer.t) (ch j : nat) :
  let out := snd (SamplePlayer.processBlock M buffer startSample numSamples s) in
  (j < startSample \/ startSample + numSamples <= j)%nat ->
  AudioBuffer.getSample out ch j = AudioBuffer.getSample buffer ch j
  /\ shape out = shape buffer.
Proof.
  cbv zeta. intros Hj. rewrite processBlock_buffer.
  destruct (_ || _)%bool; [split; reflexivity|]. cbv zeta.
  apply (limitOutput_ind
           (fun st => AudioBuffer.getSample (snd st) ch j
                      = AudioBuffer.getSample buffer ch j
                      /\ shape (snd st) = shape buffer) M).
  - cbn [snd]. split; [|apply shape_clearRegion].
    rewrite getSample_clearRegion.
    assert (E : ((startSample <=? j)%nat && (j <? startSample + numSamples)%nat)%bool
                = false).
    { destruct (Nat.leb_spec startSample j),
               (Nat.ltb_spec j (startSample + numSamples)%nat);
        cbn [andb]; try reflexivity; lia. }
    rewrite E. reflexivity.
  - intros channel sample l b Hs [Hb Hshape]. cbn [snd] in *. split.
    + rewrite getSample_setSample_other by lia. exact Hb.
    + rewrite shape_setSample. exact Hshape.
Qed.

Lemma processBlock_writes_only_target_range_witness :
  let out := snd (SamplePlayer.processBlock libm_ref demo_block 2 4 demo_playing) in
  AudioBuffer.getSample out 0 7 = AudioBuffer.getSample demo_block 0 7
  /\ shape out = shape demo_block.
Proof.
  apply (processBlock_writes_only_target_range libm_ref demo_block 2 4 demo_playing 0 7).
  lia.
Defined.

Lemma nth_map_zero (c : list float) (j : nat) :
  nth j (map (fun _ : float => 0) c) 0 = 0.
Proof.
  revert j. induction c as [|x c IH]; intros [|j]; cbn; try reflexivity. apply IH.
Qed.

Lemma getSample_clear (b : AudioBuffer.t) (ch j : nat) :
  AudioBuffer.getSample (AudioBuffer.clear b) ch j = 0.
Proof.
  unfold AudioBuffer.getSample, AudioBuffer.getReadPointer, AudioBuffer.clear,
    AudioBuffer.mapChannels. cbn [AudioBuffer.channels].
  generalize (AudioBuffer.channels b) as l. intros l. revert ch.
  induction l as [|c l IH]; intros [|ch]; cbn [map nth]; try (destruct j; reflexivity).
  - apply nth_map_zero.
  - apply IH.
Qed.

Lemma peakLimiter_silence (l : DSPUtils.PeakLimiter.t) :
  snd (DSPUtils.PeakLimiter.process 0 l) == 0.
Proof. unfold DSPUtils.PeakLimiter.process. cbv zeta. cbn [snd]. ring. Qed.

(** X19: with a file loaded and the engine enabled but no voice active,
    [processBlock] leaves the target range silent on every channel, keeps
    the pool as it was and reports a level of 0. *)
Theorem processBlock_without_voices_is_silent (M : Libm) (buffer : AudioBuffer.t)
        (startSample numSamples : nat) (s : SamplePlayer.t) :
  let r := SamplePlayer.processBlock M buffer startSample numSamples s in
  (0 < AudioBuffer.getNumSamples (SamplePlayer.fileBuffer s))%nat ->
  SamplePlayer.isEnabled s = true ->
  Forall inactive (SamplePlayer.voices s) ->
  range_silent startSample numSamples (snd r)
  /\ SamplePlayer.voices (fst r) = SamplePlayer.voices s
  /\ SamplePlayer.getCurrentLevel (fst r) = 0.
Proof.
  cbv zeta. intros Hn He Hidle.
  assert (Hguard : ((AudioBuffer.getNumSamples (SamplePlayer.fileBuffer s) =? 0)%nat
                    || negb (SamplePlayer.isEnabled s))%bool = false).
  { rewrite He. cbn [negb]. rewrite orb_false_r. apply Nat.eqb_neq. lia. }
  set (s1 := SamplePlayer.with_tempBuffer
               (AudioBuffer.clear (SamplePlayer.tempBuffer s)) s).
  assert (Hpv : SamplePlayer.processVoices M numSamples (s1, 0) = (s1, 0)).
  { apply processVoices_idle. exact Hidle. }
  split; [|split].
  - rewrite processBlock_buffer, Hguard. cbv zeta. fold s1. rewrite Hpv. cbn [fst].
    intros channel i _ Hi.
    apply (limitOutput_ind
             (fun st => AudioBuffer.getSample (snd st) channel i == 0) M).
    + cbn [snd]. rewrite getSample_clearRegion.
      assert (E : ((startSample <=? i)%nat && (i <? startSample + numSamples)%nat)%bool
                  = true).
      { apply andb_true_iff. split; [apply Nat.leb_le | apply Nat.ltb_lt]; lia. }
      rewrite E. reflexivity.
    + intros c sample l b _ Hb. cbn [snd] in *.
      unfold s1. cbn [SamplePlayer.tempBuffer SamplePlayer.with_tempBuffer].
      rewrite getSample_clear.
      destruct (getSample_setSample_cases c (startSample + sample)%nat
                  (snd (DSPUtils.PeakLimiter.process 0 l)) b channel i) as [E|E];
        rewrite E; [apply peakLimiter_silence | exact Hb].
  - rewrite processBlock_voices, Hguard. fold s1. rewrite Hpv. reflexivity.
  - unfold SamplePlayer.processBlock. rewrite Hguard. cbv zeta. fold s1. rewrite Hpv.
    destruct (SamplePlayer.limitOutput _ _ _ _) as [l b]. reflexivity.
Qed.

Lemma processBlock_without_voices_is_silent_witness :
  let r := SamplePlayer.processBlock libm_ref demo_block 0 8 demo_loaded in
  range_silent 0 8 (snd r)
  /\ SamplePlayer.voices (fst r) = SamplePlayer.voices demo_loaded
  /\ SamplePlayer.getCurrentLevel (fst r) = 0.
Proof.
  apply (processBlock_without_voices_is_silent libm_ref demo_block 0 8 demo_loaded).
  - lazy. lia.
  - reflexivity.
  - lazy. repeat constructor.
Defined.

(** ** The processor around the engine *)

Lemma shape_processBlock (M : Libm) (buffer : AudioBuffer.t)
      (startSample numSamples : nat) (s : SamplePlayer.t) :
  shape (snd (SamplePlayer.processBlock M buffer startSample numSamples s))
  = shape buffer.
Proof.
  rewrite processBlock_buffer.
  destruct (_ || _)%bool; [reflexivity|]. cbv zeta.
  apply (limitOutput_ind (fun st => shape (snd st) = shape buffer) M).
  - apply shape_clearRegion.
  - intros channel sample l b _ Hb. cbn [snd] in *.
    rewrite shape_setSample. exact Hb.
Qed.

Lemma shape_clearChannel (channel startSample num : nat) (b : AudioBuffer.t) :
  shape (PluginProcessor.clearChannel channel startSample num b) = shape b.
Proof.
  unfold shape, PluginProcessor.clearChannel.
  cbn [AudioBuffer.numSamples AudioBuffer.channels]. f_equal.
  apply map_length_alter. intros c. apply length_clear_loop.
Qed.

Lemma shape_channel_length (b1 b2 : AudioBuffer.t) (ch : nat) :
  shape b1 = shape b2 ->
  length (AudioBuffer.getReadPointer b1 ch) = length (AudioBuffer.getReadPointer b2 ch)
  /\ AudioBuffer.getNumChannels b1 = AudioBuffer.getNumChannels b2
  /\ AudioBuffer.getNumSamples b1 = AudioBuffer.getNumSamples b2.
Proof.
  intros H. pose proof (f_equal fst H) as Hn. pose proof (f_equal snd H) as Hc.
  unfold shape in Hn, Hc. cbn [fst snd] in Hn, Hc.
  unfold AudioBuffer.getReadPointer, AudioBuffer.getNumChannels, AudioBuffer.getNumSamples.
  split; [|split; [|exact Hn]].
  - change (length (nth ch (AudioBuffer.channels b1) []))
      with (length (A := float) (nth ch (AudioBuffer.channels b1) [])).
    rewrite <- !(map_nth (length (A := float))). rewrite Hc. reflexivity.
  - rewrite <- (length_map length (AudioBuffer.channels b1)), Hc. apply length_map.
Qed.

(** The inner loop of the final copy: channel [channel] takes the first
    [n] samples of channel 0 and nothing else changes. *)
Lemma copy_channel (n channel : nat) (b : AudioBuffer.t) :
  channel <> 0%nat ->
  let b' :=
    for_loop n
      (fun sample buffer =>
         AudioBuffer.setSample channel sample
           (nth sample (AudioBuffer.getReadPointer buffer 0) 0) buffer) b in
  shape b' = shape b
  /\ (forall ch j, ch <> channel ->
        AudioBuffer.getSample b' ch j = AudioBuffer.getSample b ch j)
  /\ (forall j, (j < n)%nat -> (channel < AudioBuffer.getNumChannels b)%nat ->
        (j < length (AudioBuffer.getReadPointer b channel))%nat ->
        AudioBuffer.getSample b' channel j = AudioBuffer.getSample b 0 j).
Proof.
  intros Hc. cbv zeta.
  apply (for_loop_ind
           (fun t buf =>
              shape buf = shape b
              /\ (forall ch j, ch <> channel ->
                    AudioBuffer.getSample buf ch j = AudioBuffer.getSample b ch j)
              /\ (forall j, (j < t)%nat -> (channel < AudioBuffer.getNumChannels b)%nat ->
                    (j < length (AudioBuffer.getReadPointer b channel))%nat ->
                    AudioBuffer.getSample buf channel j = AudioBuffer.getSample b 0 j))).
  - split; [reflexivity|]. split; [reflexivity|]. intros j Hj. lia.
  - intros t buf _ (Hshape & Hother & Hdone).
    destruct (shape_channel_length buf b channel Hshape) as (Hlen & Hnc & _).
    split; [rewrite shape_setSample; exact Hshape|]. split.
    + intros ch j Hch. rewrite getSample_setSample_other by (left; congruence).
      apply Hother, Hch.
    + intros j Hj Hin Hjl. destruct (Nat.eq_dec j t) as [->|Hne].
      * rewrite getSample_setSample_same by (rewrite ?Hnc, ?Hlen; assumption).
        apply (Hother 0%nat t). congruence.
      * rewrite getSample_setSample_other by (right; congruence).
        apply Hdone; [lia | exact Hin | exact Hjl].
Qed.

(** X20: the processor hands out channel 0 on every output channel.  After
    [PluginProcessor::processBlock] each output channel from 1 on holds, on
    the whole block, the samples of channel 0: what the engine wrote on the
    other channels through its one limiter is overwritten. *)
Theorem processor_copies_first_channel_to_all_outputs (M : Libm)
        (totalNumInputChannels totalNumOutputChannels : nat)
        (buffer : AudioBuffer.t) (midiMessages : list MidiMessage)
        (samplePlayer : SamplePlayer.t) (ch j : nat) :
  let out := snd (PluginProcessor.processBlock M totalNumInputChannels
                    totalNumOutputChannels buffer midiMessages samplePlayer) in
  rectangular buffer ->
  (1 <= ch < totalNumOutputChannels)%nat ->
  (ch < AudioBuffer.getNumChannels buffer)%nat ->
  (j < AudioBuffer.getNumSamples buffer)%nat ->
  AudioBuffer.getSample out ch j = AudioBuffer.getSample out 0 j
  /\ shape out = shape buffer.
Proof.
  cbv zeta. intros Hrect Hch Hin Hj. unfold PluginProcessor.processBlock. cbv zeta.
  set (b0 := for_loop (totalNumOutputChannels - totalNumInputChannels) _ buffer).
  assert (Hb0 : shape b0 = shape buffer).
  { unfold b0.
    apply (for_loop_ind (fun _ buf => shape buf = shape buffer)); [reflexivity|].
    intros k buf _ Hbuf. rewrite shape_clearChannel. exact Hbuf. }
  set (sp := fold_left _ midiMessages samplePlayer).
  pose proof (shape_processBlock M b0 0 (AudioBuffer.getNumSamples b0) sp) as Hb1.
  destruct (SamplePlayer.processBlock M b0 0 (AudioBuffer.getNumSamples b0) sp)
    as [sp' b1]. cbn [snd] in *.
  rewrite Hb0 in Hb1.
  destruct (shape_channel_length b1 buffer ch Hb1) as (Hlen1 & Hnc1 & Hn1).
  assert (Hlen : length (AudioBuffer.getReadPointer buffer ch)
                 = AudioBuffer.getNumSamples buffer).
  { unfold rectangular in Hrect. unfold AudioBuffer.getReadPointer.
    destruct (lookup_lt_is_Some_2 _ _ Hin) as [c Hc].
    rewrite (nth_lookup_Some _ _ _ _ Hc).
    apply (Forall_lookup_1 _ _ _ _ Hrect Hc). }
  match goal with
  | |- context [for_loop (totalNumOutputChannels - 1) ?f b1] => set (copy := f)
  end.
  enough (H : forall m,
             (m <= totalNumOutputChannels - 1)%nat ->
             shape (for_loop m copy b1) = shape b1
             /\ (forall i, AudioBuffer.getSample (for_loop m copy b1) 0 i
                           = AudioBuffer.getSample b1 0 i)
             /\ (forall k, (k < m)%nat -> S k = ch ->
                   AudioBuffer.getSample (for_loop m copy b1) ch j
                   = AudioBuffer.getSample b1 0 j)).
  { destruct (H (totalNumOutputChannels - 1)%nat (Nat.le_refl _)) as (Hs & H0 & Hk).
    split; [|rewrite Hs; exact Hb1].
    rewrite H0. apply (Hk (ch - 1)%nat); lia. }
  induction m as [|m IH]; intros Hm.
  - split; [reflexivity|]. split; [reflexivity|]. intros k Hk. lia.
  - rewrite for_loop_S.
    destruct (IH ltac:(lia)) as (Hs & H0 & Hk).
    set (buf := for_loop m copy b1) in *. unfold copy at 1 2 3.
    pose proof (copy_channel (AudioBuffer.getNumSamples buf) (S m) buf ltac:(lia))
      as Hcc.
    cbv zeta in Hcc. destruct Hcc as (Hs' & Hother & Hcopied).
    destruct (shape_channel_length buf b1 ch Hs) as (Hlenb & Hncb & Hnb).
    split; [rewrite Hs'; exact Hs|]. split.
    + intros i. rewrite Hother by lia. apply H0.
    + intros k Hkm Hkch. destruct (Nat.eq_dec k m) as [->|Hne].
      * rewrite <- Hkch in *. rewrite Hcopied.
        -- apply H0.
        -- rewrite Hnb, Hn1. exact Hj.
        -- rewrite Hncb, Hnc1. exact Hin.
        -- rewrite Hlenb, Hlen1, Hlen. exact Hj.
      * rewrite Hother by lia. apply (Hk k); [lia | exact Hkch].
Qed.

Lemma processor_copies_first_channel_to_all_outputs_witness :
  let out := snd (PluginProcessor.processBlock libm_ref 2 2 demo_block
                    [NoteOn 60 1] demo_loaded) in
  AudioBuffer.getSample out 1 3 = AudioBuffer.getSample out 0 3
  /\ shape out = shape demo_block.
Proof.
  apply (processor_copies_first_channel_to_all_outputs libm_ref 2 2 demo_block
           [NoteOn 60 1] demo_loaded 1 3).
  - unfold rectangular. cbn. repeat constructor.
  - lia.
  - cbn. lia.
  - cbn. lia.
Defined.

(** ** Releasing the resources *)

(** X21: [releaseResources] zeroes the loaded file but keeps its size.
    Afterwards every sample of the file buffer is 0 and no voice is active,
    while [isFileLoaded] answers as before: an engine that held a file still
    takes note-ons, and plays silence. *)
Theorem releaseResources_silences_but_keeps_size (s : SamplePlayer.t) (ch j : nat) :
  let s' := SamplePlayer.releaseResources s in
  AudioBuffer.getSample (SamplePlayer.fileBuffer s') ch j = 0
  /\ shape (SamplePlayer.fileBuffer s') = shape (SamplePlayer.fileBuffer s)
  /\ SamplePlayer.isFileLoaded s' = SamplePlayer.isFileLoaded s
  /\ Forall inactive (SamplePlayer.voices s')
  /\ SamplePlayer.getCurrentPosition s' = 0.
Proof.
  cbv zeta. unfold SamplePlayer.releaseResources. cbv zeta.
  cbn [SamplePlayer.fileBuffer SamplePlayer.voices SamplePlayer.with_voices
       SamplePlayer.with_fileBuffer SamplePlayer.with_reader].
  assert (H : Forall inactive
                (map (fun voice =>
                        Voice.with_lastOutputSample 0
                          (Voice.with_grains [] (Voice.with_isActive false voice)))
                     (SamplePlayer.voices s))).
  { apply Forall_map, Forall_forall. intros v _. reflexivity. }
  split; [apply getSample_clear|]. split; [|split; [reflexivity|split; [exact H|]]].
  - unfold shape, AudioBuffer.clear, AudioBuffer.mapChannels.
    cbn [AudioBuffer.numSamples AudioBuffer.channels]. f_equal.
    rewrite map_map. apply map_ext. intros c. apply length_map.
  - unfold SamplePlayer.getCurrentPosition.
    cbn [SamplePlayer.voices SamplePlayer.with_voices].
    rewrite (find_inactive _ H). reflexivity.
Qed.

(** ** Past the end of the file *)

Lemma release_restarted_step (e : Envelope.t) :
  release_restarted e -> release_restarted (overrun_sample e).
Proof.
  intros (Hst & Ht & Hsr & Hrel & Hlevel).
  unfold overrun_sample, Envelope.process. rewrite Hst. cbv zeta.
  cbn [Envelope.currentLevel Envelope.currentTime Envelope.sustainLevel
       Envelope.releaseTime Envelope.with_currentLevel Envelope.with_currentTime
       Envelope.sampleRate].
  assert (E : Qle_bool
                (Envelope.sustainLevel e
                 * (1 - (Envelope.currentTime e + 1 / Envelope.sampleRate e)
                        / Envelope.releaseTime e)) 0.001 = false).
  { destruct (Qle_bool _ 0.001) eqn:E; [|reflexivity].
    apply Qle_bool_iff in E. rewrite Ht, Qplus_0_l in E. lra. }
  rewrite E. cbn [fst]. unfold Envelope.noteOff.
  cbn [Envelope.state Envelope.with_currentLevel Envelope.with_currentTime].
  rewrite Hst. cbn [Envelope.State_eqb negb].
  unfold release_restarted.
  cbn [Envelope.state Envelope.currentTime Envelope.sampleRate Envelope.releaseTime
       Envelope.sustainLevel Envelope.with_state Envelope.with_currentTime
       Envelope.with_currentLevel].
  repeat split; try assumption; reflexivity.
Qed.

Lemma release_restarted_noteOff (e : Envelope.t) :
  release_restarted e -> release_restarted (Envelope.noteOff e).
Proof.
  intros (Hst & Ht & Hsr & Hrel & Hlevel).
  unfold Envelope.noteOff. rewrite Hst. cbn [Envelope.State_eqb negb].
  unfold release_restarted.
  cbn [Envelope.state Envelope.currentTime Envelope.sampleRate Envelope.releaseTime
       Envelope.sustainLevel Envelope.with_state Envelope.with_currentTime].
  repeat split; try assumption; reflexivity.
Qed.

(** X22: a release that is restarted on every sample never ends.  When
    [noteOff] follows every [process], as it does for a voice past the end
    of the file, an envelope at the start of a release that one sample does
    not finish is at that same start after any number of samples: it stays
    in Release and does not reach Idle. *)
Theorem restarted_release_never_ends (k : nat) (e : Envelope.t) :
  release_restarted e ->
  release_restarted (Nat.iter k overrun_sample e)
  /\ Envelope.state (Nat.iter k overrun_sample e) <> Envelope.Idle.
Proof.
  intros H.
  assert (G : release_restarted (Nat.iter k overrun_sample e)).
  { induction k as [|k IH]; [exact H|]. cbn [Nat.iter].
    apply release_restarted_step, IH. }
  split; [exact G|]. destruct G as (Hst & _). rewrite Hst. discriminate.
Qed.

Lemma restarted_release_never_ends_witness :
  release_restarted (Nat.iter 3 overrun_sample demo_releasing)
  /\ Envelope.state (Nat.iter 3 overrun_sample demo_releasing) <> Envelope.Idle.
Proof.
  apply (restarted_release_never_ends 3 demo_releasing).
  unfold release_restarted. repeat split; lazy; reflexivity.
Defined.

Lemma processVoiceSample_voice (M : Libm) (i sample : nat) (voice : Voice.t)
      (s : SamplePlayer.t) (maxLevel : float) :
  SamplePlayer.voices s !! i = Some voice ->
  exists voice' temp maxLevel',
    Voice.position voice' = Voice.position voice
    /\ Voice.isActive voice' = Voice.isActive voice
    /\ Voice.midiNote voice' = Voice.midiNote voice
    /\ Voice.pitchRatio voice' = Voice.pitchRatio voice
    /\ Voice.envelope voice' = fst (Envelope.process (Voice.envelope voice))
    /\ SamplePlayer.processVoiceSample M i sample (s, maxLevel)
       = (SamplePlayer.updateGrains i
            (SamplePlayer.setVoice i voice' (SamplePlayer.with_tempBuffer temp s)),
          maxLevel').
Proof.
  intros Hv. unfold SamplePlayer.processVoiceSample. rewrite Hv.
  destruct (SamplePlayer.processGrains M s voice (Voice.grains voice) 0) as [gs sv].
  destruct (Qgtb (Voice.pitchRatio (Voice.with_grains gs voice)) 1).
  - destruct (DSPUtils.ButterworthFilter.process sv _) as [f out].
    destruct (DSPUtils.DCBlocker.process out _) as [d sv1].
    destruct (DSPUtils.SoftClipper.process M sv1 _) as [c sv2].
    destruct (Envelope.process _) as [e gain].
    eexists _, _, _.
    refine (conj _ (conj _ (conj _ (conj _ (conj _ eq_refl))))); reflexivity.
  - destruct (DSPUtils.DCBlocker.process sv _) as [d sv1].
    destruct (DSPUtils.SoftClipper.process M sv1 _) as [c sv2].
    destruct (Envelope.process _) as [e gain].
    eexists _, _, _.
    refine (conj _ (conj _ (conj _ (conj _ (conj _ eq_refl))))); reflexivity.
Qed.

Lemma same_settings_refl (s : SamplePlayer.t) : same_settings s s.
Proof. repeat split. Qed.

Lemma same_settings_trans (s1 s2 s3 : SamplePlayer.t) :
  same_settings s1 s2 -> same_settings s2 s3 -> same_settings s1 s3.
Proof.
  intros (A1 & A2 & A3 & A4 & A5) (B1 & B2 & B3 & B4 & B5).
  repeat split; congruence.
Qed.

Lemma same_settings_stopVoice (midiNoteNumber : Z) (s : SamplePlayer.t) :
  same_settings s (SamplePlayer.stopVoice midiNoteNumber s).
Proof.
  unfold SamplePlayer.stopVoice.
  destruct (SamplePlayer.PlaybackMode_eqb _ _); repeat split.
Qed.

(** What [updateGrains] on the voice at [k] can do to the rest of the
    engine: the settings stay, and any other voice is either left alone or
    gets the [noteOff] of [stopVoice]. *)
Lemma updateGrains_frame (k : nat) (s : SamplePlayer.t) :
  same_settings s (SamplePlayer.updateGrains k s)
  /\ forall i, i <> k ->
       SamplePlayer.voices (SamplePlayer.updateGrains k s) !! i
       = SamplePlayer.voices s !! i
       \/ exists note,
            SamplePlayer.voices (SamplePlayer.updateGrains k s) !! i
            = released note <$> SamplePlayer.voices s !! i.
Proof.
  destruct (SamplePlayer.voices s !! k) as [voice|] eqn:E.
  - rewrite (updateGrains_unfold k voice s E). cbv zeta.
    destruct (negb (SamplePlayer.isHoldMode s)).
    + destruct (_ && _)%bool; [|destruct (_ && _)%bool].
      * split; [repeat split|]. intros i Hi. left.
        rewrite !voices_setVoice_ne by congruence. reflexivity.
      * split.
        -- eapply same_settings_trans; [|apply same_settings_stopVoice].
           repeat split.
        -- intros i Hi. rewrite voices_stopVoice.
           destruct (SamplePlayer.PlaybackMode_eqb _ _).
           ++ right. exists (Voice.midiNote voice). rewrite lookup_map.
              rewrite !voices_setVoice_ne by congruence. reflexivity.
           ++ left. rewrite !voices_setVoice_ne by congruence. reflexivity.
      * split; [repeat split|]. intros i Hi. left.
        rewrite !voices_setVoice_ne by congruence. reflexivity.
    + split; [repeat split|]. intros i Hi. left.
      rewrite !voices_setVoice_ne by congruence. reflexivity.
  - unfold SamplePlayer.updateGrains. rewrite E.
    split; [apply same_settings_refl|]. intros i Hi. left. reflexivity.
Qed.

Lemma overrun_transfer (i : nat) (s s' : SamplePlayer.t) :
  overrun i s -> same_settings s s' ->
  (SamplePlayer.voices s' !! i = SamplePlayer.voices s !! i
   \/ exists note,
        SamplePlayer.voices s' !! i = released note <$> SamplePlayer.voices s !! i) ->
  overrun i s'.
Proof.
  intros (Hmode & Hloop & Hhold & voice & Hv & Hact & Hpos & Hadv & Henv)
         (S1 & S2 & S3 & S4 & S5) Hvoices.
  unfold overrun. rewrite S1, S2, S3.
  split; [exact Hmode|]. split; [exact Hloop|]. split; [exact Hhold|].
  assert (HN : SamplePlayer.numSamplesQ s' = SamplePlayer.numSamplesQ s).
  { unfold SamplePlayer.numSamplesQ. rewrite S5. reflexivity. }
  rewrite HN, S4.
  destruct Hvoices as [Hsame|[note Hrel]].
  - exists voice. rewrite Hsame.
    refine (conj _ (conj _ (conj _ (conj _ _)))); assumption.
  - exists (released note voice). rewrite Hrel, Hv. split; [reflexivity|].
    unfold released.
    destruct (_ && _)%bool; cbn [Voice.isActive Voice.position Voice.pitchRatio
                                  Voice.envelope Voice.with_envelope];
      refine (conj _ (conj _ (conj _ _))); try assumption.
    apply release_restarted_noteOff, Henv.
Qed.

Lemma overrun_step_other (M : Libm) (i k sample : nat)
      (st : SamplePlayer.t * float) :
  i <> k -> overrun i (fst st) ->
  overrun i (fst (SamplePlayer.processVoiceSample M k sample st)).
Proof.
  destruct st as [s m]. cbn [fst]. intros Hik Hover.
  destruct (SamplePlayer.voices s !! k) as [voicek|] eqn:Ek.
  - destruct (processVoiceSample_shape M k sample voicek s m Ek)
      as (v' & temp & m' & _ & _ & _ & _ & ->).
    cbn [fst].
    set (s1 := SamplePlayer.setVoice k v' (SamplePlayer.with_tempBuffer temp s)).
    destruct (updateGrains_frame k s1) as [Hset Hvs].
    assert (H1 : overrun i s1).
    { apply (overrun_transfer i s s1 Hover); [repeat split|].
      left. unfold s1. rewrite voices_setVoice_ne by congruence. reflexivity. }
    apply (overrun_transfer i s1 _ H1 Hset). apply Hvs, Hik.
  - unfold SamplePlayer.processVoiceSample. rewrite Ek. exact Hover.
Qed.

Lemma overrun_step_self (M : Libm) (i sample : nat)
      (st : SamplePlayer.t * float) :
  overrun i (fst st) ->
  overrun i (fst (SamplePlayer.processVoiceSample M i sample st)).
Proof.
  destruct st as [s m]. cbn [fst].
  intros (Hmode & Hloop & Hhold & voice & Hv & Hact & Hpos & Hadv & Henv).
  destruct (processVoiceSample_voice M i sample voice s m Hv)
    as (v' & temp & m' & Hp & Ha & Hn & Hpr & He & ->).
  cbn [fst].
  set (s1 := SamplePlayer.setVoice i v' (SamplePlayer.with_tempBuffer temp s)).
  assert (Hv1 : SamplePlayer.voices s1 !! i = Some v').
  { apply (voices_setVoice_eq i v' voice). exact Hv. }
  rewrite (updateGrains_unfold i v' s1 Hv1). cbv zeta.
  change (SamplePlayer.isHoldMode s1) with (SamplePlayer.isHoldMode s).
  change (SamplePlayer.isLooping s1) with (SamplePlayer.isLooping s).
  change (SamplePlayer.numSamplesQ s1) with (SamplePlayer.numSamplesQ s).
  rewrite Hhold, Hloop. cbn [negb andb].
  assert (Hover : SamplePlayer.numSamplesQ s <= advanced v' s1).
  { unfold advanced. rewrite Hp, Hpr.
    change (SamplePlayer.playbackSpeed s1) with (SamplePlayer.playbackSpeed s). lra. }
  pose proof (proj2 (Qgeb_true _ _) Hover) as Hge. rewrite Hge.
  set (v2 := Voice.with_position (advanced v' s1) (SamplePlayer.refreshGrains s1 v')).
  set (s2 := SamplePlayer.setVoice i v2
               (SamplePlayer.setVoice i (SamplePlayer.refreshGrains s1 v') s1)).
  assert (Hv2 : SamplePlayer.voices s2 !! i = Some v2).
  { apply (voices_setVoice_eq i v2 (SamplePlayer.refreshGrains s1 v')).
    apply (voices_setVoice_eq i _ v'). exact Hv1. }
  unfold overrun. rewrite voices_stopVoice.
  destruct (same_settings_stopVoice (Voice.midiNote v') s2) as (T1 & T2 & T3 & T4 & T5).
  rewrite T1, T2, T3.
  change (SamplePlayer.playbackMode s2) with (SamplePlayer.playbackMode s).
  change (SamplePlayer.isLooping s2) with (SamplePlayer.isLooping s).
  change (SamplePlayer.isHoldMode s2) with (SamplePlayer.isHoldMode s).
  rewrite Hmode. cbn [SamplePlayer.PlaybackMode_eqb].
  split; [reflexivity|]. split; [exact Hloop|]. split; [exact Hhold|].
  exists (released (Voice.midiNote v') v2).
  rewrite lookup_map, Hv2. split; [reflexivity|].
  assert (HN : SamplePlayer.numSamplesQ (SamplePlayer.stopVoice (Voice.midiNote v') s2)
               = SamplePlayer.numSamplesQ s).
  { unfold SamplePlayer.numSamplesQ. rewrite T5. reflexivity. }
  rewrite HN, T4.
  change (SamplePlayer.playbackSpeed s2) with (SamplePlayer.playbackSpeed s).
  unfold released.
  change (Voice.isActive v2) with (Voice.isActive v').
  change (Voice.midiNote v2) with (Voice.midiNote v').
  rewrite Ha, Hact, Z.eqb_refl. cbn [andb].
  cbn [Voice.isActive Voice.position Voice.pitchRatio Voice.envelope
       Voice.with_envelope].
  change (Voice.isActive v2) with (Voice.isActive v').
  change (Voice.position v2) with (advanced v' s1).
  change (Voice.pitchRatio v2) with (Voice.pitchRatio v').
  change (Voice.envelope v2) with (Voice.envelope v').
  rewrite Ha, Hpr, He.
  split; [exact Hact|]. split; [exact Hover|]. split; [exact Hadv|].
  apply (release_restarted_step _ Henv).
Qed.

Lemma overrun_processVoices (M : Libm) (i numSamples : nat)
      (st : SamplePlayer.t * float) :
  overrun i (fst st) ->
  overrun i (fst (SamplePlayer.processVoices M numSamples st)).
Proof.
  intros H. unfold SamplePlayer.processVoices.
  apply (for_loop_ind (fun _ acc => overrun i (fst acc))); [exact H|].
  intros k acc _ Hacc.
  destruct (SamplePlayer.voices (fst acc) !! k) as [voice|]; [|exact Hacc].
  destruct (negb (Voice.isActive voice)); [exact Hacc|].
  apply (for_loop_ind (fun _ acc' => overrun i (fst acc'))); [exact Hacc|].
  intros sample acc' _ Hacc'.
  destruct (Nat.eq_dec i k) as [<-|Hik].
  - apply overrun_step_self, Hacc'.
  - apply overrun_step_other; assumption.
Qed.

(** X23: a Polyphonic voice past the end of an unlooped file is never
    freed by [processBlock].  If the voice at index [i] stands at or past
    the end with its envelope at the start of the release, then after a
    block of any length, whatever the other voices do, it is still active,
    still past the end, and its envelope is at the start of the release
    again: the release does not complete and the voice does not fall
    silent of itself. *)
Theorem overrun_voice_is_never_freed (M : Libm) (buffer : AudioBuffer.t)
        (startSample numSamples i : nat) (s : SamplePlayer.t) :
  overrun i s ->
  overrun i (fst (SamplePlayer.processBlock M buffer startSample numSamples s)).
Proof.
  intros H. unfold SamplePlayer.processBlock.
  destruct (_ || _)%bool; [exact H|]. cbv zeta.
  set (s1 := SamplePlayer.with_tempBuffer
               (AudioBuffer.clear (SamplePlayer.tempBuffer s)) s).
  assert (H1 : overrun i (fst (s1, 0))) by exact H.
  pose proof (overrun_processVoices M i numSamples (s1, 0) H1) as H2.
  destruct (SamplePlayer.processVoices M numSamples (s1, 0)) as [s2 maxLevel].
  destruct (SamplePlayer.limitOutput _ _ _ _) as [l b]. exact H2.
Qed.

Lemma overrun_voice_is_never_freed_witness :
  overrun 0 (fst (SamplePlayer.processBlock libm_ref demo_block 0 8 demo_past_end)).
Proof.
  apply (overrun_voice_is_never_freed libm_ref demo_block 0 8 0 demo_past_end).
  unfold overrun.
  split; [lazy; reflexivity|]. split; [lazy; reflexivity|].
  split; [lazy; reflexivity|].
  exists (voiceAt 0 demo_past_end).
  split; [apply lookup_voiceAt; lazy; lia|].
  split; [lazy; reflexivity|].
  split; [apply Qle_bool_iff; lazy; reflexivity|].
  split; [apply Qle_bool_iff; lazy; reflexivity|].
  unfold release_restarted.
  split; [lazy; reflexivity|].
  split; [apply Qeq_bool_iff; lazy; reflexivity|].
  split; [apply Qltb_true; lazy; reflexivity|].
  split; [apply Qltb_true; lazy; reflexivity|].
  apply Qltb_true. lazy. reflexivity.
Defined.

(** ** What a block leaves of the voices *)

Lemma map_setVoice {A : Type} (f : Voice.t -> A) (i : nat) (v voice : Voice.t)
      (s : SamplePlayer.t) :
  SamplePlayer.voices s !! i = Some voice -> f v = f voice ->
  map f (SamplePlayer.voices (SamplePlayer.setVoice i v s))
  = map f (SamplePlayer.voices s).
Proof.
  intros Hv Hf. unfold SamplePlayer.setVoice.
  cbn [SamplePlayer.voices SamplePlayer.with_voices].
  apply list_eq. intros j. rewrite !lookup_map.
  destruct (decide (i = j)) as [<-|Hj].
  - rewrite list_lookup_insert_eq by (eapply lookup_lt_Some; exact Hv).
    rewrite Hv. cbn. f_equal. exact Hf.
  - rewrite list_lookup_insert_ne by exact Hj. reflexivity.
Qed.

Lemma assignment_stopVoice (midiNoteNumber : Z) (s : SamplePlayer.t) :
  map assignment (SamplePlayer.voices (SamplePlayer.stopVoice midiNoteNumber s))
  = map assignment (SamplePlayer.voices s).
Proof.
  rewrite voices_stopVoice. destruct (SamplePlayer.PlaybackMode_eqb _ _); [|reflexivity].
  rewrite map_map. apply map_ext. intros v. unfold released.
  destruct (_ && _)%bool; reflexivity.
Qed.

Lemma assignment_updateGrains (i : nat) (s : SamplePlayer.t) :
  map assignment (SamplePlayer.voices (SamplePlayer.updateGrains i s))
  = map assignment (SamplePlayer.voices s).
Proof.
  destruct (SamplePlayer.voices s !! i) as [voice|] eqn:E.
  - rewrite (updateGrains_unfold i voice s E). cbv zeta.
    set (v1 := SamplePlayer.refreshGrains s voice).
    set (s1 := SamplePlayer.setVoice i v1 s).
    assert (H1 : map assignment (SamplePlayer.voices s1)
                 = map assignment (SamplePlayer.voices s)).
    { apply (map_setVoice assignment i v1 voice s E). reflexivity. }
    assert (E1 : SamplePlayer.voices s1 !! i = Some v1).
    { apply (voices_setVoice_eq i v1 voice s E). }
    destruct (negb (SamplePlayer.isHoldMode s)); [|exact H1].
    set (v2 := Voice.with_position (advanced voice s) v1).
    set (s2 := SamplePlayer.setVoice i v2 s1).
    assert (H2 : map assignment (SamplePlayer.voices s2)
                 = map assignment (SamplePlayer.voices s)).
    { rewrite <- H1. apply (map_setVoice assignment i v2 v1 s1 E1). reflexivity. }
    assert (E2 : SamplePlayer.voices s2 !! i = Some v2).
    { apply (voices_setVoice_eq i v2 v1 s1 E1). }
    destruct (_ && _)%bool; [|destruct (_ && _)%bool].
    + rewrite <- H2.
      apply (map_setVoice assignment i (Voice.with_position 0 v2) v2 s2 E2).
      reflexivity.
    + rewrite assignment_stopVoice. exact H2.
    + exact H2.
  - unfold SamplePlayer.updateGrains. rewrite E. reflexivity.
Qed.

Lemma assignment_processVoiceSample (M : Libm) (i sample : nat)
      (st : SamplePlayer.t * float) :
  map assignment
      (SamplePlayer.voices (fst (SamplePlayer.processVoiceSample M i sample st)))
  = map assignment (SamplePlayer.voices (fst st)).
Proof.
  destruct st as [s m]. cbn [fst].
  destruct (SamplePlayer.voices s !! i) as [voice|] eqn:E.
  - destruct (processVoiceSample_shape M i sample voice s m E)
      as (v' & temp & m' & _ & Ha & Hn & Hp & ->).
    cbn [fst]. rewrite assignment_updateGrains.
    apply (map_setVoice assignment i v' voice (SamplePlayer.with_tempBuffer temp s) E).
    unfold assignment. rewrite Ha, Hn, Hp. reflexivity.
  - unfold SamplePlayer.processVoiceSample. rewrite E. reflexivity.
Qed.

Lemma assignment_processVoices (M : Libm) (numSamples : nat)
      (st : SamplePlayer.t * float) :
  map assignment (SamplePlayer.voices (fst (SamplePlayer.processVoices M numSamples st)))
  = map assignment (SamplePlayer.voices (fst st)).
Proof.
  unfold SamplePlayer.processVoices.
  apply (for_loop_ind
           (fun _ acc => map assignment (SamplePlayer.voices (fst acc))
                         = map assignment (SamplePlayer.voices (fst st))));
    [reflexivity|].
  intros i acc _ Hacc.
  destruct (SamplePlayer.voices (fst acc) !! i) as [voice|]; [|exact Hacc].
  destruct (negb (Voice.isActive voice)); [exact Hacc|].
  apply (for_loop_ind
           (fun _ acc' => map assignment (SamplePlayer.voices (fst acc'))
                          = map assignment (SamplePlayer.voices (fst st))));
    [exact Hacc|].
  intros sample acc' _ Hacc'. rewrite assignment_processVoiceSample. exact Hacc'.
Qed.

(** X24: neither a block nor a note-off ever frees a voice.  [processBlock]
    and the handling of a note-off leave every voice of the pool with the
    activity flag, the note and the pitch ratio it had: a voice that sounds
    stays active until [startVoice], [stopAllVoices] or [releaseResources]
    resets it. *)
Theorem block_and_noteOff_keep_voice_assignments (M : Libm)
        (buffer : AudioBuffer.t) (startSample numSamples : nat) (noteNumber : Z)
        (s : SamplePlayer.t) :
  map assignment
      (SamplePlayer.voices
         (fst (SamplePlayer.processBlock M buffer startSample numSamples s)))
  = map assignment (SamplePlayer.voices s)
  /\ map assignment
         (SamplePlayer.voices (SamplePlayer.handleMidiMessage M (NoteOff noteNumber) s))
     = map assignment (SamplePlayer.voices s).
Proof.
  split.
  - rewrite processBlock_voices. destruct (_ || _)%bool; [reflexivity|].
    apply (assignment_processVoices M numSamples
             (SamplePlayer.with_tempBuffer
                (AudioBuffer.clear (SamplePlayer.tempBuffer s)) s, 0)).
  - unfold SamplePlayer.handleMidiMessage.
    destruct (_ =? 0)%nat; [reflexivity|].
    destruct (SamplePlayer.PlaybackMode_eqb _ _); [|reflexivity].
    apply assignment_stopVoice.
Qed.

(** ** The grains of a voice *)

Lemma filter_all_active (gs : list Grain.t) :
  Forall (fun g => Grain.isActive g = true) (List.filter Grain.isActive gs).
Proof.
  induction gs as [|g gs IH]; [constructor|].
  cbn. destruct (Grain.isActive g) eqn:E; [constructor; assumption | exact IH].
Qed.

Lemma refreshGrains_live (s : SamplePlayer.t) (voice : Voice.t) :
  Voice.grains (SamplePlayer.refreshGrains s voice) <> []
  /\ Forall (fun g => Grain.isActive g = true)
            (Voice.grains (SamplePlayer.refreshGrains s voice)).
Proof.
  unfold SamplePlayer.refreshGrains. cbv zeta. cbn [Voice.grains Voice.with_grains].
  pose proof (filter_all_active (Voice.grains voice)) as Hf.
  set (gs := List.filter Grain.isActive (Voice.grains voice)) in *.
  destruct (last gs) as [back|] eqn:El.
  - destruct (Qgeb _ _).
    + split; [destruct gs; discriminate|].
      apply Forall_app. split; [exact Hf|]. constructor; [reflexivity | constructor].
    + split; [|exact Hf]. intros ->. discriminate El.
  - split; [destruct gs; discriminate|].
    apply Forall_app. split; [exact Hf|]. constructor; [reflexivity | constructor].
Qed.

Lemma grains_updateGrains (i : nat) (voice : Voice.t) (s : SamplePlayer.t) :
  SamplePlayer.voices s !! i = Some voice ->
  exists voice',
    SamplePlayer.voices (SamplePlayer.updateGrains i s) !! i = Some voice'
    /\ Voice.grains voice' = Voice.grains (SamplePlayer.refreshGrains s voice).
Proof.
  intros E. rewrite (updateGrains_unfold i voice s E). cbv zeta.
  set (v1 := SamplePlayer.refreshGrains s voice).
  set (s1 := SamplePlayer.setVoice i v1 s).
  assert (E1 : SamplePlayer.voices s1 !! i = Some v1)
    by apply (voices_setVoice_eq i v1 voice s E).
  destruct (negb (SamplePlayer.isHoldMode s)); [|exists v1; split; [exact E1 | reflexivity]].
  set (v2 := Voice.with_position (advanced voice s) v1).
  set (s2 := SamplePlayer.setVoice i v2 s1).
  assert (E2 : SamplePlayer.voices s2 !! i = Some v2)
    by apply (voices_setVoice_eq i v2 v1 s1 E1).
  destruct (_ && _)%bool; [|destruct (_ && _)%bool].
  - exists (Voice.with_position 0 v2). split; [|reflexivity].
    apply (voices_setVoice_eq i _ v2 s2 E2).
  - rewrite voices_stopVoice. destruct (SamplePlayer.PlaybackMode_eqb _ _).
    + exists (released (Voice.midiNote v2) v2). rewrite lookup_map, E2.
      split; [reflexivity|]. unfold released. destruct (_ && _)%bool; reflexivity.
    + exists v2. split; [exact E2 | reflexivity].
  - exists v2. split; [exact E2 | reflexivity].
Qed.

(** X25: [updateGrains] leaves the voice with a non-empty list of grains
    that are all active: the finished grains have been erased, and a new
    grain has been appended when none was left. *)
Theorem updateGrains_leaves_live_grains (i : nat) (voice : Voice.t)
        (s : SamplePlayer.t) :
  SamplePlayer.voices s !! i = Some voice ->
  exists voice',
    SamplePlayer.voices (SamplePlayer.updateGrains i s) !! i = Some voice'
    /\ Voice.grains voice' <> []
    /\ Forall (fun g => Grain.isActive g = true) (Voice.grains voice').
Proof.
  intros E. destruct (grains_updateGrains i voice s E) as (voice' & Hv & Hg).
  exists voice'. split; [exact Hv|]. rewrite Hg. apply refreshGrains_live.
Qed.

Lemma updateGrains_leaves_live_grains_witness :
  exists voice',
    SamplePlayer.voices (SamplePlayer.updateGrains 0 demo_playing) !! 0%nat
    = Some voice'
    /\ Voice.grains voice' <> []
    /\ Forall (fun g => Grain.isActive g = true) (Voice.grains voice').
Proof.
  apply (updateGrains_leaves_live_grains 0 (voiceAt 0 demo_playing) demo_playing).
  apply lookup_voiceAt. lazy. lia.
Defined.

(** ** The anti-alias filter *)

(** X26: the low-pass that [setCutoff] designs has unit gain at DC.  Once
    a constant input has filled the delay lines, the filter returns that
    constant and its delay lines keep holding it, for every cutoff for which
    the normalising coefficient [1 + alpha] is not 0. *)
Theorem butterworth_has_unit_gain_at_dc (M : Libm) (frequency c : float)
        (f : DSPUtils.ButterworthFilter.t) :
  let f' := DSPUtils.ButterworthFilter.setCutoff M frequency f in
  ~ 1 + sin M (2 * pi_f * frequency / DSPUtils.ButterworthFilter.fs f)
        / 1.414213562 == 0 ->
  settled_on c f ->
  snd (DSPUtils.ButterworthFilter.process c f') == c
  /\ settled_on c (fst (DSPUtils.ButterworthFilter.process c f')).
Proof.
  cbv zeta. intros Ha0 (Hx1 & Hx2 & Hy1 & Hy2).
  assert (Hout : snd (DSPUtils.ButterworthFilter.process c
                        (DSPUtils.ButterworthFilter.setCutoff M frequency f)) == c).
  { unfold DSPUtils.ButterworthFilter.process, DSPUtils.ButterworthFilter.setCutoff.
    cbv zeta.
    cbn [snd DSPUtils.ButterworthFilter.a DSPUtils.ButterworthFilter.b
         DSPUtils.ButterworthFilter.x DSPUtils.ButterworthFilter.y
         DSPUtils.at0 DSPUtils.at1 DSPUtils.at2].
    rewrite Hx1, Hx2, Hy1, Hy2. field.
    intros E. apply Ha0.
    set (sine := sin M _) in *.
    assert (Es : sine == - 1.414213562) by lra.
    rewrite Es. reflexivity. }
  split; [exact Hout|].
  unfold settled_on.
  split; [reflexivity|]. split; [exact Hx1|]. split; [exact Hout | exact Hy1].
Qed.

Lemma butterworth_has_unit_gain_at_dc_witness :
  let f' := DSPUtils.ButterworthFilter.setCutoff libm_ref 1000 demo_filter in
  snd (DSPUtils.ButterworthFilter.process 0.5 f') == 0.5
  /\ settled_on 0.5 (fst (DSPUtils.ButterworthFilter.process 0.5 f')).
Proof.
  apply (butterworth_has_unit_gain_at_dc libm_ref 1000 0.5 demo_filter).
  - intros E. apply Qeq_bool_iff in E. lazy in E. discriminate E.
  - unfold settled_on. repeat split; reflexivity.
Defined.

(** ** The envelopes of a running engine *)

Lemma healthy_same_envelope (v v' : Voice.t) :
  Voice.envelope v' = Voice.envelope v -> healthy v -> healthy v'.
Proof. unfold healthy. intros ->. tauto. Qed.

Lemma healthy_process (v v' : Voice.t) :
  Voice.envelope v' = fst (Envelope.process (Voice.envelope v)) ->
  healthy v -> healthy v'.
Proof.
  unfold healthy. intros -> (Hs & Hc & _).
  split; [apply EnvelopeFacts.process_sane, Hs|].
  split; [apply (EnvelopeFacts.process_step _ Hs Hc)|].
  apply (EnvelopeFacts.process_settled _ Hs Hc).
Qed.

Lemma healthy_noteOff (v v' : Voice.t) :
  Voice.envelope v' = Envelope.noteOff (Voice.envelope v) ->
  healthy v -> healthy v'.
Proof.
  unfold healthy. intros -> (Hs & Hc & Hl).
  split; [apply EnvelopeFacts.noteOff_sane, Hs|].
  split; [apply EnvelopeFacts.noteOff_clock_ok, Hc|].
  apply EnvelopeFacts.noteOff_settled, Hl.
Qed.

Lemma healthy_noteOn (v v' : Voice.t) :
  Voice.envelope v' = Envelope.noteOn (Voice.envelope v) ->
  healthy v -> healthy v'.
Proof.
  unfold healthy. intros -> (Hs & Hc & Hl).
  split; [apply EnvelopeFacts.noteOn_sane, Hs|].
  split; [apply EnvelopeFacts.noteOn_clock_ok|].
  apply EnvelopeFacts.noteOn_settled, Hl.
Qed.

Lemma healthy_released (midiNoteNumber : Z) (v : Voice.t) :
  healthy v -> healthy (released midiNoteNumber v).
Proof.
  intros H. unfold released. destruct (_ && _)%bool; [|exact H].
  apply (healthy_noteOff v); [reflexivity | exact H].
Qed.

Lemma healthy_stopVoice (midiNoteNumber : Z) (s : SamplePlayer.t) :
  Forall healthy (SamplePlayer.voices s) ->
  Forall healthy (SamplePlayer.voices (SamplePlayer.stopVoice midiNoteNumber s)).
Proof.
  intros H. rewrite voices_stopVoice.
  destruct (SamplePlayer.PlaybackMode_eqb _ _); [|exact H].
  apply Forall_map. eapply Forall_impl; [exact H|].
  intros v Hv. apply healthy_released, Hv.
Qed.

Lemma healthy_setVoice (i : nat) (v : Voice.t) (s : SamplePlayer.t) :
  Forall healthy (SamplePlayer.voices s) -> healthy v ->
  Forall healthy (SamplePlayer.voices (SamplePlayer.setVoice i v s)).
Proof. intros H Hv. apply Forall_insert; assumption. Qed.

Lemma healthy_updateGrains (i : nat) (s : SamplePlayer.t) :
  Forall healthy (SamplePlayer.voices s) ->
  Forall healthy (SamplePlayer.voices (SamplePlayer.updateGrains i s)).
Proof.
  intros H. destruct (SamplePlayer.voices s !! i) as [voice|] eqn:E.
  - pose proof (Forall_lookup_1 _ _ _ _ H E) as Hv.
    rewrite (updateGrains_unfold i voice s E). cbv zeta.
    assert (H1 : Forall healthy
                   (SamplePlayer.voices
                      (SamplePlayer.setVoice i (SamplePlayer.refreshGrains s voice) s))).
    { apply healthy_setVoice; [exact H|].
      apply (healthy_same_envelope voice); [reflexivity | exact Hv]. }
    destruct (negb (SamplePlayer.isHoldMode s)); [|exact H1].
    assert (H2 : Forall healthy
                   (SamplePlayer.voices
                      (SamplePlayer.setVoice i
                         (Voice.with_position (advanced voice s)
                            (SamplePlayer.refreshGrains s voice))
                         (SamplePlayer.setVoice i
                            (SamplePlayer.refreshGrains s voice) s)))).
    { apply healthy_setVoice; [exact H1|].
      apply (healthy_same_envelope voice); [reflexivity | exact Hv]. }
    destruct (_ && _)%bool; [|destruct (_ && _)%bool].
    + apply healthy_setVoice; [exact H2|].
      apply (healthy_same_envelope voice); [reflexivity | exact Hv].
    + apply healthy_stopVoice, H2.
    + exact H2.
  - unfold SamplePlayer.updateGrains. rewrite E. exact H.
Qed.

Lemma healthy_processVoices (M : Libm) (numSamples : nat)
      (st : SamplePlayer.t * float) :
  Forall healthy (SamplePlayer.voices (fst st)) ->
  Forall healthy (SamplePlayer.voices (fst (SamplePlayer.processVoices M numSamples st))).
Proof.
  intros H. unfold SamplePlayer.processVoices.
  apply (for_loop_ind (fun _ acc => Forall healthy (SamplePlayer.voices (fst acc))));
    [exact H|].
  intros i acc _ Hacc.
  destruct (SamplePlayer.voices (fst acc) !! i) as [voice|]; [|exact Hacc].
  destruct (negb (Voice.isActive voice)); [exact Hacc|].
  apply (for_loop_ind (fun _ acc' => Forall healthy (SamplePlayer.voices (fst acc'))));
    [exact Hacc|].
  intros sample [s m] _ Hs. cbn [fst] in Hs.
  destruct (SamplePlayer.voices s !! i) as [v|] eqn:E.
  - destruct (processVoiceSample_voice M i sample v s m E)
      as (v' & temp & m' & _ & _ & _ & _ & He & ->).
    cbn [fst]. apply healthy_updateGrains.
    apply (healthy_setVoice i v' (SamplePlayer.with_tempBuffer temp s) Hs).
    apply (healthy_process v v' He). apply (Forall_lookup_1 _ _ _ _ Hs E).
  - unfold SamplePlayer.processVoiceSample. rewrite E. exact Hs.
Qed.

Lemma healthy_halted (v : Voice.t) : healthy v -> healthy (halted v).
Proof.
  intros H. unfold halted. destruct (Voice.isActive v); [|exact H].
  apply (healthy_noteOff
           (Voice.with_envelope
              (Envelope.with_releaseTime 0.02 (Voice.envelope v)) v));
    [reflexivity|].
  destruct H as ((Ha & Hd & Hr & Hsus & Hsr) & Hc & Hl).
  unfold healthy, EnvelopeSpec.sane.
  cbn [Voice.envelope Voice.with_envelope Envelope.attackTime Envelope.decayTime
       Envelope.releaseTime Envelope.sustainLevel Envelope.sampleRate
       Envelope.with_releaseTime].
  split; [|split; [exact Hc | exact Hl]].
  repeat split; try assumption; try apply Hsus; try reflexivity.
Qed.

Lemma healthy_claimVoice (M : Libm) (s : SamplePlayer.t) (midiNoteNumber : Z)
      (velocity : float) (v : Voice.t) :
  healthy v -> healthy (SamplePlayer.claimVoice M s midiNoteNumber velocity v).
Proof.
  intros H. unfold SamplePlayer.claimVoice. cbv zeta.
  destruct (_ || _)%bool.
  - eapply healthy_noteOn; [reflexivity|].
    destruct H as ((Ha & Hd & Hr & Hsus & Hsr) & Hc & Hl).
    unfold healthy, EnvelopeSpec.sane.
    cbn [Voice.envelope Voice.with_envelope Envelope.attackTime Envelope.decayTime
         Envelope.releaseTime Envelope.sustainLevel Envelope.sampleRate
         Envelope.with_releaseTime Envelope.with_sustainLevel].
    split; [|split; [exact Hc | exact Hl]].
    repeat split; try assumption; try reflexivity; lra.
  - eapply healthy_noteOn; [reflexivity|].
    apply (healthy_same_envelope v); [reflexivity | exact H].
Qed.

Lemma healthy_startVoice (M : Libm) (midiNoteNumber : Z) (velocity : float)
      (s : SamplePlayer.t) :
  Forall healthy (SamplePlayer.voices s) ->
  Forall healthy
         (SamplePlayer.voices (SamplePlayer.startVoice M midiNoteNumber velocity s)).
Proof.
  intros H. rewrite startVoice_unfold.
  assert (H1 : Forall healthy (SamplePlayer.voices (fst (SamplePlayer.acquireVoice s)))).
  { unfold SamplePlayer.acquireVoice.
    destruct (SamplePlayer.findFreeVoice s); [exact H|].
    destruct (if SamplePlayer.PlaybackMode_eqb _ _ then _ else _); [exact H|].
    cbn [fst]. unfold SamplePlayer.stealVoice.
    cbn [SamplePlayer.voices SamplePlayer.with_voices].
    apply Forall_alter; [exact H|]. intros v _ Hv.
    apply (healthy_same_envelope v); [reflexivity | exact Hv]. }
  destruct (snd (SamplePlayer.acquireVoice s)); [|exact H1].
  cbn [SamplePlayer.voices SamplePlayer.with_voices].
  apply Forall_alter; [exact H1|]. intros v _ Hv. apply healthy_claimVoice, Hv.
Qed.

Lemma healthy_call (M : Libm) (c : ApiCall) (s : SamplePlayer.t) :
  match c with
  | CallPrepareToPlay sampleRate _ => 0 < sampleRate
  | _ => True
  end ->
  Forall healthy (SamplePlayer.voices s) ->
  Forall healthy (SamplePlayer.voices (call M c s)).
Proof.
  intros Hc H. destruct c; cbn [call].
  - rewrite voices_loadFile. exact H.
  - unfold SamplePlayer.prepareToPlay. cbv zeta.
    cbn [SamplePlayer.voices SamplePlayer.with_voices SamplePlayer.with_outputLimiter
         SamplePlayer.with_tempBuffer SamplePlayer.with_sampleRateRatio
         SamplePlayer.with_currentSampleRate].
    apply Forall_map. eapply Forall_impl; [exact H|].
    intros v ((Ha & Hd & Hr & Hsus & Hsr) & Hck & Hl).
    unfold healthy, EnvelopeSpec.sane.
    split; [|split; [exact Hck | exact Hl]].
    cbn. repeat split; try reflexivity; try lra; exact Hc.
  - unfold SamplePlayer.releaseResources. cbv zeta.
    cbn [SamplePlayer.voices SamplePlayer.with_voices].
    apply Forall_map. eapply Forall_impl; [exact H|].
    intros v Hv. apply (healthy_same_envelope v); [reflexivity | exact Hv].
  - rewrite processBlock_voices. destruct (_ || _)%bool; [exact H|].
    apply healthy_processVoices. exact H.
  - unfold SamplePlayer.handleMidiMessage.
    destruct (_ =? 0)%nat; [exact H|].
    destruct message as [noteNumber floatVelocity|noteNumber|]; [| |exact H].
    + destruct (SamplePlayer.playbackMode s); apply healthy_startVoice; try exact H.
      rewrite voices_stopAllVoices. apply Forall_map.
      eapply Forall_impl; [exact H|]. intros v Hv. apply healthy_halted, Hv.
    + destruct (SamplePlayer.PlaybackMode_eqb _ _); [|exact H].
      apply healthy_stopVoice, H.
  - exact H.
  - exact H.
  - unfold SamplePlayer.setHoldMode. cbv zeta.
    destruct shouldHold; [|exact H].
    destruct (List.find _ _); exact H.
  - unfold SamplePlayer.setHoldPosition.
    destruct (0 <? _)%nat; [|exact H]. cbv zeta.
    destruct (SamplePlayer.isHoldMode _); [|exact H].
    cbn [SamplePlayer.voices SamplePlayer.with_voices SamplePlayer.with_holdPosition].
    apply Forall_map. eapply Forall_impl; [exact H|].
    intros v Hv. destruct (Voice.isActive v); [|exact Hv].
    apply (healthy_same_envelope v); [reflexivity | exact Hv].
  - exact H.
  - exact H.
  - rewrite voices_stopAllVoices. apply Forall_map.
    eapply Forall_impl; [exact H|]. intros v Hv. apply healthy_halted, Hv.
Qed.

(** X27: in a running engine every envelope level lies in [[0, 1]].  After
    any sequence of calls of the public interface on a freshly constructed
    engine, with positive sample rates given to [prepareToPlay], the
    envelope of every voice of the pool has a level between 0 and 1, and a
    level of 0 when it is Idle. *)
Theorem reachable_envelope_levels_within_unit (M : Libm) (calls : list ApiCall) :
  positive_rates calls ->
  Forall envelope_settled (SamplePlayer.voices (after M calls)).
Proof.
  intros Hrates.
  assert (H : Forall healthy (SamplePlayer.voices (after M calls))).
  { unfold after.
    assert (H0 : Forall healthy (SamplePlayer.voices SamplePlayer.construct)).
    { unfold SamplePlayer.construct. cbn [SamplePlayer.voices].
      apply Forall_map, Forall_forall. intros v Hv.
      apply elem_of_replicate in Hv as [-> _].
      unfold healthy, EnvelopeSpec.sane, EnvelopeSpec.clock_ok, EnvelopeSpec.settled.
      cbn. repeat split; try reflexivity; lra. }
    revert H0. generalize SamplePlayer.construct as s0.
    induction Hrates as [|c calls Hc _ IH]; intros s0 H0; [exact H0|].
    cbn [fold_left]. apply IH. apply healthy_call; assumption. }
  eapply Forall_impl; [exact H|].
  intros v (_ & _ & Hl). exact Hl.
Qed.

Lemma reachable_envelope_levels_within_unit_witness :
  Forall envelope_settled (SamplePlayer.voices (after libm_ref demo_session)).
Proof.
  apply (reachable_envelope_levels_within_unit libm_ref demo_session).
  unfold positive_rates, demo_session. repeat constructor.
Defined.

(** * Properties of the rounded functions *)

(** ** Rounding *)

Lemma rnd_zero (rnd : Q -> Q) : round_to_nearest rnd -> rnd 0 == 0.
Proof.
  intros (_ & _ & _ & _ & _ & Herr).
  destruct (Herr 0 ltac:(lra)) as [H1 H2]. lra.
Qed.

Lemma rnd_nonneg (rnd : Q -> Q) (x : Q) :
  round_to_nearest rnd -> 0 <= x -> 0 <= rnd x.
Proof.
  intros H Hx. pose proof (rnd_zero rnd H) as H0.
  destruct H as (_ & Hmono & _). specialize (Hmono 0 x Hx). lra.
Qed.

Lemma rnd_nonpos (rnd : Q -> Q) (x : Q) :
  round_to_nearest rnd -> x <= 0 -> rnd x <= 0.
Proof.
  intros H Hx. pose proof (rnd_zero rnd H) as H0.
  destruct H as (_ & Hmono & _). specialize (Hmono x 0 Hx). lra.
Qed.

Lemma rnd_abs (rnd : Q -> Q) (x B : Q) :
  round_to_nearest rnd -> Qabs x <= B -> Qabs (rnd x) <= rnd B.
Proof.
  intros (_ & Hmono & Hodd & _) Hx.
  apply Qabs_Qle_condition in Hx. destruct Hx as [Hlo Hhi].
  apply Qabs_Qle_condition. split.
  - rewrite <- Hodd. apply Hmono, Hlo.
  - apply Hmono, Hhi.
Qed.

Lemma rnd_upper (rnd : Q -> Q) (x : Q) :
  round_to_nearest rnd -> 0 <= x -> rnd x <= x * (1 + unit_roundoff).
Proof. intros (_ & _ & _ & _ & _ & Herr) Hx. apply (Herr x Hx). Qed.

Lemma rnd_lower (rnd : Q -> Q) (x : Q) :
  round_to_nearest rnd -> 0 <= x -> x * (1 - unit_roundoff) <= rnd x.
Proof. intros (_ & _ & _ & _ & _ & Herr) Hx. apply (Herr x Hx). Qed.

(** ** The rounding of binary32 *)
(** ** The rounding of binary32 *)

Lemma pow2_pos (e : Z) : 0 < 2 ^ e.
Proof. apply Qpower_0_lt. reflexivity. Qed.

Lemma pow2_succ (e : Z) : 2 ^ (e + 1) == 2 * 2 ^ e.
Proof.
  rewrite Qpower_plus by (intros E; discriminate E).
  change (2 ^ 1) with 2. ring.
Qed.

Lemma pow2_le (e e' : Z) : (e <= e')%Z -> 2 ^ e <= 2 ^ e'.
Proof. intros H. apply Qpower_le_compat_l; [exact H | discriminate]. Qed.

Lemma pow2_of_Z (a : Z) : (0 <= a)%Z -> inject_Z (2 ^ a) == 2 ^ a.
Proof. intros H. apply (Zpower_Qpower 2 a H). Qed.

(** The exponent that [binade] computes is the exponent of the number. *)
Lemma binade_spec (x : Q) :
  0 < x -> 2 ^ binade x <= x /\ x < 2 ^ (binade x + 1).
Proof.
  intros Hx. destruct x as [n d].
  assert (Hn : (0 < n)%Z).
  { unfold Qlt in Hx. cbn in Hx. lia. }
  unfold binade. cbn [Qnum Qden].
  set (a := Z.log2 n). set (b := Z.log2 (Z.pos d)).
  assert (Ha : (2 ^ a <= n < 2 ^ (a + 1))%Z).
  { replace (a + 1)%Z with (Z.succ a) by lia. apply Z.log2_spec. exact Hn. }
  assert (Hb : (2 ^ b <= Z.pos d < 2 ^ (b + 1))%Z).
  { replace (b + 1)%Z with (Z.succ b) by lia. apply Z.log2_spec. lia. }
  assert (Ha0 : (0 <= a)%Z) by apply Z.log2_nonneg.
  assert (Hb0 : (0 <= b)%Z) by apply Z.log2_nonneg.
  assert (HaQ : 2 ^ a <= inject_Z n /\ inject_Z n < 2 ^ (a + 1)).
  { rewrite <- (pow2_of_Z a Ha0), <- (pow2_of_Z (a + 1)) by lia.
    rewrite <- Zle_Qle, <- Zlt_Qlt. exact Ha. }
  assert (HbQ : 2 ^ b <= inject_Z (Z.pos d) /\ inject_Z (Z.pos d) < 2 ^ (b + 1)).
  { rewrite <- (pow2_of_Z b Hb0), <- (pow2_of_Z (b + 1)) by lia.
    rewrite <- Zle_Qle, <- Zlt_Qlt. exact Hb. }
  assert (Hd : 0 < inject_Z (Z.pos d)) by reflexivity.
  assert (E : n # d == inject_Z n / inject_Z (Z.pos d)) by apply Qmake_Qdiv.
  pose proof (pow2_pos a). pose proof (pow2_pos b).
  pose proof (pow2_pos (a - b)). pose proof (pow2_pos (a - b - 1)).
  assert (Hhi : n # d < 2 ^ (a - b + 1)).
  { rewrite E. apply Qlt_shift_div_r; [exact Hd|].
    replace (a - b + 1)%Z with ((a + 1) - b)%Z by lia.
    rewrite Qpower_minus by (intros E'; discriminate E').
    assert (E2 : 2 ^ (a + 1) / 2 ^ b * inject_Z (Z.pos d)
                 == 2 ^ (a + 1) * (inject_Z (Z.pos d) / 2 ^ b)) by (field; lra).
    rewrite E2.
    assert (1 <= inject_Z (Z.pos d) / 2 ^ b).
    { apply Qle_shift_div_l; lra. }
    pose proof (pow2_pos (a + 1)). nra. }
  assert (Hlo : 2 ^ (a - b - 1) <= n # d).
  { rewrite E. apply Qle_shift_div_l; [exact Hd|].
    replace (a - b - 1)%Z with (a - (b + 1))%Z by lia.
    rewrite Qpower_minus by (intros E'; discriminate E').
    assert (E2 : 2 ^ a / 2 ^ (b + 1) * inject_Z (Z.pos d)
                 == 2 ^ a * (inject_Z (Z.pos d) / 2 ^ (b + 1)))
      by (field; pose proof (pow2_pos (b + 1)); lra).
    rewrite E2.
    assert (inject_Z (Z.pos d) / 2 ^ (b + 1) <= 1).
    { apply Qle_shift_div_r; [apply pow2_pos | lra]. }
    nra. }
  destruct (Qle_bool (2 ^ (a - b)) (n # d)) eqn:Ecmp.
  - apply Qle_bool_iff in Ecmp. split; assumption.
  - apply Qle_bool_false in Ecmp.
    replace (a - b - 1 + 1)%Z with (a - b)%Z by lia. split; assumption.
Qed.

Lemma binade_unique (x : Q) (e : Z) :
  2 ^ e <= x -> x < 2 ^ (e + 1) -> binade x = e.
Proof.
  intros Hlo Hhi.
  assert (Hx : 0 < x) by (pose proof (pow2_pos e); lra).
  destruct (binade_spec x Hx) as [Blo Bhi].
  assert (H1 : (binade x < e + 1)%Z).
  { apply (Qpower_lt_compat_l_inv 2); [lra | reflexivity]. }
  assert (H2 : (e < binade x + 1)%Z).
  { apply (Qpower_lt_compat_l_inv 2); [lra | reflexivity]. }
  lia.
Qed.

Lemma binade_comp (x y : Q) : 0 < x -> x == y -> binade x = binade y.
Proof.
  intros Hx E. destruct (binade_spec x Hx) as [Blo Bhi].
  symmetry. apply binade_unique; rewrite <- E; assumption.
Qed.

Lemma binade_mono (x y : Q) : 0 < x -> x <= y -> (binade x <= binade y)%Z.
Proof.
  intros Hx Hxy.
  destruct (binade_spec x Hx) as [Xlo Xhi].
  destruct (binade_spec y ltac:(lra)) as [Ylo Yhi].
  assert (H : (binade x < binade y + 1)%Z).
  { apply (Qpower_lt_compat_l_inv 2); [lra | reflexivity]. }
  lia.
Qed.

(** Rounding to the nearest integer. *)
Lemma round_half_even_comp (q q' : Q) :
  q == q' -> round_half_even q = round_half_even q'.
Proof.
  intros E. unfold round_half_even.
  rewrite (Qfloor_comp _ _ E).
  assert (E2 : q - inject_Z (Qfloor q') == q' - inject_Z (Qfloor q'))
    by (rewrite E; reflexivity).
  rewrite (Qcompare_comp _ _ E2 (1 # 2) (1 # 2) (Qeq_refl _)). reflexivity.
Qed.

Lemma round_half_even_near (q : Q) :
  q - (1 # 2) <= inject_Z (round_half_even q) <= q + (1 # 2).
Proof.
  unfold round_half_even.
  pose proof (Qfloor_le q) as Hlo. pose proof (Qlt_floor q) as Hhi.
  rewrite inject_Z_plus in Hhi. change (inject_Z 1) with 1 in Hhi.
  destruct (Qcompare_spec (q - inject_Z (Qfloor q)) (1 # 2)) as [E|E|E].
  - destruct (Z.even (Qfloor q)).
    + lra.
    + rewrite inject_Z_plus. change (inject_Z 1) with 1. lra.
  - lra.
  - rewrite inject_Z_plus. change (inject_Z 1) with 1. lra.
Qed.

Lemma round_half_even_Z (z : Z) : round_half_even (inject_Z z) = z.
Proof.
  unfold round_half_even. rewrite Qfloor_Z.
  assert (E : inject_Z z - inject_Z z == 0) by ring.
  rewrite (Qcompare_comp _ _ E (1 # 2) (1 # 2) (Qeq_refl _)). reflexivity.
Qed.

Lemma round_half_even_mono (q q' : Q) :
  q <= q' -> (round_half_even q <= round_half_even q')%Z.
Proof.
  intros H.
  destruct (Z.le_gt_cases (round_half_even q) (round_half_even q')) as [Hle|Hgt];
    [exact Hle|].
  exfalso.
  pose proof (round_half_even_near q) as [_ Hq].
  pose proof (round_half_even_near q') as [Hq' _].
  assert (Hz : inject_Z (round_half_even q') + 1 <= inject_Z (round_half_even q)).
  { change 1 with (inject_Z 1). rewrite <- inject_Z_plus, <- Zle_Qle. lia. }
  assert (E : q == q') by lra.
  rewrite (round_half_even_comp _ _ E) in Hgt. lia.
Qed.

(** The significand of a positive number, before and after rounding, lies
    between [2^23] and [2^24]. *)
Lemma ulp_binade (e : Z) :
  2 ^ (e - 23) * 8388608 == 2 ^ e /\ 2 ^ (e - 23) * 16777216 == 2 ^ (e + 1).
Proof.
  split.
  - replace e with ((e - 23) + 23)%Z at 2 by lia.
    rewrite Qpower_plus by (intros E; discriminate E). reflexivity.
  - replace (e + 1)%Z with ((e - 23) + 24)%Z by lia.
    rewrite Qpower_plus by (intros E; discriminate E). reflexivity.
Qed.

Lemma significand_range (y : Q) :
  0 < y ->
  8388608 <= y / 2 ^ (binade y - 23) /\ y / 2 ^ (binade y - 23) < 16777216.
Proof.
  intros Hy. destruct (binade_spec y Hy) as [Hlo Hhi].
  destruct (ulp_binade (binade y)) as [E1 E2].
  pose proof (pow2_pos (binade y - 23)) as Hu.
  split.
  - apply Qle_shift_div_l; [exact Hu|]. rewrite Qmult_comm, E1. exact Hlo.
  - apply Qlt_shift_div_r; [exact Hu|]. rewrite Qmult_comm, E2. exact Hhi.
Qed.

Lemma rounded_significand_range (y : Q) :
  0 < y ->
  (8388608 <= round_half_even (y / 2 ^ (binade y - 23)) <= 16777216)%Z.
Proof.
  intros Hy. destruct (significand_range y Hy) as [Hlo Hhi].
  split.
  - rewrite <- (round_half_even_Z 8388608).
    apply round_half_even_mono. exact Hlo.
  - rewrite <- (round_half_even_Z 16777216).
    apply round_half_even_mono. apply Qlt_le_weak. exact Hhi.
Qed.

Lemma round_significand_eq (y : Q) :
  round_significand y
  == inject_Z (round_half_even (y / 2 ^ (binade y - 23))) * 2 ^ (binade y - 23).
Proof. unfold round_significand. cbv zeta. apply Qred_correct. Qed.

Lemma round_significand_range (y : Q) :
  0 < y ->
  2 ^ binade y <= round_significand y <= 2 ^ (binade y + 1).
Proof.
  intros Hy. rewrite round_significand_eq.
  destruct (rounded_significand_range y Hy) as [Hlo Hhi].
  destruct (ulp_binade (binade y)) as [E1 E2].
  pose proof (pow2_pos (binade y - 23)) as Hu.
  rewrite <- E1, <- E2.
  rewrite Zle_Qle in Hlo. rewrite Zle_Qle in Hhi.
  change (inject_Z 8388608) with 8388608 in Hlo.
  change (inject_Z 16777216) with 16777216 in Hhi.
  split.
  - rewrite (Qmult_comm (2 ^ _)). apply Qmult_le_compat_r; lra.
  - rewrite (Qmult_comm (2 ^ _) 16777216). apply Qmult_le_compat_r; lra.
Qed.

Lemma round_significand_pos (y : Q) : 0 < y -> 0 < round_significand y.
Proof.
  intros Hy. destruct (round_significand_range y Hy) as [Hlo _].
  pose proof (pow2_pos (binade y)). lra.
Qed.

Lemma round_significand_error (y : Q) :
  0 < y ->
  y * (1 - unit_roundoff) <= round_significand y <= y * (1 + unit_roundoff).
Proof.
  intros Hy. rewrite round_significand_eq.
  pose proof (pow2_pos (binade y - 23)) as Hu.
  set (ulp := 2 ^ (binade y - 23)) in *.
  destruct (round_half_even_near (y / ulp)) as [Hlo Hhi].
  set (M := inject_Z (round_half_even (y / ulp))) in *.
  destruct (binade_spec y Hy) as [Blo _].
  destruct (ulp_binade (binade y)) as [E1 _]. fold ulp in E1.
  assert (Ey : y == y / ulp * ulp) by (field; lra).
  assert (H1 : (y / ulp - (1 # 2)) * ulp <= M * ulp)
    by (apply Qmult_le_compat_r; lra).
  assert (H2 : M * ulp <= (y / ulp + (1 # 2)) * ulp)
    by (apply Qmult_le_compat_r; lra).
  assert (E3 : (y / ulp - (1 # 2)) * ulp == y - ulp * (1 # 2)) by (field; lra).
  assert (E4 : (y / ulp + (1 # 2)) * ulp == y + ulp * (1 # 2)) by (field; lra).
  assert (Hulp : ulp * 8388608 <= y) by lra.
  unfold unit_roundoff. lra.
Qed.

Lemma round_significand_comp (y y' : Q) :
  0 < y -> y == y' -> round_significand y == round_significand y'.
Proof.
  intros Hy E. rewrite !round_significand_eq.
  rewrite <- (binade_comp y y' Hy E).
  assert (E2 : y / 2 ^ (binade y - 23) == y' / 2 ^ (binade y - 23))
    by (apply Qdiv_comp; [exact E | reflexivity]).
  rewrite (round_half_even_comp _ _ E2). reflexivity.
Qed.

Lemma round_significand_mono (y y' : Q) :
  0 < y -> y <= y' -> round_significand y <= round_significand y'.
Proof.
  intros Hy Hle.
  assert (Hy' : 0 < y') by lra.
  pose proof (binade_mono y y' Hy Hle) as He.
  destruct (Z.eq_dec (binade y) (binade y')) as [E|Hne].
  - rewrite !round_significand_eq, <- E.
    pose proof (pow2_pos (binade y - 23)) as Hu.
    apply Qmult_le_compat_r; [|lra].
    rewrite <- Zle_Qle. apply round_half_even_mono.
    apply Qmult_le_compat_r; [exact Hle|].
    apply Qlt_le_weak, Qinv_lt_0_compat, Hu.
  - destruct (round_significand_range y Hy) as [_ Hhi].
    destruct (round_significand_range y' Hy') as [Hlo _].
    assert (Hpow : 2 ^ (binade y + 1) <= 2 ^ binade y') by (apply pow2_le; lia).
    lra.
Qed.

Lemma round_significand_idem (y : Q) :
  0 < y -> round_significand (round_significand y) == round_significand y.
Proof.
  intros Hy.
  pose proof (round_significand_pos y Hy) as Hpos.
  destruct (round_significand_range y Hy) as [Rlo Rhi].
  destruct (rounded_significand_range y Hy) as [Mlo Mhi].
  pose proof (round_significand_eq y) as Ey.
  set (e := binade y) in *. set (M := round_half_even (y / 2 ^ (e - 23))) in *.
  pose proof (pow2_pos (e - 23)) as Hu.
  destruct (ulp_binade e) as [E1 E2].
  destruct (Z.eq_dec M 16777216%Z) as [EM|HM].
  - (* rounded up to the next power of two *)
    assert (Er : round_significand y == 2 ^ (e + 1)).
    { rewrite Ey, EM, <- E2. change (inject_Z 16777216) with 16777216. ring. }
    assert (Eb : binade (round_significand y) = (e + 1)%Z).
    { apply binade_unique; rewrite Er; [lra|].
      rewrite (pow2_succ (e + 1)). pose proof (pow2_pos (e + 1)). lra. }
    rewrite (round_significand_eq (round_significand y)), Eb.
    destruct (ulp_binade (e + 1)) as [E3 _].
    pose proof (pow2_pos (e + 1 - 23)) as Hu'.
    assert (Eq : round_significand y / 2 ^ (e + 1 - 23) == inject_Z 8388608).
    { rewrite Er, <- E3. change (inject_Z 8388608) with 8388608. field. lra. }
    rewrite (round_half_even_comp _ _ Eq), round_half_even_Z, Er, <- E3.
    change (inject_Z 8388608) with 8388608. ring.
  - assert (Eb : binade (round_significand y) = e).
    { apply binade_unique; [exact Rlo|].
      rewrite Ey, <- E2.
      assert (HMQ : inject_Z M < 16777216).
      { change 16777216 with (inject_Z 16777216). rewrite <- Zlt_Qlt. lia. }
      rewrite (Qmult_comm (2 ^ _) 16777216). apply Qmult_lt_compat_r; assumption. }
    rewrite (round_significand_eq (round_significand y)), Eb.
    assert (Eq : round_significand y / 2 ^ (e - 23) == inject_Z M).
    { rewrite Ey. field. lra. }
    rewrite (round_half_even_comp _ _ Eq), round_half_even_Z, Ey. reflexivity.
Qed.

(** The rounding of binary32 is a rounding to nearest. *)
Lemma binary32_comp (x y : Q) : x == y -> binary32 x == binary32 y.
Proof.
  intros E. unfold binary32.
  rewrite <- (Qcompare_comp _ _ E 0 0 (Qeq_refl _)).
  destruct (Qcompare_spec x 0) as [H|H|H].
  - reflexivity.
  - apply Qopp_comp. apply round_significand_comp; [lra | rewrite E; reflexivity].
  - apply round_significand_comp; assumption.
Qed.

Lemma binary32_pos (x : Q) : 0 < x -> binary32 x = round_significand x.
Proof.
  intros H. unfold binary32.
  destruct (Qcompare_spec x 0) as [E|E|E]; [lra | lra | reflexivity].
Qed.

Lemma binary32_neg (x : Q) : x < 0 -> binary32 x = - round_significand (- x).
Proof.
  intros H. unfold binary32.
  destruct (Qcompare_spec x 0) as [E|E|E]; [lra | reflexivity | lra].
Qed.

Lemma binary32_zero (x : Q) : x == 0 -> binary32 x = 0.
Proof.
  intros H. unfold binary32.
  destruct (Qcompare_spec x 0) as [E|E|E]; [reflexivity | lra | lra].
Qed.

Lemma binary32_round_to_nearest : round_to_nearest binary32.
Proof.
  unfold round_to_nearest. split; [exact binary32_comp|]. split; [|split; [|split; [|split]]].
  - (* order *)
    intros x y Hxy.
    destruct (Qlt_le_dec 0 x) as [Hx|Hx].
    + rewrite (binary32_pos x Hx), (binary32_pos y) by lra.
      apply round_significand_mono; assumption.
    + destruct (Qlt_le_dec x 0) as [Hx'|Hx'].
      * rewrite (binary32_neg x Hx').
        pose proof (round_significand_pos (- x) ltac:(lra)) as Hpx.
        destruct (Qlt_le_dec 0 y) as [Hy|Hy].
        -- rewrite (binary32_pos y Hy).
           pose proof (round_significand_pos y Hy). lra.
        -- destruct (Qlt_le_dec y 0) as [Hy'|Hy'].
           ++ rewrite (binary32_neg y Hy').
              apply Qopp_le_compat.
              apply round_significand_mono; lra.
           ++ rewrite (binary32_zero y) by lra. lra.
      * rewrite (binary32_zero x) by lra.
        destruct (Qlt_le_dec 0 y) as [Hy|Hy].
        -- rewrite (binary32_pos y Hy).
           pose proof (round_significand_pos y Hy). lra.
        -- rewrite (binary32_zero y) by lra. lra.
  - (* symmetry *)
    intros x.
    destruct (Qlt_le_dec 0 x) as [Hx|Hx].
    + rewrite (binary32_pos x Hx), (binary32_neg (- x)) by lra.
      apply Qopp_comp. apply round_significand_comp; [lra | ring].
    + destruct (Qlt_le_dec x 0) as [Hx'|Hx'].
      * rewrite (binary32_neg x Hx'), (binary32_pos (- x)) by lra. ring.
      * rewrite (binary32_zero x), (binary32_zero (- x)) by lra. reflexivity.
  - (* a float stays *)
    intros x.
    destruct (Qlt_le_dec 0 x) as [Hx|Hx].
    + rewrite (binary32_pos x Hx).
      pose proof (round_significand_pos x Hx) as Hp.
      rewrite (binary32_pos _ Hp). apply round_significand_idem, Hx.
    + destruct (Qlt_le_dec x 0) as [Hx'|Hx'].
      * rewrite (binary32_neg x Hx').
        pose proof (round_significand_pos (- x) ltac:(lra)) as Hp.
        rewrite (binary32_neg (- round_significand (- x))) by lra.
        apply Qopp_comp.
        rewrite (round_significand_comp (- - round_significand (- x))
                   (round_significand (- x))) by (lra || ring).
        apply round_significand_idem. lra.
      * rewrite (binary32_zero x) by lra. rewrite (binary32_zero 0) by reflexivity.
        reflexivity.
  - reflexivity.
  - intros x Hx.
    destruct (Qlt_le_dec 0 x) as [Hx'|Hx'].
    + rewrite (binary32_pos x Hx'). apply round_significand_error, Hx'.
    + rewrite (binary32_zero x) by lra. unfold unit_roundoff. lra.
Qed.

(** ** Loading in [float] arithmetic *)

Lemma rounded_dcBlockPass_cons (rnd : Q -> Q) (d : DSPUtils.DCBlocker.t)
      (m x : Q) (c : list Q) :
  Rounded.SamplePlayer.dcBlockPass rnd d m (x :: c)
  = let p := Rounded.DCBlocker.process rnd x d in
    let r := Rounded.SamplePlayer.dcBlockPass rnd (fst p) (Qmax m (Qabs (snd p))) c in
    (fst (fst r), snd (fst r), snd p :: snd r).
Proof.
  cbn [Rounded.SamplePlayer.dcBlockPass].
  destruct (Rounded.DCBlocker.process rnd x d) as [d1 y].
  cbn [fst snd]. destruct (Rounded.SamplePlayer.dcBlockPass rnd d1 _ c) as [[d2 m2] ys].
  reflexivity.
Qed.

Lemma rounded_dcBlockPass_max (rnd : Q -> Q) (d : DSPUtils.DCBlocker.t)
      (m : Q) (c : list Q) :
  m <= snd (fst (Rounded.SamplePlayer.dcBlockPass rnd d m c))
  /\ Forall (fun y => Qabs y <= snd (fst (Rounded.SamplePlayer.dcBlockPass rnd d m c)))
            (snd (Rounded.SamplePlayer.dcBlockPass rnd d m c)).
Proof.
  revert d m. induction c as [|x c IH]; intros d m.
  - cbn. split; [lra | constructor].
  - rewrite rounded_dcBlockPass_cons. cbv zeta. cbn [fst snd].
    set (p := Rounded.DCBlocker.process rnd x d).
    destruct (IH (fst p) (Qmax m (Qabs (snd p)))) as [Hm Hys].
    pose proof (Q.le_max_l m (Qabs (snd p))).
    pose proof (Q.le_max_r m (Qabs (snd p))).
    split; [lra|]. constructor; [lra | exact Hys].
Qed.

Lemma rounded_dcBlockChannels_cons (rnd : Q -> Q) (d : DSPUtils.DCBlocker.t)
      (m : Q) (c : list Q) (chans : list (list Q)) :
  Rounded.SamplePlayer.dcBlockChannels rnd d m (c :: chans)
  = let p := Rounded.SamplePlayer.dcBlockPass rnd d m c in
    let r := Rounded.SamplePlayer.dcBlockChannels rnd (fst (fst p)) (snd (fst p)) chans in
    (fst (fst r), snd (fst r), snd p :: snd r).
Proof.
  cbn [Rounded.SamplePlayer.dcBlockChannels].
  destruct (Rounded.SamplePlayer.dcBlockPass rnd d m c) as [[d1 m1] c'].
  cbn [fst snd].
  destruct (Rounded.SamplePlayer.dcBlockChannels rnd d1 m1 chans) as [[d2 m2] r].
  reflexivity.
Qed.

Lemma rounded_dcBlockChannels_max (rnd : Q -> Q) (d : DSPUtils.DCBlocker.t)
      (m : Q) (chans : list (list Q)) :
  m <= snd (fst (Rounded.SamplePlayer.dcBlockChannels rnd d m chans))
  /\ peak_within (snd (fst (Rounded.SamplePlayer.dcBlockChannels rnd d m chans)))
       {| AudioBuffer.numSamples := 0;
          AudioBuffer.channels :=
            snd (Rounded.SamplePlayer.dcBlockChannels rnd d m chans) |}.
Proof.
  unfold peak_within. cbn [AudioBuffer.channels].
  revert d m. induction chans as [|c chans IH]; intros d m.
  - cbn. split; [lra | constructor].
  - rewrite rounded_dcBlockChannels_cons. cbv zeta. cbn [fst snd].
    destruct (rounded_dcBlockPass_max rnd d m c) as [Hm1 Hc].
    set (p := Rounded.SamplePlayer.dcBlockPass rnd d m c) in *.
    destruct (IH (fst (fst p)) (snd (fst p))) as [Hm2 Hchans].
    split; [lra|]. constructor; [|exact Hchans].
    eapply Forall_impl; [exact Hc|]. cbn. intros y Hy. lra.
Qed.

(** The peak as it is stored: the peak [m] times the rounded gain,
    rounded.  It is a [float], and three roundings away from 0.95. *)
Lemma stored_peak_bound (rnd : Q -> Q) (m : Q) :
  round_to_nearest rnd -> 0 < m ->
  0 <= rnd (rnd 0.95 / m)
  /\ rnd (m * rnd (rnd 0.95 / m)) <= rounded_peak_bound.
Proof.
  intros H Hm.
  assert (Hu : 0 < 1 + unit_roundoff) by (unfold unit_roundoff; lra).
  assert (Hc0 : 0 <= rnd 0.95) by (apply rnd_nonneg; [exact H | lra]).
  assert (Hc1 : rnd 0.95 <= 0.95 * (1 + unit_roundoff))
    by (apply rnd_upper; [exact H | lra]).
  assert (Hq0 : 0 <= rnd 0.95 / m) by (apply Qdiv_nonneg; lra).
  assert (Hs0 : 0 <= rnd (rnd 0.95 / m)) by (apply rnd_nonneg; assumption).
  assert (Hs1 : rnd (rnd 0.95 / m) <= rnd 0.95 / m * (1 + unit_roundoff))
    by (apply rnd_upper; assumption).
  split; [exact Hs0|].
  assert (Hp0 : 0 <= m * rnd (rnd 0.95 / m)) by (apply Qmult_le_0_compat; lra).
  assert (Hp1 : m * rnd (rnd 0.95 / m) <= rnd 0.95 * (1 + unit_roundoff)).
  { assert (E : rnd 0.95 * (1 + unit_roundoff)
                == m * (rnd 0.95 / m * (1 + unit_roundoff))) by (field; lra).
    rewrite E. apply Qmult_le_l; [exact Hm | exact Hs1]. }
  pose proof (rnd_upper rnd _ H Hp0) as Hr.
  unfold rounded_peak_bound.
  assert (Hp2 : m * rnd (rnd 0.95 / m) * (1 + unit_roundoff)
                <= rnd 0.95 * (1 + unit_roundoff) * (1 + unit_roundoff)).
  { apply Qmult_le_compat_r; lra. }
  assert (Hp3 : rnd 0.95 * (1 + unit_roundoff) * (1 + unit_roundoff)
                <= 0.95 * (1 + unit_roundoff) * (1 + unit_roundoff) * (1 + unit_roundoff)).
  { apply Qmult_le_compat_r; [|lra]. apply Qmult_le_compat_r; lra. }
  lra.
Qed.

Lemma rounded_applyGain_peak (rnd : Q -> Q) (m g : Q) (b : AudioBuffer.t) :
  round_to_nearest rnd -> 0 <= g -> peak_within m b ->
  peak_within (rnd (m * g)) (Rounded.SamplePlayer.applyGain rnd g b).
Proof.
  intros H Hg Hb.
  unfold peak_within, Rounded.SamplePlayer.applyGain, AudioBuffer.mapChannels in *.
  cbn [AudioBuffer.channels].
  apply Forall_map. eapply Forall_impl; [exact Hb|]. intros c Hc. cbv beta in *.
  apply Forall_map. eapply Forall_impl; [exact Hc|]. intros x Hx. cbv beta in *.
  apply (rnd_abs rnd _ _ H).
  rewrite Qabs_Qmult, (Qabs_pos g) by exact Hg.
  apply Qmult_le_compat_r; assumption.
Qed.

(** The fade gain as the [float] operations compute it lies in [[0, 1]]:
    the exact curve stays far enough below 1 on the steps of a fade of at
    most 1000 samples for three roundings not to reach it. *)
Lemma rounded_smoothGain_unit (rnd : Q -> Q) (i fadeLength : nat) :
  round_to_nearest rnd -> (i < fadeLength <= 1000)%nat ->
  let gain := rnd (inject_Z (Z.of_nat i) / inject_Z (Z.of_nat fadeLength)) in
  0 <= rnd (rnd (gain * gain) * rnd (3 - rnd (2 * gain))) <= 1.
Proof.
  intros H [Hi HF]. cbv zeta.
  set (q := inject_Z (Z.of_nat i) / inject_Z (Z.of_nat fadeLength)).
  assert (HFpos : 0 < inject_Z (Z.of_nat fadeLength)).
  { change 0 with (inject_Z 0). rewrite <- Zlt_Qlt. lia. }
  assert (Hq0 : 0 <= q).
  { apply Qdiv_nonneg; [|exact HFpos].
    change 0 with (inject_Z 0). rewrite <- Zle_Qle. lia. }
  assert (Hq1 : q <= 999 # 1000).
  { unfold q. apply Qle_shift_div_r; [exact HFpos|].
    assert (E : (999 # 1000) * inject_Z (Z.of_nat fadeLength)
                == inject_Z (999 * Z.of_nat fadeLength) / 1000).
    { rewrite inject_Z_mult. field. }
    rewrite E. apply Qle_shift_div_l; [lra|].
    change 1000 with (inject_Z 1000). rewrite <- inject_Z_mult, <- Zle_Qle. lia. }
  set (g := rnd q).
  assert (Hg0 : 0 <= g) by (apply rnd_nonneg; assumption).
  assert (Hg1 : g <= 9990001 # 10000000).
  { pose proof (rnd_upper rnd q H Hq0) as Hup. fold g in Hup.
    unfold unit_roundoff in Hup. nra. }
  set (a := rnd (g * g)).
  assert (Hgg : 0 <= g * g) by nra.
  assert (Ha0 : 0 <= a) by (apply rnd_nonneg; assumption).
  assert (Ha1 : a <= g * g * (1 + unit_roundoff)) by (apply rnd_upper; assumption).
  set (t := rnd (2 * g)).
  assert (H2g : 0 <= 2 * g) by lra.
  assert (Ht0 : 2 * g * (1 - unit_roundoff) <= t) by (apply rnd_lower; assumption).
  assert (Ht1 : t <= 2 * g * (1 + unit_roundoff)) by (apply rnd_upper; assumption).
  assert (H3t : 0 <= 3 - t) by (unfold unit_roundoff in *; nra).
  set (b := rnd (3 - t)).
  assert (Hb0 : 0 <= b) by (apply rnd_nonneg; assumption).
  assert (Hb1 : b <= (3 - t) * (1 + unit_roundoff)) by (apply rnd_upper; assumption).
  assert (Hab0 : 0 <= a * b) by (apply Qmult_le_0_compat; assumption).
  split; [apply rnd_nonneg; assumption|].
  destruct H as (_ & Hmono & _ & _ & Hone & _).
  rewrite <- Hone. apply Hmono.
  (* the exact curve on [0, 0.9990001] *)
  assert (Hcurve : g * g * (3 - 2 * g) <= 1 - (9999 # 10000000) * (9999 # 10000000)).
  { assert (Hd : (9999 # 10000000) <= 1 - g) by lra.
    assert (Hsq : (9999 # 10000000) * (9999 # 10000000) <= (1 - g) * (1 - g)) by nra.
    assert (Hw : (1 - g) * (1 - g) <= (1 - g) * (1 - g) * (1 + 2 * g)) by nra.
    assert (E : g * g * (3 - 2 * g) == 1 - (1 - g) * (1 - g) * (1 + 2 * g)) by ring.
    lra. }
  assert (Hgg1 : g * g <= 1) by nra.
  assert (Hb2 : b <= (3 - 2 * g) * (1 + unit_roundoff) + (3 # 16777216)).
  { unfold unit_roundoff in *. nra. }
  assert (HB0 : 0 <= (3 - 2 * g) * (1 + unit_roundoff) + (3 # 16777216)).
  { unfold unit_roundoff. nra. }
  assert (Hab1 : a * b <= g * g * (1 + unit_roundoff)
                          * ((3 - 2 * g) * (1 + unit_roundoff) + (3 # 16777216))).
  { apply Qmult_le_compat_nonneg; split; assumption. }
  assert (E : g * g * (1 + unit_roundoff)
              * ((3 - 2 * g) * (1 + unit_roundoff) + (3 # 16777216))
              == g * g * (3 - 2 * g) * ((1 + unit_roundoff) * (1 + unit_roundoff))
                 + g * g * ((1 + unit_roundoff) * (3 # 16777216))) by ring.
  assert (H1 : g * g * (3 - 2 * g) * ((1 + unit_roundoff) * (1 + unit_roundoff))
               <= (1 - (9999 # 10000000) * (9999 # 10000000))
                  * ((1 + unit_roundoff) * (1 + unit_roundoff))).
  { apply Qmult_le_compat_r; [exact Hcurve|]. unfold unit_roundoff. lra. }
  assert (H2 : g * g * ((1 + unit_roundoff) * (3 # 16777216))
               <= 1 * ((1 + unit_roundoff) * (3 # 16777216))).
  { apply Qmult_le_compat_r; [exact Hgg1|]. unfold unit_roundoff. lra. }
  assert (H3 : (1 - (9999 # 10000000) * (9999 # 10000000))
               * ((1 + unit_roundoff) * (1 + unit_roundoff))
               + 1 * ((1 + unit_roundoff) * (3 # 16777216)) <= 1).
  { apply Qle_bool_iff. reflexivity. }
  lra.
Qed.

Lemma peak_within_weaken (B B' : Q) (b : AudioBuffer.t) :
  B <= B' -> peak_within B b -> peak_within B' b.
Proof.
  intros HB Hb. unfold peak_within in *.
  eapply Forall_impl; [exact Hb|]. cbv beta. intros c Hc.
  eapply Forall_impl; [exact Hc|]. cbv beta. intros x Hx. lra.
Qed.

Lemma rounded_scaleSample_peak (rnd : Q -> Q) (B g : Q) (channel i : nat)
      (b : AudioBuffer.t) :
  round_to_nearest rnd -> rnd B == B -> 0 <= g <= 1 -> peak_within B b ->
  peak_within B (Rounded.SamplePlayer.scaleSample rnd channel i g b).
Proof.
  intros H HB Hg Hb. unfold peak_within, Rounded.SamplePlayer.scaleSample in *.
  cbn [AudioBuffer.channels].
  apply Forall_alter; [exact Hb|].
  intros c _ Hc. apply Forall_alter; [exact Hc|].
  intros x _ Hx. rewrite <- HB. apply (rnd_abs rnd _ _ H).
  apply Qabs_scale_le; assumption.
Qed.

Lemma rounded_applyFades_peak (rnd : Q -> Q) (B : Q) (s : SamplePlayer.t) :
  round_to_nearest rnd -> rnd B == B ->
  peak_within B (SamplePlayer.fileBuffer s) ->
  peak_within B (SamplePlayer.fileBuffer (Rounded.SamplePlayer.applyFades rnd s)).
Proof.
  intros H HB Hb. unfold Rounded.SamplePlayer.applyFades.
  destruct (_ <? 100)%nat; [exact Hb|].
  cbn [SamplePlayer.fileBuffer SamplePlayer.with_fileBuffer].
  apply (for_loop_ind (fun _ buf => peak_within B buf)); [exact Hb|].
  intros i buf Hi Hbuf.
  assert (Hg : (i < Nat.min 1000
                       (AudioBuffer.getNumSamples (SamplePlayer.fileBuffer s) / 10)
                  <= 1000)%nat) by lia.
  pose proof (rounded_smoothGain_unit rnd i _ H Hg) as Hunit. cbv zeta in Hunit.
  apply (for_loop_ind (fun _ buf => peak_within B buf)); [exact Hbuf|].
  intros channel buf' _ Hbuf'. cbv zeta.
  apply rounded_scaleSample_peak; [exact H | exact HB | exact Hunit|].
  apply rounded_scaleSample_peak; [exact H | exact HB | exact Hunit | exact Hbuf'].
Qed.

(** C6, as the code has it: in [float] arithmetic rounded to nearest,
    overflow and underflow aside, after [loadFile] on a readable file (the
    DC-blocking pass, the normalisation to the peak found by that pass, and
    the edge fades) no sample of the stored buffer exceeds
    [0.95 * (1 + 2^-24)^3] in absolute value, which is below 0.9500002: the
    bound 0.95 of exact arithmetic, and one rounding each for the literal
    [0.95f], the gain and the product. *)
Theorem loadFile_peak_within_rounding (rnd : Q -> Q) (r : AudioFormatReader)
        (s : SamplePlayer.t) :
  round_to_nearest rnd ->
  peak_within rounded_peak_bound
    (SamplePlayer.fileBuffer (Rounded.SamplePlayer.loadFile rnd (Some r) s))
  /\ rounded_peak_bound < 0.9500002.
Proof.
  intros H. split; [|apply Qltb_true; reflexivity].
  unfold Rounded.SamplePlayer.loadFile.
  cbn [SamplePlayer.fileBuffer SamplePlayer.with_fileBuffer
       SamplePlayer.with_reader SamplePlayer.with_fileSampleRate
       SamplePlayer.with_sampleRateRatio].
  destruct (rounded_dcBlockChannels_max rnd DSPUtils.DCBlocker.init 0
              (AudioBuffer.channels (SamplePlayer.readInto r))) as [Hm Hchans].
  destruct (Rounded.SamplePlayer.dcBlockChannels _ _ _ _) as [[d m] chans].
  cbn [fst snd] in Hm, Hchans.
  pose proof H as (_ & _ & _ & Hidem & _).
  destruct (Qgtb m 0) eqn:E.
  - apply Qgtb_true in E.
    destruct (stored_peak_bound rnd m H E) as [Hs0 Hs1].
    apply (peak_within_weaken _ _ _ Hs1).
    apply (rounded_applyFades_peak rnd _ _ H (Hidem _)).
    cbn [SamplePlayer.fileBuffer SamplePlayer.with_fileBuffer].
    apply (rounded_applyGain_peak rnd m _ _ H Hs0).
    exact Hchans.
  - apply Qgtb_false in E.
    assert (H0 : 0 <= rounded_peak_bound) by (apply Qle_bool_iff; reflexivity).
    apply (peak_within_weaken 0 _ _ H0).
    apply (rounded_applyFades_peak rnd 0 _ H (rnd_zero rnd H)).
    cbn [SamplePlayer.fileBuffer SamplePlayer.with_fileBuffer].
    apply (peak_within_weaken m 0); [exact E|]. exact Hchans.
Qed.

(** The claim as the specification words it fails in binary32: the file
    whose one sample is 131/256 is stored as 3984589/2^22, which is
    0.95000005 to eight places. *)
Lemma loadFile_peak_exceeds_095 :
  ~ peak_within 0.95
      (SamplePlayer.fileBuffer
         (Rounded.SamplePlayer.loadFile binary32 (Some demo_one_sample)
            SamplePlayer.construct)).
Proof.
  intros H. unfold peak_within in H.
  assert (E : AudioBuffer.channels
                (SamplePlayer.fileBuffer
                   (Rounded.SamplePlayer.loadFile binary32 (Some demo_one_sample)
                      SamplePlayer.construct))
              = [[3984589 # 4194304]]).
  { lazy. reflexivity. }
  rewrite E in H. inversion H as [|c l Hc _]. inversion Hc as [|x l' Hx _].
  apply Qle_bool_iff in Hx. discriminate Hx.
Qed.

Lemma loadFile_peak_within_rounding_witness :
  peak_within rounded_peak_bound
    (SamplePlayer.fileBuffer
       (Rounded.SamplePlayer.loadFile binary32 (Some demo_one_sample)
          SamplePlayer.construct))
  /\ rounded_peak_bound < 0.9500002.
Proof.
  exact (loadFile_peak_within_rounding binary32 demo_one_sample
           SamplePlayer.construct binary32_round_to_nearest).
Defined.

(** ** The envelope over time *)

Lemma process_times_succ (rnd : Q -> Q) (k : nat) (e : Envelope.t) :
  process_times rnd (S k) e
  = process_times rnd k (fst (Rounded.Envelope.process rnd e)).
Proof.
  unfold process_times.
  exact (Nat.iter_succ_r k (fun e => fst (Rounded.Envelope.process rnd e)) e).
Qed.

Lemma samples_succ (k : nat) : samples (S k) == samples k + 1.
Proof.
  unfold samples. rewrite Nat2Z.inj_succ. unfold Z.succ.
  rewrite inject_Z_plus. reflexivity.
Qed.

Lemma samples_nonneg (k : nat) : 0 <= samples k.
Proof.
  unfold samples. change 0 with (inject_Z 0). rewrite <- Zle_Qle. lia.
Qed.

Lemma samples_le (k k' : nat) : (k <= k')%nat -> samples k <= samples k'.
Proof. intros H. unfold samples. rewrite <- Zle_Qle. lia. Qed.

(** A stage that [k] clock gains cover has a positive clock gain, a
    positive [timeInc] and [k >= 1]. *)
Lemma covered_stage (k : nat) (stageTime inc : Q) :
  0 < stageTime ->
  stageTime <= samples k * (inc - unit_roundoff * (stageTime + inc)) ->
  0 < inc - unit_roundoff * (stageTime + inc) /\ 0 < inc /\ (1 <= k)%nat.
Proof.
  intros HT Hk. pose proof (samples_nonneg k) as Hn.
  set (gain := inc - unit_roundoff * (stageTime + inc)) in *.
  assert (Hg : 0 < gain).
  { destruct (Qlt_le_dec 0 gain) as [H|H]; [exact H|]. exfalso.
    assert (samples k * gain <= 0) by nra. lra. }
  split; [exact Hg|]. split.
  - unfold gain, unit_roundoff in Hg. lra.
  - destruct k as [|k]; [|lia]. exfalso.
    change (samples 0) with 0 in Hk. lra.
Qed.

(** While the stage clock is below [stageTime], a [process] call advances
    it by the clock gain at least. *)
Lemma clock_advances (rnd : Q -> Q) (stageTime t inc : Q) :
  round_to_nearest rnd ->
  0 <= t -> t < stageTime -> 0 <= inc ->
  t + (inc - unit_roundoff * (stageTime + inc)) <= rnd (t + inc).
Proof.
  intros H Ht HT Hi.
  pose proof (rnd_lower rnd (t + inc) H ltac:(lra)) as Hlow.
  unfold unit_roundoff in *. lra.
Qed.

(** A stage clock at or past the stage time gives a rounded ratio of at
    least 1. *)
Lemma ratio_past_stage (rnd : Q -> Q) (stageTime t : Q) :
  round_to_nearest rnd ->
  0 < stageTime -> stageTime <= t -> 1 <= rnd (t / stageTime).
Proof.
  intros H HT Ht.
  assert (H1 : 1 <= t / stageTime) by (apply Qle_shift_div_l; lra).
  destruct H as (_ & Hmono & _ & _ & Hone & _).
  specialize (Hmono 1 (t / stageTime) H1). lra.
Qed.

(** An Idle envelope at level 0 stays so under [process]. *)
Lemma idle_stays (rnd : Q -> Q) (k : nat) (e : Envelope.t) :
  Envelope.state e = Envelope.Idle ->
  Envelope.currentLevel e = 0 ->
  Envelope.state (process_times rnd k e) = Envelope.Idle
  /\ Envelope.currentLevel (process_times rnd k e) = 0.
Proof.
  revert e. induction k as [|k IH]; intros e Hst Hl; [split; assumption|].
  rewrite process_times_succ. apply IH.
  - unfold Rounded.Envelope.process. rewrite Hst. cbn. exact Hst.
  - unfold Rounded.Envelope.process. rewrite Hst. reflexivity.
Qed.

(** A release whose remaining time is covered by [k] clock gains ends in
    Idle. *)
Lemma release_runs_out (rnd : Q -> Q) (k : nat) (e : Envelope.t) :
  round_to_nearest rnd ->
  Envelope.state e = Envelope.Release ->
  0 < Envelope.releaseTime e ->
  0 <= Envelope.sustainLevel e ->
  0 <= rnd (1 / Envelope.sampleRate e) ->
  0 <= Envelope.currentTime e ->
  Envelope.releaseTime e
  <= Envelope.currentTime e
     + samples k * clock_gain rnd (Envelope.releaseTime e) e ->
  Envelope.currentTime e < Envelope.releaseTime e ->
  Envelope.state (process_times rnd k e) = Envelope.Idle
  /\ Envelope.currentLevel (process_times rnd k e) = 0.
Proof.
  intros Hrnd. revert e.
  induction k as [|k IH]; intros e Hst Hrel Hs Hinc H0 Hfit Hlt.
  - exfalso. change (samples 0) with 0 in Hfit. lra.
  - rewrite process_times_succ.
    rewrite samples_succ in Hfit.
    pose proof (clock_advances rnd _ _ _ Hrnd H0 Hlt Hinc) as Hadv.
    unfold clock_gain in Hfit, IH. cbv zeta in Hfit, IH.
    unfold Rounded.Envelope.process. rewrite Hst. cbv zeta.
    cbn [Envelope.currentTime Envelope.with_currentTime Envelope.with_currentLevel
         Envelope.sustainLevel Envelope.releaseTime Envelope.currentLevel fst].
    set (inc := rnd (1 / Envelope.sampleRate e)) in *.
    set (t1 := rnd (Envelope.currentTime e + inc)) in *.
    destruct (Qle_bool _ (rnd 0.001)) eqn:E.
    + apply idle_stays; reflexivity.
    + apply Qle_bool_false in E.
      assert (Ht1 : t1 < Envelope.releaseTime e).
      { destruct (Qlt_le_dec t1 (Envelope.releaseTime e)) as [H|H]; [exact H|].
        exfalso.
        pose proof (ratio_past_stage rnd _ _ Hrnd Hrel H) as Hratio.
        pose proof (rnd_nonpos rnd (1 - rnd (t1 / Envelope.releaseTime e)) Hrnd
                      ltac:(lra)) as Hfac.
        pose proof (rnd_nonpos rnd
                      (Envelope.sustainLevel e
                       * rnd (1 - rnd (t1 / Envelope.releaseTime e)))
                      Hrnd ltac:(nra)) as Hlev.
        pose proof (rnd_nonneg rnd 0.001 Hrnd ltac:(lra)) as Hthr.
        lra. }
      match goal with
      | |- Envelope.state (process_times rnd k ?e1) = _ /\ _ =>
          apply (IH e1); cbn; try assumption
      end.
      * unfold t1. apply rnd_nonneg; [exact Hrnd | lra].
      * fold inc. lra.
Qed.

(** X5: a release completes while the stage clock advances.  With every
    operation rounded to nearest, overflow and underflow aside: after
    [noteOff], whatever the state and level of the envelope were, [k] calls
    of [process] leave the envelope Idle at level 0 as soon as [k] clock
    gains cover the release time:
    [k * (timeInc - 2^-24 * (releaseTime + timeInc)) >= releaseTime], with
    [timeInc] the rounded [1 / sampleRate].  The clock gain is what the
    rounded sum [currentTime + timeInc] adds at least; where it is not
    positive no count satisfies the condition, and the statement says
    nothing. *)
Theorem noteOff_reaches_idle (rnd : Q -> Q) (k : nat) (e : Envelope.t) :
  round_to_nearest rnd ->
  0 < Envelope.releaseTime e ->
  0 <= Envelope.sustainLevel e ->
  Envelope.releaseTime e
  <= samples k * clock_gain rnd (Envelope.releaseTime e) e ->
  Envelope.state (process_times rnd k (Envelope.noteOff e)) = Envelope.Idle
  /\ Envelope.currentLevel (process_times rnd k (Envelope.noteOff e)) = 0.
Proof.
  intros Hrnd Hrel Hs Hk.
  destruct (covered_stage k _ _ Hrel Hk) as (Hgain & Hinc & Hk1).
  destruct (Envelope.state e) eqn:Hst.
  1: { (* Idle: noteOff does nothing, the first process sets the level to 0 *)
    assert (E : Envelope.noteOff e = e)
      by (unfold Envelope.noteOff; rewrite Hst; reflexivity).
    rewrite E. destruct k as [|k]; [lia|].
    rewrite process_times_succ. apply idle_stays.
    + unfold Rounded.Envelope.process. rewrite Hst. cbn. exact Hst.
    + unfold Rounded.Envelope.process. rewrite Hst. reflexivity. }
  all: assert (E : Envelope.noteOff e
                   = Envelope.with_currentTime 0
                       (Envelope.with_state Envelope.Release e))
         by (unfold Envelope.noteOff; rewrite Hst; reflexivity);
       rewrite E; apply release_runs_out;
       [ exact Hrnd | reflexivity | exact Hrel | exact Hs
       | apply Qlt_le_weak; exact Hinc | apply Qle_refl
       | cbn [Envelope.currentTime Envelope.with_currentTime];
         rewrite Qplus_0_l; exact Hk
       | exact Hrel ].
Qed.

Lemma noteOff_reaches_idle_witness :
  Envelope.state
    (process_times binary32 4413 (Envelope.noteOff (Envelope.noteOn demo_envelope)))
  = Envelope.Idle
  /\ Envelope.currentLevel
       (process_times binary32 4413
          (Envelope.noteOff (Envelope.noteOn demo_envelope)))
     = 0.
Proof.
  apply (noteOff_reaches_idle binary32 4413 (Envelope.noteOn demo_envelope)).
  - exact binary32_round_to_nearest.
  - reflexivity.
  - discriminate.
  - apply Qle_bool_iff. lazy. reflexivity.
Defined.

(** An envelope in Sustain at its sustain level stays so under [process]. *)
Lemma sustain_stays (rnd : Q -> Q) (k : nat) (e : Envelope.t) :
  Envelope.state e = Envelope.Sustain ->
  Envelope.currentLevel e = Envelope.sustainLevel e ->
  Envelope.state (process_times rnd k e) = Envelope.Sustain
  /\ Envelope.currentLevel (process_times rnd k e) = Envelope.sustainLevel e.
Proof.
  revert e. induction k as [|k IH]; intros e Hst Hl; [split; assumption|].
  rewrite process_times_succ.
  assert (E : fst (Rounded.Envelope.process rnd e)
              = Envelope.with_currentLevel (Envelope.sustainLevel e) e).
  { unfold Rounded.Envelope.process. rewrite Hst. reflexivity. }
  rewrite E. apply (IH (Envelope.with_currentLevel (Envelope.sustainLevel e) e)).
  - exact Hst.
  - reflexivity.
Qed.

(** A decay clock at or past the decay time brings the level down to the
    sustain level. *)
Lemma level_past_decay (rnd : Q -> Q) (sustain decay t : Q) :
  round_to_nearest rnd ->
  0 < decay -> sustain <= 1 ->
  rnd (1 - rnd (1 - sustain)) <= sustain ->
  decay <= t ->
  rnd (1 - rnd (rnd (1 - sustain) * rnd (t / decay))) <= sustain.
Proof.
  intros Hrnd Hd Hs Hfix Ht.
  pose proof (ratio_past_stage rnd _ _ Hrnd Hd Ht) as Hratio.
  pose proof (rnd_nonneg rnd (1 - sustain) Hrnd ltac:(lra)) as Hdepth.
  destruct Hrnd as (_ & Hmono & _ & Hidem & _).
  set (depth := rnd (1 - sustain)) in *.
  set (ratio := rnd (t / decay)) in *.
  assert (H1 : depth <= depth * ratio) by nra.
  pose proof (Hmono _ _ H1) as H2. unfold depth at 1 in H2.
  rewrite Hidem in H2. fold depth in H2.
  assert (H3 : 1 - rnd (depth * ratio) <= 1 - depth) by lra.
  pose proof (Hmono _ _ H3) as H4. lra.
Qed.

(** A decay whose remaining time is covered by [k] clock gains ends in
    Sustain. *)
Lemma decay_runs_out (rnd : Q -> Q) (k : nat) (e : Envelope.t) :
  round_to_nearest rnd ->
  Envelope.state e = Envelope.Decay ->
  0 < Envelope.decayTime e ->
  Envelope.sustainLevel e <= 1 ->
  rnd (1 - rnd (1 - Envelope.sustainLevel e)) <= Envelope.sustainLevel e ->
  0 <= rnd (1 / Envelope.sampleRate e) ->
  0 <= Envelope.currentTime e ->
  Envelope.decayTime e
  <= Envelope.currentTime e
     + samples k * clock_gain rnd (Envelope.decayTime e) e ->
  Envelope.currentTime e < Envelope.decayTime e ->
  Envelope.state (process_times rnd k e) = Envelope.Sustain
  /\ Envelope.currentLevel (process_times rnd k e) = Envelope.sustainLevel e.
Proof.
  intros Hrnd. revert e.
  induction k as [|k IH]; intros e Hst Hd Hs Hfix Hinc H0 Hfit Hlt.
  - exfalso. change (samples 0) with 0 in Hfit. lra.
  - rewrite process_times_succ.
    rewrite samples_succ in Hfit.
    pose proof (clock_advances rnd _ _ _ Hrnd H0 Hlt Hinc) as Hadv.
    unfold clock_gain in Hfit, IH. cbv zeta in Hfit, IH.
    unfold Rounded.Envelope.process. rewrite Hst. cbv zeta.
    cbn [Envelope.currentTime Envelope.with_currentTime Envelope.with_currentLevel
         Envelope.sustainLevel Envelope.decayTime Envelope.currentLevel fst].
    set (inc := rnd (1 / Envelope.sampleRate e)) in *.
    set (t1 := rnd (Envelope.currentTime e + inc)) in *.
    destruct (Qle_bool _ (Envelope.sustainLevel e)) eqn:E.
    + match goal with
      | |- Envelope.state (process_times rnd k ?e1) = _ /\ _ =>
          apply (sustain_stays rnd k e1); reflexivity
      end.
    + apply Qle_bool_false in E.
      assert (Ht1 : t1 < Envelope.decayTime e).
      { destruct (Qlt_le_dec t1 (Envelope.decayTime e)) as [H|H]; [exact H|].
        exfalso.
        pose proof (level_past_decay rnd _ _ _ Hrnd Hd Hs Hfix H). lra. }
      match goal with
      | |- Envelope.state (process_times rnd k ?e1) = _ /\ _ =>
          apply (IH e1); cbn; try assumption
      end.
      * unfold t1. apply rnd_nonneg; [exact Hrnd | lra].
      * fold inc. lra.
Qed.

(** An attack whose remaining time is covered by [ka] clock gains,
    followed by [kd] calls that cover the decay, ends in Sustain. *)
Lemma attack_runs_out (rnd : Q -> Q) (ka kd : nat) (e : Envelope.t) :
  round_to_nearest rnd ->
  Envelope.state e = Envelope.Attack ->
  0 < Envelope.attackTime e ->
  0 < Envelope.decayTime e ->
  Envelope.sustainLevel e <= 1 ->
  rnd (1 - rnd (1 - Envelope.sustainLevel e)) <= Envelope.sustainLevel e ->
  0 <= Envelope.currentTime e ->
  Envelope.attackTime e
  <= Envelope.currentTime e
     + samples ka * clock_gain rnd (Envelope.attackTime e) e ->
  Envelope.currentTime e < Envelope.attackTime e ->
  Envelope.decayTime e <= samples kd * clock_gain rnd (Envelope.decayTime e) e ->
  Envelope.state (process_times rnd (ka + kd) e) = Envelope.Sustain
  /\ Envelope.currentLevel (process_times rnd (ka + kd) e)
     = Envelope.sustainLevel e.
Proof.
  intros Hrnd. revert e.
  induction ka as [|ka IH]; intros e Hst Ha Hd Hs Hfix H0 Hfit Hlt Hkd.
  - exfalso. change (samples 0) with 0 in Hfit. lra.
  - cbn [Nat.add]. rewrite process_times_succ.
    rewrite samples_succ in Hfit.
    destruct (covered_stage kd _ _ Hd Hkd) as (Hgain & Hinc & _).
    pose proof (clock_advances rnd _ _ _ Hrnd H0 Hlt (Qlt_le_weak _ _ Hinc)) as Hadv.
    pose proof (samples_le kd (ka + kd) ltac:(lia)) as Hmono.
    unfold clock_gain in Hfit, Hkd, IH. cbv zeta in Hfit, Hkd, IH.
    unfold Rounded.Envelope.process. rewrite Hst. cbv zeta.
    cbn [Envelope.currentTime Envelope.with_currentTime Envelope.with_currentLevel
         Envelope.attackTime Envelope.currentLevel fst].
    set (inc := rnd (1 / Envelope.sampleRate e)) in *.
    set (t1 := rnd (Envelope.currentTime e + inc)) in *.
    destruct (Qgeb _ 1) eqn:E.
    + match goal with
      | |- Envelope.state (process_times rnd _ ?e1) = _ /\ _ =>
          apply (decay_runs_out rnd (ka + kd) e1); try unfold clock_gain; cbn;
            try assumption; try reflexivity
      end.
      * fold inc. lra.
      * lra.
      * fold inc. rewrite Qplus_0_l.
        set (gain := inc - unit_roundoff * (Envelope.decayTime e + inc)) in *.
        assert (samples kd * gain <= samples (ka + kd) * gain)
          by (apply Qmult_le_compat_r; lra).
        lra.
    + apply Qgeb_false in E.
      assert (Ht1 : t1 < Envelope.attackTime e).
      { destruct (Qlt_le_dec t1 (Envelope.attackTime e)) as [H|H]; [exact H|].
        exfalso.
        pose proof (ratio_past_stage rnd _ _ Hrnd Ha H). lra. }
      match goal with
      | |- Envelope.state (process_times rnd _ ?e1) = _ /\ _ =>
          apply (IH e1); cbn; try assumption
      end.
      * unfold t1. apply rnd_nonneg; [exact Hrnd | lra].
      * fold inc. lra.
Qed.

(** X6: a held note settles at the sustain level.  With every operation
    rounded to nearest, overflow and underflow aside: after [noteOn], any
    [ka + kd + more] calls of [process] leave the envelope in Sustain at
    exactly [sustainLevel], when [ka] clock gains cover the attack time,
    [kd] clock gains cover the decay time
    ([k * (timeInc - 2^-24 * (stageTime + timeInc)) >= stageTime], with
    [timeInc] the rounded [1 / sampleRate]), and the sustain level is at most
    1 and survives [1 - (1 - sustainLevel)] rounded, as the [0.7f] of
    [prepareToPlay] does in binary32. *)
Theorem noteOn_settles_at_sustain (rnd : Q -> Q) (ka kd more : nat)
        (e : Envelope.t) :
  round_to_nearest rnd ->
  0 < Envelope.attackTime e ->
  0 < Envelope.decayTime e ->
  Envelope.sustainLevel e <= 1 ->
  rnd (1 - rnd (1 - Envelope.sustainLevel e)) <= Envelope.sustainLevel e ->
  Envelope.attackTime e <= samples ka * clock_gain rnd (Envelope.attackTime e) e ->
  Envelope.decayTime e <= samples kd * clock_gain rnd (Envelope.decayTime e) e ->
  Envelope.state (process_times rnd (ka + kd + more) (Envelope.noteOn e))
  = Envelope.Sustain
  /\ Envelope.currentLevel
       (process_times rnd (ka + kd + more) (Envelope.noteOn e))
     = Envelope.sustainLevel e.
Proof.
  intros Hrnd Ha Hd Hs Hfix Hka Hkd.
  replace (ka + kd + more)%nat with (ka + (kd + more))%nat by lia.
  destruct (covered_stage kd _ _ Hd Hkd) as (Hgain & _ & _).
  pose proof (samples_le kd (kd + more) ltac:(lia)) as Hmono.
  apply (attack_runs_out rnd ka (kd + more) (Envelope.noteOn e));
    try assumption; try reflexivity.
  - apply Qle_refl.
  - change (Envelope.currentTime (Envelope.noteOn e)) with 0.
    rewrite Qplus_0_l. exact Hka.
  - unfold clock_gain in *. cbv zeta in *.
    change (Envelope.decayTime (Envelope.noteOn e)) with (Envelope.decayTime e).
    change (Envelope.sampleRate (Envelope.noteOn e)) with (Envelope.sampleRate e).
    set (gain := rnd (1 / Envelope.sampleRate e)
                 - unit_roundoff
                   * (Envelope.decayTime e + rnd (1 / Envelope.sampleRate e))) in *.
    assert (samples kd * gain <= samples (kd + more) * gain)
      by (apply Qmult_le_compat_r; lra).
    lra.
Qed.

Lemma noteOn_settles_at_sustain_witness :
  Envelope.state
    (process_times binary32 (222 + 2207 + 5) (Envelope.noteOn demo_envelope))
  = Envelope.Sustain
  /\ Envelope.currentLevel
       (process_times binary32 (222 + 2207 + 5) (Envelope.noteOn demo_envelope))
     = Envelope.sustainLevel demo_envelope.
Proof.
  apply (noteOn_settles_at_sustain binary32 222 2207 5 demo_envelope).
  - exact binary32_round_to_nearest.
  - reflexivity.
  - reflexivity.
  - discriminate.
  - apply Qle_bool_iff. lazy. reflexivity.
  - apply Qle_bool_iff. lazy. reflexivity.
  - apply Qle_bool_iff. lazy. reflexivity.
Defined.
